(** * The generator batch engine of megaorm-cli

    A shallow embedding of [src/handlers/GeneratorHandler.ts]: the helper
    functions of the module ([lastBatch], [add], [remove], [group],
    [rename], ...) and the methods of the [GeneratorHandler] class
    ([load], [createTables], [dropTables], [beReadyToGenerate],
    [beReadyToRollback], [generate], [rollback], [add], [remove],
    [reset]); and of the reading of the arguments of a command in
    [src/MegaCommand.ts] ([parse], [validate], [argument], [option]).

    Promises are run to completion one after the other: a computation is a
    function from the state (the handler object and the outside world it
    talks to) to what becomes of its promise (resolved, rejected, or left
    pending for ever) and the next state.  Every call that leaves the
    process (a query, a file operation) is written to a log, so that
    "before", "never attempted" and "only after" are statements about the
    log.

    Paths are those of POSIX.  Numbers are the integers: the numbers of
    JavaScript are the integers up to [Number.MAX_SAFE_INTEGER], and each
    statement that reads the number of a file or adds one to it carries
    that bound. *)

From Stdlib Require Import List String Ascii ZArith Lia Bool Arith PeanoNat.
From Stdlib Require Import DecimalString Permutation Sorted.
From Stdlib Require DecimalNat Nnat.
Import ListNotations.
Open Scope string_scope.

(* ------------------------------------------------------------------ *)
(** ** Strings, the way the JavaScript code uses them                   *)
(* ------------------------------------------------------------------ *)

Module Js.

(** [[0-9]] *)
Definition is_digit (c : ascii) : bool :=
  (48 <=? nat_of_ascii c)%nat && (nat_of_ascii c <=? 57)%nat.

(** [[a-z]] *)
Definition is_lower (c : ascii) : bool :=
  (97 <=? nat_of_ascii c)%nat && (nat_of_ascii c <=? 122)%nat.

(** [.] of a regular expression: any character but a line terminator. *)
Definition is_any (c : ascii) : bool :=
  negb ((nat_of_ascii c =? 10)%nat || (nat_of_ascii c =? 13)%nat).

(** The longest run of digits at the head of [s], and what follows it. *)
Fixpoint span_digits (s : string) : string * string :=
  match s with
  | String c r =>
      if is_digit c
      then let (ds, rest) := span_digits r in (String c ds, rest)
      else (EmptyString, s)
  | EmptyString => (EmptyString, EmptyString)
  end.

(** [s] without its prefix [p], when [s] starts with [p]. *)
Fixpoint drop_prefix (p s : string) : option string :=
  match p, s with
  | EmptyString, _ => Some s
  | String a p', String b s' =>
      if Ascii.eqb a b then drop_prefix p' s' else None
  | String _ _, EmptyString => None
  end.

(** [Number.prototype.toString] on a non-negative integer. *)
Definition toString (n : nat) : string :=
  NilZero.string_of_uint (Nat.to_uint n).

Fixpoint replicate (n : nat) (c : ascii) : string :=
  match n with
  | O => EmptyString
  | S k => String c (replicate k c)
  end.

(** [String.prototype.padStart] with a one-character filler. *)
Definition padStart (width : nat) (c : ascii) (s : string) : string :=
  replicate (width - String.length s) c ++ s.

(** [parseInt] on a string of decimal digits, as an integer: this is
    the number of JavaScript as long as it is a safe integer (below
    2^53), which the statements on numbers ask for ([safe], below). *)
Fixpoint parseInt_acc (acc : N) (s : string) : N :=
  match s with
  | String c r =>
      if is_digit c
      then parseInt_acc (10 * acc + N.of_nat (nat_of_ascii c - 48)) r
      else acc
  | EmptyString => acc
  end.

Definition parseInt (s : string) : N := parseInt_acc 0 s.

(** [Array.prototype.join]. *)
Fixpoint join (sep : string) (l : list string) : string :=
  match l with
  | [] => EmptyString
  | [x] => x
  | x :: rest => x ++ sep ++ join sep rest
  end.

(** [Array.prototype.includes] on strings. *)
Definition includes (l : list string) (x : string) : bool :=
  existsb (String.eqb x) l.

(** [path.basename]: what follows the last slash. The boolean tells
    whether a slash was met. *)
Fixpoint basename_aux (s : string) : string * bool :=
  match s with
  | EmptyString => (EmptyString, false)
  | String c r =>
      let (b, found) := basename_aux r in
      if found then (b, true)
      else if Ascii.eqb c "/"%char then (r, true)
      else (s, false)
  end.

Definition basename (s : string) : string := fst (basename_aux s).

(** [path.dirname]: what precedes the last slash. *)
Fixpoint dirname_aux (s : string) : string * bool :=
  match s with
  | EmptyString => (EmptyString, false)
  | String c r =>
      let (d, found) := dirname_aux r in
      if found then (String c d, true)
      else if Ascii.eqb c "/"%char then (EmptyString, true)
      else (EmptyString, false)
  end.

Definition dirname (s : string) : string :=
  let (d, found) := dirname_aux s in
  if found then (if String.eqb d EmptyString then "/" else d) else ".".

(** [path.resolve(dir, file)] for a directory entry [file] and a
    [dir] that is absolute and normalised, and not the root: the paths
    that [path.resolve] itself returns ([resolved_path], below, which
    the statements on the paths of a directory ask for). *)
Definition resolvePath (dir file : string) : string := dir ++ "/" ++ file.

End Js.

(* ------------------------------------------------------------------ *)
(** ** The file-name patterns                                           *)
(* ------------------------------------------------------------------ *)

(** In the expressions quoted below SEG stands for "[a-z][a-z0-9]*".

    The table part of a name, "SEG(_SEG)*", then an underscore, then a
    text that [accept] takes.  A segment is always read to its end: what follows it has to
    be an underscore, which no segment contains.  [in_seg] tells whether
    the first character of the current segment has been read. *)
Fixpoint snake_then (accept : string -> bool) (in_seg : bool) (s : string) : bool :=
  match s with
  | EmptyString => false
  | String c r =>
      if in_seg then
        if Js.is_lower c || Js.is_digit c then snake_then accept true r
        else if Ascii.eqb c "_"%char then accept r || snake_then accept false r
        else false
      else if Js.is_lower c then snake_then accept true r
      else false
  end.

(** Digits, "_generate_", the table part, an underscore and one of
    [tails], from the first character of [name] to its last. *)
Definition generator_name (tails : list string) (name : string) : bool :=
  let (ds, r) := Js.span_digits name in
  negb (String.eqb ds EmptyString) &&
  match Js.drop_prefix "_generate_" r with
  | Some t => snake_then (fun x => existsb (String.eqb x) tails) false t
  | None => false
  end.

(** "/^[0-9]+_generate_SEG(_SEG)*_table\.(ts|js)$/" *)
Definition isFile (name : string) : bool :=
  generator_name ["table.ts"; "table.js"] name.

(** "/^[0-9]+_generate_SEG(_SEG)*_table\.ts$/" *)
Definition isTsFile (name : string) : bool :=
  generator_name ["table.ts"] name.

(** "/^[0-9]+_generate_SEG(_SEG)*_table(\.js\.map|\.d\.ts)$/" *)
Definition isMappedFile (name : string) : bool :=
  generator_name ["table.js.map"; "table.d.ts"] name.

(** The expression of [group],
    "/([0-9]+)_generate_SEG(?:_SEG)*_table/",
    tried at the head of [s]: the text of its first group. *)
Definition stem_here (s : string) : option string :=
  let (ds, r) := Js.span_digits s in
  if String.eqb ds EmptyString then None
  else match Js.drop_prefix "_generate_" r with
       | Some t => if snake_then (String.prefix "table") false t
                   then Some ds else None
       | None => None
       end.

(** [path.match(regex)]: the expression is not anchored, the leftmost
    place where it matches wins.  [None] is JavaScript's [null]. *)
Fixpoint stem_match (s : string) : option string :=
  match stem_here s with
  | Some ds => Some ds
  | None =>
      match s with
      | EmptyString => None
      | String _ r => stem_match r
      end
  end.

(** The end of the expression built in [remove]: in the template literal
    the backslashes are dropped, so every dot takes any character:
    ".(ts|js|js.map|d.ts)$". *)
Definition removal_tail (s : string) : bool :=
  match s with
  | String c e =>
      Js.is_any c &&
      (String.eqb e "ts" || String.eqb e "js" ||
       match e with
       | String "j" (String "s" (String x m)) => Js.is_any x && String.eqb m "map"
       | String "d" (String x t) => Js.is_any x && String.eqb t "ts"
       | _ => false
       end)
  | EmptyString => false
  end.

(** "new RegExp(`[0-9]+_generate_${name}_table\.(ts|js|js\.map|d\.ts)$`).test(s)"
    for a [name] of letters, digits and underscores: a digit, then
    [_generate_<name>_table], then the tail, anywhere in [s]. *)
Fixpoint removal_test_from (name : string) (after_digit : bool) (s : string) : bool :=
  (after_digit &&
   match Js.drop_prefix ("_generate_" ++ name ++ "_table") s with
   | Some r => removal_tail r
   | None => false
   end)
  || match s with
     | EmptyString => false
     | String c r => removal_test_from name (Js.is_digit c) r
     end.

Definition removal_test (name s : string) : bool :=
  removal_test_from name false s.

(* ------------------------------------------------------------------ *)
(** ** Errors, rows, generators                                         *)
(* ------------------------------------------------------------------ *)

(** The errors that travel through the promises: [QueryError] of
    [@megaorm/errors], the module's own [GeneratorHandlerError], and any
    other [Error]. *)
Inductive error : Type :=
| QueryError (message : string)
| GeneratorHandlerError (message : string)
| OtherError (message : string).

Definition message (e : error) : string :=
  match e with
  | QueryError m | GeneratorHandlerError m | OtherError m => m
  end.

(** [isChildOf(error, QueryError)] *)
Definition isQueryError (e : error) : bool :=
  match e with
  | QueryError _ => true
  | _ => false
  end.

(** [type Row = { id: number; batch: number; path: string }] *)
Record Row : Type := mkRow { id : Z; batch : Z; path : string }.

(** [type Gen = { paths: string[]; batch: number }] *)
Record Gen : Type := mkGen { gen_paths : list string; gen_batch : Z }.

(** What a call of [create()] or [drop()] hands back. A promise
    rejects, and a call throws, with any value. All that the handler
    does with that value is to read its [message]: [RejectsWith e] and
    [Throws e] stand for a value that is not [undefined] or [null], [e]
    giving the [message] read (for a value without one, a string say,
    the text read is "undefined"). [undefined] and [null] have no
    property to read: they are the reasons of [RejectsWithNothing]
    ([Promise.reject()]) and [ThrowsNothing] ([throw undefined]). *)
Inductive returned : Type :=
| Fulfils                      (* a promise that resolves *)
| RejectsWith (e : error)      (* a promise that rejects *)
| PlainValue                   (* anything that is not a promise *)
| Throws (e : error)           (* the call throws *)
| RejectsWithNothing           (* a promise that rejects with undefined or null *)
| ThrowsNothing.               (* the call throws undefined or null *)

(** A generator instance: the name of its class, its table, and what its
    two operations do when they are called. *)
Record MegaGenerator : Type := mkGenerator {
  constructor_name : string;
  get_table : string;
  create : returned;
  drop : returned
}.

(** What [require(path)] yields. *)
Inductive module_ : Type :=
| DefaultExport (g : MegaGenerator)   (* the module is a generator *)
| NamedExport (g : MegaGenerator)     (* an object with one property, a generator *)
| OtherExport                         (* any other value *)
| RequireFails (e : error).           (* [require] throws *)

(** A column of a table definition, as the builder methods [pk], [text],
    [smallInt], [unsigned] and [notNull] leave it. *)
Inductive column_type : Type := NoType | Text | SmallInt.

Record Column : Type := mkColumn {
  col_name : string;
  col_pk : bool;
  col_type : column_type;
  col_unsigned : bool;
  col_notNull : bool
}.

Definition column (name : string) : Column := mkColumn name false NoType false false.
Definition pk (c : Column) : Column :=
  mkColumn (col_name c) true (col_type c) (col_unsigned c) (col_notNull c).
Definition text (c : Column) : Column :=
  mkColumn (col_name c) (col_pk c) Text (col_unsigned c) (col_notNull c).
Definition smallInt (c : Column) : Column :=
  mkColumn (col_name c) (col_pk c) SmallInt (col_unsigned c) (col_notNull c).
Definition unsigned (c : Column) : Column :=
  mkColumn (col_name c) (col_pk c) (col_type c) true (col_notNull c).
Definition notNull (c : Column) : Column :=
  mkColumn (col_name c) (col_pk c) (col_type c) (col_unsigned c) true.

(** [insert.row(r)] or [insert.rows(rs)] *)
Inductive insertion : Type :=
| InsertRow (r : string * Z)
| InsertRows (rs : list (string * Z)).

Definition values (i : insertion) : list (string * Z) :=
  match i with
  | InsertRow r => [r]
  | InsertRows rs => rs
  end.

(* ------------------------------------------------------------------ *)
(** ** The state and the promises                                       *)
(* ------------------------------------------------------------------ *)

(** Every call that leaves the handler, in the order it is made. *)
Inductive event : Type :=
| EvRaw (sql : string)                        (* builder.raw(sql) *)
| EvSchema (table : string) (cs : list Column) (* generator.schema(...) *)
| EvInsert (i : insertion)                    (* insert().into('generators')...exec() *)
| EvDelete (ps : list string)                 (* delete().from('generators').where(path in ps).exec() *)
| EvRequire (p : string)                      (* require(p) *)
| EvCreate (p : string)                       (* create() of the generator of path p *)
| EvDrop (p : string)                         (* drop() of the generator of path p *)
| EvReaddir (d : string)                      (* fs.readdir(d) *)
| EvUnlink (p : string)                       (* fs.unlink(p) *)
| EvRename (old new : string).                (* fs.rename(old, new) *)

(** The handler object ([rows]) and the world around it: the generators
    table ([None] when it does not exist) with its next surrogate key,
    the files on disk, what [require] finds, the failures the database or
    the file system will answer the coming calls with (one entry per
    call, [None] for a call that goes through), and the log. *)
Record state : Type := mkState {
  rows : list Row;
  ledger : option (list Row);
  next_id : Z;
  files : list string;
  modules : string -> module_;
  faults : list (option error);
  log : list event
}.

Definition with_rows (r : list Row) (s : state) : state :=
  mkState r (ledger s) (next_id s) (files s) (modules s) (faults s) (log s).
Definition with_ledger (l : option (list Row)) (n : Z) (s : state) : state :=
  mkState (rows s) l n (files s) (modules s) (faults s) (log s).
Definition with_files (f : list string) (s : state) : state :=
  mkState (rows s) (ledger s) (next_id s) f (modules s) (faults s) (log s).
Definition with_faults (f : list (option error)) (s : state) : state :=
  mkState (rows s) (ledger s) (next_id s) (files s) (modules s) f (log s).
Definition record (e : event) (s : state) : state :=
  mkState (rows s) (ledger s) (next_id s) (files s) (modules s) (faults s)
          (log s ++ [e])%list.

(** The state after the calls [evs] have been logged. *)
Definition records (evs : list event) (s : state) : state :=
  mkState (rows s) (ledger s) (next_id s) (files s) (modules s) (faults s)
          (log s ++ evs)%list.

(** What becomes of a promise: it resolves, it rejects, or neither of
    its two callbacks is ever called and it stays pending. *)
Inductive promise (A : Type) : Type :=
| Resolved (a : A)
| Rejected (e : error)
| Pending.
Arguments Resolved {A} a.
Arguments Rejected {A} e.
Arguments Pending {A}.

Definition M (A : Type) : Type := state -> promise A * state.

Definition resolve {A} (a : A) : M A := fun s => (Resolved a, s).
Definition reject {A} (e : error) : M A := fun s => (Rejected e, s).

(** [m.then(k)]; nothing follows a promise that stays pending. *)
Definition bind {A B} (m : M A) (k : A -> M B) : M B :=
  fun s =>
    match m s with
    | (Resolved a, s') => k a s'
    | (Rejected e, s') => (Rejected e, s')
    | (Pending, s') => (Pending, s')
    end.

(** [m.catch(h)] *)
Definition catch {A} (m : M A) (h : error -> M A) : M A :=
  fun s =>
    match m s with
    | (Resolved a, s') => (Resolved a, s')
    | (Rejected e, s') => h e s'
    | (Pending, s') => (Pending, s')
    end.

Notation "x <- m ;; k" := (bind m (fun x => k))
  (at level 61, m at next level, right associativity).
Notation "m ;;; k" := (bind m (fun _ => k))
  (at level 61, right associativity).

(** A call that leaves the process: it is logged, then it fails with the
    failure scheduled for it, or it does what [sem] says. *)
Definition call {A} (ev : event) (sem : M A) : M A :=
  fun s =>
    let s1 := record ev s in
    match faults s1 with
    | Some e :: rest => (Rejected e, with_faults rest s1)
    | None :: rest => sem (with_faults rest s1)
    | [] => sem s1
    end.

(* ------------------------------------------------------------------ *)
(** ** The database behind the builder                                  *)
(* ------------------------------------------------------------------ *)

Definition no_table : error := QueryError "Table generators does not exist".
Definition table_exists : error := QueryError "Table generators already exists".

(** Modelled from the spec: the query executor ([MegaBuilder] of the
    package [@megaorm/builder]) is outside the repository; a statement
    answers with rows or with a failure, and the generators table holds
    the rows [id], [path], [batch].

    [builder.raw(sql)]: the two statements on the generators table read
    and drop it; any other statement (the tables of the user's
    generators) leaves it alone. *)
Definition raw (sql : string) : M (list Row) :=
  call (EvRaw sql) (fun s =>
    if String.eqb sql "SELECT * FROM generators;" then
      match ledger s with
      | Some rs => (Resolved rs, s)
      | None => (Rejected no_table, s)
      end
    else if String.eqb sql "DROP TABLE generators;" then
      match ledger s with
      | Some _ => (Resolved [], with_ledger None (next_id s) s)
      | None => (Rejected no_table, s)
      end
    else (Resolved [], s)).

(** Modelled from the spec: [MegaGenerator] of the package
    [@megaorm/gen] is outside the repository.
    [schema(...columns)] for the table [table] is its CREATE TABLE. *)
Definition schema (table : string) (cs : list Column) : M unit :=
  call (EvSchema table cs) (fun s =>
    if String.eqb table "generators" then
      match ledger s with
      | None => (Resolved tt, with_ledger (Some []) 1 s)
      | Some _ => (Rejected table_exists, s)
      end
    else (Resolved tt, s)).

(** The rows an INSERT adds, numbered from the next surrogate key on. *)
Fixpoint new_rows (n : Z) (vs : list (string * Z)) : list Row :=
  match vs with
  | [] => []
  | (p, b) :: rest => mkRow n b p :: new_rows (n + 1) rest
  end.

(** Modelled from the spec: [insert().into('generators')...exec()] of
    the builder adds one row per value, the key counting up. *)
Definition exec_insert (i : insertion) : M unit :=
  call (EvInsert i) (fun s =>
    match ledger s with
    | Some rs =>
        (Resolved tt,
         with_ledger (Some (rs ++ new_rows (next_id s) (values i))%list)
                     (next_id s + Z.of_nat (List.length (values i))) s)
    | None => (Rejected no_table, s)
    end).

(** Modelled from the spec:
    [delete().from('generators').where((col) => col('path').in(...paths)).exec()]
    of the builder deletes the rows whose path is one of [paths]. *)
Definition exec_delete (ps : list string) : M unit :=
  call (EvDelete ps) (fun s =>
    match ledger s with
    | Some rs =>
        (Resolved tt,
         with_ledger (Some (filter (fun r => negb (Js.includes ps (path r))) rs))
                     (next_id s) s)
    | None => (Rejected no_table, s)
    end).

(* ------------------------------------------------------------------ *)
(** ** The helper functions of the module                               *)
(* ------------------------------------------------------------------ *)

(** [class Generator extends MegaGenerator], its [create()] on the table
    it was given. *)
Definition Generator_create (table : string) : M unit :=
  schema table
    [ pk (column "id");
      notNull (text (column "path"));
      notNull (unsigned (smallInt (column "batch"))) ].

(** [lastBatch(batches)] *)
Definition lastBatch (batches : list Z) : Z :=
  match batches with
  | [] => 0
  | _ => fold_left (fun lastBatch batch =>
                      if (batch >? lastBatch)%Z then batch else lastBatch)
                   batches 0%Z
  end.

(** The query [add] builds: [insert.row(rows[0])] for one row,
    [insert.rows(rows)] otherwise. *)
Definition insertion_of (paths : list string) (batch : Z) : insertion :=
  let rows := map (fun path => (path, batch)) paths in
  match rows with
  | [r] => InsertRow r
  | _ => InsertRows rows
  end.

(** [add(paths, batch, builder)] *)
Definition add (paths : list string) (batch : Z) : M unit :=
  exec_insert (insertion_of paths batch).

(** [remove(paths, builder)] *)
Definition remove (paths : list string) : M unit :=
  exec_delete paths.

(** [sfx(paths)] *)
Definition sfx {A} (paths : list A) : string :=
  if (List.length paths =? 1)%nat then EmptyString else "s".

(** [Promise.all(promises)]: every call has been made by the time the
    array exists; the result rejects with a failure among them (here the
    first of the array) and resolves when all have resolved; it stays
    pending when none rejects and one stays pending. *)
Fixpoint all (ms : list (M unit)) : M unit :=
  match ms with
  | [] => resolve tt
  | m :: rest =>
      fun s =>
        match m s with
        | (Resolved _, s1) => all rest s1
        | (Rejected e, s1) => (Rejected e, snd (all rest s1))
        | (Pending, s1) =>
            match all rest s1 with
            | (Rejected e, s2) => (Rejected e, s2)
            | (_, s2) => (Pending, s2)
            end
        end
  end.

(** Modelled from the spec: the file system ([fs/promises]) lists,
    deletes and renames files, and each call may fail; [files] lists
    the files that exist, a directory lists its files in that order. *)
Definition enoent (p : string) : error :=
  OtherError ("ENOENT: no such file or directory, " ++ p).

Definition fs_readdir (d : string) : M (list string) :=
  call (EvReaddir d) (fun s =>
    (Resolved (map Js.basename
                   (filter (fun p => String.eqb (Js.dirname p) d) (files s))), s)).

Definition fs_unlink (p : string) : M unit :=
  call (EvUnlink p) (fun s =>
    if Js.includes (files s) p
    then (Resolved tt, with_files (filter (fun f => negb (String.eqb f p)) (files s)) s)
    else (Rejected (enoent p), s)).

Definition fs_rename (old new : string) : M unit :=
  call (EvRename old new) (fun s =>
    if Js.includes (files s) old
    then (Resolved tt,
          with_files
            (map (fun f => if String.eqb f old then new else f)
                 (filter (fun f => String.eqb f old || negb (String.eqb f new))
                         (files s))) s)
    else (Rejected (enoent old), s)).

(** The renames [rename(groups)] asks for: every path of the group at
    [index] gets the number [index + 1]. *)
Definition rename_one (index : nat) (path : string) : string * string :=
  let newNumber := Js.padStart 2 "0"%char (Js.toString (index + 1)) in
  let newName := newNumber ++ snd (Js.span_digits (Js.basename path)) in
  let newPath := Js.dirname path ++ "/" ++ newName in
  (path, newPath).

Fixpoint rename_from (index : nat) (groups : list (list string)) : list (string * string) :=
  match groups with
  | [] => []
  | group :: rest => (map (rename_one index) group ++ rename_from (S index) rest)%list
  end.

Definition renames (groups : list (list string)) : list (string * string) :=
  rename_from 0 groups.

(** [rename(groups)] *)
Definition rename (groups : list (list string)) : M unit :=
  match groups with
  | [] => resolve tt
  | _ =>
      catch (all (map (fun op => fs_rename (fst op) (snd op)) (renames groups)))
            (fun error => reject (GeneratorHandlerError (message error)))
  end.

(** The object [storage] of [group]: its properties in the order they
    were created. *)
Definition storage : Type := list (string * list string).

(** [if (!storage[number]) storage[number] = []; storage[number].push(path)] *)
Fixpoint push (st : storage) (number path : string) : storage :=
  match st with
  | [] => [(number, [path])]
  | (k, v) :: rest =>
      if String.eqb k number then (k, (v ++ [path])%list) :: rest
      else (k, v) :: push rest number path
  end.

Definition get (st : storage) (key : string) : list string :=
  match find (fun kv => String.eqb (fst kv) key) st with
  | Some kv => snd kv
  | None => []
  end.

(** A key that is an array index: "0" or digits without a leading zero,
    below 2^32 - 1. *)
Definition is_index (k : string) : bool :=
  match k with
  | String c r =>
      (String.eqb k "0" || negb (Ascii.eqb c "0"%char)) &&
      (Js.parseInt k <=? 4294967294)%N
  | EmptyString => false
  end.

(** Insertion into a list of keys in ascending order of their numbers;
    a key goes before the keys of the same number. *)
Fixpoint insert_key (k : string) (sorted : list string) : list string :=
  match sorted with
  | [] => [k]
  | x :: rest =>
      if (Js.parseInt k <=? Js.parseInt x)%N then k :: sorted
      else x :: insert_key k rest
  end.

(** [keys.sort((a, b) => parseInt(a) - parseInt(b))]: the sort is stable. *)
Definition sort_keys (keys : list string) : list string :=
  fold_right insert_key [] keys.

(** [Object.keys(storage)]: the array indices in ascending order, then
    the other keys in the order they were created. *)
Definition Object_keys (st : storage) : list string :=
  let keys := map fst st in
  (sort_keys (filter is_index keys) ++ filter (fun k => negb (is_index k)) keys)%list.

(** The loop of [group]; [None] when [path.match(regex)] is [null] and
    reading its group throws. *)
Fixpoint group_loop (paths : list string) (st : storage) : option storage :=
  match paths with
  | [] => Some st
  | path :: rest =>
      match stem_match path with
      | Some number => group_loop rest (push st number path)
      | None => None
      end
  end.

(** [group(paths)] *)
Definition group (paths : list string) : option (list (list string)) :=
  match group_loop paths [] with
  | Some st => Some (map (get st) (sort_keys (Object_keys st)))
  | None => None
  end.

(** [unlink(paths)] *)
Definition unlink (paths : list string) : M unit :=
  all (map fs_unlink paths).

(** Modelled from the spec: [isSnakeCase] of the package [@megaorm/test]
    is not part of the repository; the spec asks for a snake_case table
    name, read here as the table part of a generator file name. *)
Fixpoint snake (in_seg : bool) (s : string) : bool :=
  match s with
  | EmptyString => in_seg
  | String c r =>
      if in_seg then
        if Js.is_lower c || Js.is_digit c then snake true r
        else if Ascii.eqb c "_"%char then snake false r
        else false
      else if Js.is_lower c then snake true r
      else false
  end.

Definition isSnakeCase (name : string) : bool := snake false name.

(** Modelled from the spec: [isFullStr] of the package [@megaorm/test]
    is not part of the repository; a directory is named by a string that
    is not empty. *)
Definition isFullStr (s : string) : bool := negb (String.eqb s EmptyString).

Definition nl : string := String (ascii_of_nat 10) EmptyString.

(* ------------------------------------------------------------------ *)
(** ** The methods of the class                                         *)
(* ------------------------------------------------------------------ *)

Module GeneratorHandler.

(** [new GeneratorHandler(builder)] given the world [s]: the handler
    starts with no rows. *)
Definition new (s : state) : state := with_rows [] s.

Definition this_rows : M (list Row) := fun s => (Resolved (rows s), s).
Definition set_rows (r : list Row) : M unit := fun s => (Resolved tt, with_rows r s).

(** [collectPaths(path, map)] *)
Definition collectPaths (path : string) (map_ : bool) : M (list string) :=
  result <- catch (fs_readdir path)
                  (fun e => reject (GeneratorHandlerError (message e))) ;;
  match result with
  | [] => resolve []
  | _ =>
      let files :=
        if map_ then result
        else filter (fun name => negb (isMappedFile name)) result in
      match find (fun file =>
                    negb (isFile file) && negb (map_ && isMappedFile file))
                 files with
      | Some file =>
          reject (GeneratorHandlerError ("Invalid generator file: " ++ file))
      | None => resolve (map (Js.resolvePath path) files)
      end
  end.

(** The body of the loop of [collectGenerators] for one path. *)
Definition collectGenerator (path : string) : M MegaGenerator :=
  fun s =>
    let s1 := record (EvRequire path) s in
    match modules s1 path with
    | RequireFails error => (Rejected (GeneratorHandlerError (message error)), s1)
    | DefaultExport g => (Resolved g, s1)
    | NamedExport g => (Resolved g, s1)
    | OtherExport =>
        (Rejected (GeneratorHandlerError ("Invalid generator in: " ++ path)), s1)
    end.

Fixpoint collectGenerators_loop (paths : list string) : M (list MegaGenerator) :=
  match paths with
  | [] => resolve []
  | path :: rest =>
      g <- collectGenerator path ;;
      gs <- collectGenerators_loop rest ;;
      resolve (g :: gs)
  end.

(** [collectGenerators(paths)]; a rejection stands for a throw. *)
Definition collectGenerators (paths : list string) : M (list MegaGenerator) :=
  match paths with
  | [] => reject (GeneratorHandlerError "Ops! No generator found")
  | _ => collectGenerators_loop paths
  end.

(** [load()] *)
Definition load : M unit :=
  catch
    (rows <- raw "SELECT * FROM generators;" ;; set_rows rows)
    (fun error =>
       if negb (isQueryError error) then reject error
       else Generator_create "generators").

(** How the promise of the loop of [createTables] or [dropTables]
    ends: it resolves, or it rejects with a reason, which is an error
    or is [undefined] or [null]. *)
Inductive ended : Type :=
| Through
| Stopped (e : error)
| StoppedWithNothing.

(** The inner functions [create] and [drop] of [createTables] and
    [dropTables], from the index where [todo] starts: [method] is
    called on each generator in turn, [done] is the array [created]
    (or [dropped]), which the caller still reads after a rejection.
    [todo] pairs [paths[index]] with [generators[index]]:
    [collectGenerators] returns one generator per path. A call that
    throws does so in the executor of a promise, which rejects with
    what was thrown. *)
Fixpoint each (method : MegaGenerator -> returned) (ev : string -> event)
         (what : string) (todo : list (string * MegaGenerator))
         (done : list string) (s : state) : ended * list string * state :=
  match todo with
  | [] => (Through, done, s)
  | (path, g) :: rest =>
      let s1 := record (ev path) s in
      match method g with
      | Throws e => (Stopped e, done, s1)
      | PlainValue =>
          (Stopped (GeneratorHandlerError
                      ("Invalid " ++ what ++ " method in: " ++ constructor_name g)),
           done, s1)
      | RejectsWith e => (Stopped e, done, s1)
      | RejectsWithNothing | ThrowsNothing => (StoppedWithNothing, done, s1)
      | Fulfils => each method ev what rest (done ++ [path])%list s1
      end
  end.

Definition count_of (done paths : list string) (verb : string) : string :=
  Js.toString (List.length done) ++ "/" ++ Js.toString (List.length paths)
    ++ " table" ++ sfx paths ++ " " ++ verb.

(** [createTables(paths, batch)]. The handler of a rejection of the
    loop starts by reading [e.message] for its own message. When [e] is
    [undefined] or [null] that reading throws, inside the handler:
    [add] is not called, and neither [resolve] nor [reject] of the
    promise that [createTables] returned ever is; that promise stays
    pending. *)
Definition createTables (paths : list string) (batch : Z) : M string :=
  generators <- collectGenerators paths ;;
  fun s =>
    let '(outcome, created, s1) :=
      each create EvCreate "create" (combine paths generators) [] s in
    match outcome with
    | Through =>
        let message := count_of created paths "created" in
        (add created batch ;;; resolve message) s1
    | Stopped e =>
        let message := count_of created paths "created" ++ ": " ++ message e in
        if (0 <? List.length created)%nat
        then (add created batch ;;; reject (GeneratorHandlerError message)) s1
        else reject (GeneratorHandlerError message) s1
    | StoppedWithNothing => (Pending, s1)
    end.

(** [dropTables(paths)], with the same handlers as [createTables]. *)
Definition dropTables (paths : list string) : M string :=
  generators <- collectGenerators paths ;;
  fun s =>
    let '(outcome, dropped, s1) :=
      each drop EvDrop "drop" (combine paths generators) [] s in
    match outcome with
    | Through =>
        let message := count_of dropped paths "dropped" in
        (remove dropped ;;; resolve message) s1
    | Stopped e =>
        let message := count_of dropped paths "dropped" ++ ": " ++ message e in
        if (0 <? List.length dropped)%nat
        then (remove dropped ;;; reject (GeneratorHandlerError message)) s1
        else reject (GeneratorHandlerError message) s1
    | StoppedWithNothing => (Pending, s1)
    end.

(** [beReadyToGenerate(path)] *)
Definition beReadyToGenerate (path_ : string) : M Gen :=
  load ;;;
  allPaths <- collectPaths path_ false ;;
  rows <- this_rows ;;
  let batches := map batch rows in
  let batch := (lastBatch batches + 1)%Z in
  let DBPaths := map path rows in
  let paths := filter (fun p => negb (Js.includes DBPaths p)) allPaths in
  match paths with
  | [] => reject (GeneratorHandlerError "Nothing to generate")
  | _ => resolve (mkGen paths batch)
  end.

(** [beReadyToRollback()] *)
Definition beReadyToRollback : M (list string) :=
  load ;;;
  rows <- this_rows ;;
  let batch_ := lastBatch (map batch rows) in
  let paths := rev (map path (filter (fun g => (batch g =? batch_)%Z) rows)) in
  match paths with
  | [] => reject (GeneratorHandlerError "Nothing to rollback")
  | _ => resolve paths
  end.

(** [generate(path)] *)
Definition generate (path : string) : M string :=
  if negb (isFullStr path)
  then reject (GeneratorHandlerError ("Invalid path: " ++ path))
  else
    gen <- beReadyToGenerate path ;;
    createTables (gen_paths gen) (gen_batch gen).

(** [rollback()] *)
Definition rollback : M string :=
  paths <- beReadyToRollback ;;
  dropTables paths.

(** The function [exec] inside [reset], from the index where
    [generators] starts; [dropped] counts the tables dropped so far.
    It never rejects. *)
Fixpoint exec (generators : list MegaGenerator) (dropped : nat) : M nat :=
  match generators with
  | [] =>
      catch (raw "DROP TABLE generators;" ;;; resolve dropped)
            (fun _ => resolve dropped)
  | g :: rest =>
      let name := get_table g in
      fun s =>
        match raw ("DROP TABLE " ++ name ++ ";") s with
        | (Resolved _, s1) => exec rest (S dropped) s1
        | (Rejected _, s1) => exec rest dropped s1
        | (Pending, s1) => (Pending, s1)
        end
  end.

(** [reset(path)] *)
Definition reset (path : string) : M string :=
  if negb (isFullStr path)
  then reject (GeneratorHandlerError ("Invalid path: " ++ path))
  else
    let dropTables (paths : list string) : M string :=
      match paths with
      | [] => reject (GeneratorHandlerError "Nothing to reset")
      | _ =>
          generators <- collectGenerators paths ;;
          dropped <- exec generators 0 ;;
          resolve (Js.toString dropped ++ "/" ++ Js.toString (List.length paths)
                     ++ " table" ++ sfx paths ++ " dropped")
      end in
    paths <- collectPaths path false ;;
    dropTables (rev paths).

(** [remove(name, path)] *)
Definition remove (name path : string) : M string :=
  if negb (isSnakeCase name)
  then reject (GeneratorHandlerError ("Invalid table name: " ++ name))
  else if negb (isFullStr path)
  then reject (GeneratorHandlerError ("Invalid path: " ++ path))
  else
    paths <- collectPaths path true ;;
    let unlinkPaths := filter (removal_test name) paths in
    match group (filter (fun p => negb (removal_test name p)) paths) with
    | None => reject (OtherError "Cannot read properties of null (reading '1')")
    | Some renamePaths =>
        match unlinkPaths with
        | [] => reject (GeneratorHandlerError ("No generator found for table: " ++ name))
        | _ =>
            let message :=
              Js.toString (List.length unlinkPaths) ++ " generator file"
                ++ sfx unlinkPaths ++ " removed in:" ++ nl
                ++ Js.join nl unlinkPaths in
            let reset_ : M unit :=
              match paths with
              | first :: _ =>
                  if isTsFile (Js.basename first) then resolve tt
                  else reset path ;;; resolve tt
              | [] => reject (OtherError "The path argument must be of type string")
              end in
            reset_ ;;;
            unlink unlinkPaths ;;;
            rename renamePaths ;;;
            resolve message
        end
    end.

End GeneratorHandler.

(* ------------------------------------------------------------------ *)
(** ** Vocabulary of the statements                                     *)
(* ------------------------------------------------------------------ *)

(** A failure whose reason is [undefined] or [null]. *)
Definition reasonless (r : returned) : bool :=
  match r with
  | RejectsWithNothing | ThrowsNothing => true
  | _ => false
  end.

(** The error that a generator's method makes the loop reject with,
    for a method that fails with one ([reasonless] tells the failures
    that have none). *)
Definition failure (what : string) (g : MegaGenerator) (r : returned) : error :=
  match r with
  | Throws e | RejectsWith e => e
  | PlainValue | Fulfils | RejectsWithNothing | ThrowsNothing =>
      GeneratorHandlerError ("Invalid " ++ what ++ " method in: " ++ constructor_name g)
  end.

(** How the loop ends at a generator whose method hands back [r], when
    [r] is not a promise that resolves. *)
Definition stop (what : string) (g : MegaGenerator) (r : returned)
  : GeneratorHandler.ended :=
  if reasonless r then GeneratorHandler.StoppedWithNothing
  else GeneratorHandler.Stopped (failure what g r).

(** The rows of the generators table; none when there is no table. *)
Definition table_rows (s : state) : list Row :=
  match ledger s with
  | Some rs => rs
  | None => []
  end.

(** [m] is the greatest element of [l]. *)
Definition is_max (m : Z) (l : list Z) : Prop :=
  In m l /\ Forall (fun x => (x <= m)%Z) l.

(** The batch numbers under which rows were inserted, oldest first. *)
Fixpoint assigned_batches (evs : list event) : list Z :=
  match evs with
  | [] => []
  | EvInsert i :: rest =>
      match values i with
      | (_, b) :: _ => b :: assigned_batches rest
      | [] => assigned_batches rest
      end
  | _ :: rest => assigned_batches rest
  end.

(** The generator a module exports, when it exports one. *)
Definition exported (m : module_) : option MegaGenerator :=
  match m with
  | DefaultExport g | NamedExport g => Some g
  | OtherExport | RequireFails _ => None
  end.

(** The two directions of a batch: [createTables(paths, batch)] and
    [dropTables(paths)]. *)
Inductive direction : Type :=
| Apply (batch : Z)
| Undo.

Definition run (d : direction) (paths : list string) : M string :=
  match d with
  | Apply b => GeneratorHandler.createTables paths b
  | Undo => GeneratorHandler.dropTables paths
  end.

Definition method_of (d : direction) : MegaGenerator -> returned :=
  match d with
  | Apply _ => create
  | Undo => drop
  end.

Definition call_of (d : direction) : string -> event :=
  match d with
  | Apply _ => EvCreate
  | Undo => EvDrop
  end.

Definition method_name (d : direction) : string :=
  match d with
  | Apply _ => "create"
  | Undo => "drop"
  end.

Definition past (d : direction) : string :=
  match d with
  | Apply _ => "created"
  | Undo => "dropped"
  end.

(** The query that commits the paths [done] to the table. *)
Definition commit (d : direction) (done : list string) : M unit :=
  match d with
  | Apply b => add done b
  | Undo => remove done
  end.

Definition commit_event (d : direction) (done : list string) : event :=
  match d with
  | Apply b => EvInsert (insertion_of done b)
  | Undo => EvDelete done
  end.

(** The rows of the table once [done] is committed: rows gained under
    the batch number, or the rows of these paths lost. *)
Definition committed (d : direction) (done : list string) (n : Z)
           (rs : list Row) : list Row :=
  match d with
  | Apply b => (rs ++ new_rows n (map (fun p => (p, b)) done))%list
  | Undo => filter (fun r => negb (Js.includes done (path r))) rs
  end.

(* ------------------------------------------------------------------ *)
(** ** Sample data                                                      *)
(* ------------------------------------------------------------------ *)

Module Sample.

Definition dir : string := "/app/generators".
Definition users_js : string := "/app/generators/01_generate_users_table.js".
Definition profiles_js : string := "/app/generators/02_generate_profiles_table.js".
Definition products_js : string := "/app/generators/03_generate_products_table.js".

Definition generator (table : string) (c d : returned) : MegaGenerator :=
  mkGenerator (table ++ "TableGenerator") table c d.

(** Three generators; [c] and [d] are what the methods of the second
    one do, the others resolve. *)
Definition exports (c d : returned) (p : string) : module_ :=
  if String.eqb p users_js then DefaultExport (generator "users" Fulfils Fulfils)
  else if String.eqb p profiles_js then NamedExport (generator "profiles" c d)
  else if String.eqb p products_js then DefaultExport (generator "products" Fulfils Fulfils)
  else RequireFails (OtherError ("Cannot find module " ++ p)).

(** A new handler in a world without a generators table. *)
Definition world (fs : list string) (c d : returned) : state :=
  mkState [] None 1 fs (exports c d) [] [].

(** A new handler and a table that holds [rs]. *)
Definition world_with (rs : list Row) (fs : list string) (c d : returned) : state :=
  mkState [] (Some rs) (1 + Z.of_nat (List.length rs)) fs (exports c d) [] [].

Definition three : list string := [users_js; profiles_js; products_js].

(** The TypeScript source of the first generator, and what the
    compiler leaves beside its output. *)
Definition users_ts : string := "/app/generators/01_generate_users_table.ts".
Definition users_d_ts : string := "/app/generators/01_generate_users_table.d.ts".
Definition users_js_map : string := "/app/generators/01_generate_users_table.js.map".

Definition ops : error := OtherError "Ops".

End Sample.

(** A handler that is used again: it applies the one file of the
    directory, plans a second apply (which loads the row and finds
    nothing to do), then resets the directory, which drops the
    generators table. *)
Module Reused.

Definition start : state :=
  Sample.world [Sample.users_js] Fulfils Fulfils.

Definition after_apply : state :=
  snd (GeneratorHandler.generate Sample.dir start).

Definition after_second_plan : state :=
  snd (GeneratorHandler.generate Sample.dir after_apply).

Definition after_reset : state :=
  snd (GeneratorHandler.reset Sample.dir after_second_plan).

End Reused.

(** What a command finds when it starts: the files on disk, what
    [require] yields, and how the coming calls to the database and to
    the file system will fail. *)
Record setting : Type := mkSetting {
  on_disk : list string;
  requires : string -> module_;
  failures : list (option error)
}.

(** A command builds its own handler, "new GeneratorHandler(builder)",
    over the table as the commands before it left it. *)
Definition arrive (e : setting) (s : state) : state :=
  GeneratorHandler.new
    (mkState (rows s) (ledger s) (next_id s)
             (on_disk e) (requires e) (failures e) (log s)).

(** The commands that apply and undo: [GenerateCommand] calls
    [handler.generate(path)], [RollbackCommand] calls
    [handler.rollback()]. *)
Inductive command : Type :=
| Generate (dir : string)
| Rollback.

Definition exec_command (c : command) : M string :=
  match c with
  | Generate dir => GeneratorHandler.generate dir
  | Rollback => GeneratorHandler.rollback
  end.

(** A sequence of commands, each in its setting; the results, oldest
    first, and the state after the last one. *)
Fixpoint session (cs : list (setting * command)) (s : state)
  : list (promise string) * state :=
  match cs with
  | [] => ([], s)
  | (e, c) :: rest =>
      let (r, s1) := exec_command c (arrive e s) in
      let (rs, s2) := session rest s1 in
      (r :: rs, s2)
  end.

Definition is_resolved {A} (r : promise A) : bool :=
  match r with
  | Resolved _ => true
  | Rejected _ | Pending => false
  end.

(** The numbers 1, 2, ..., n above [k]. *)
Definition batches_after (k : nat) (n : nat) : list Z :=
  map Z.of_nat (seq (S k) n).

(** The statement [reset] sends for the table of a generator. *)
Definition drop_statement (g : MegaGenerator) : event :=
  EvRaw ("DROP TABLE " ++ get_table g ++ ";").

Definition rename_event (op : string * string) : event :=
  EvRename (fst op) (snd op).

(** A call that changes the files of the directory. *)
Definition touches_disk (e : event) : bool :=
  match e with
  | EvUnlink _ | EvRename _ _ => true
  | _ => false
  end.

(** The first part of [remove(name, path)] once the paths are there:
    the reset, for a directory whose first file is not a TypeScript
    source. *)
Definition reset_step (dir : string) (paths : list string) : M unit :=
  match paths with
  | first :: _ =>
      if isTsFile (Js.basename first) then resolve tt
      else GeneratorHandler.reset dir ;;; resolve tt
  | [] => reject (OtherError "The path argument must be of type string")
  end.

(** The message of a [remove] that resolves. *)
Definition removed_message (unlinkPaths : list string) : string :=
  Js.toString (List.length unlinkPaths) ++ " generator file"
    ++ sfx unlinkPaths ++ " removed in:" ++ nl ++ Js.join nl unlinkPaths.

(** A project kept in a directory whose own name has the shape of a
    generator file. *)
Module Misnamed.

Definition dir : string := "/srv/1_generate_x_table".
Definition users_js : string := "/srv/1_generate_x_table/01_generate_users_table.js".
Definition profiles_js : string := "/srv/1_generate_x_table/02_generate_profiles_table.js".
Definition products_js : string := "/srv/1_generate_x_table/03_generate_products_table.js".

Definition exports (p : string) : module_ :=
  DefaultExport (Sample.generator "any" Fulfils Fulfils).

Definition world : state :=
  mkState [] None 1 [users_js; profiles_js; products_js] exports [] [].

End Misnamed.

(** [path.match(regex)[1] === k]. *)
Definition stem_is (k : string) (p : string) : bool :=
  match stem_match p with
  | Some k' => String.eqb k' k
  | None => false
  end.

(** The order of the sort of [group]: by the number a key denotes. *)
Definition key_le (a b : string) : Prop := (Js.parseInt a <= Js.parseInt b)%N.

(** No slash in [s]. *)
Fixpoint no_slash (s : string) : bool :=
  match s with
  | EmptyString => true
  | String c r => negb (Ascii.eqb c "/"%char) && no_slash r
  end.

(** The digits a file name starts with, and what follows them. *)
Definition number_of (name : string) : string := fst (Js.span_digits name).
Definition after_number (name : string) : string := snd (Js.span_digits name).

(** A name that [collectPaths(path, true)] lets through. *)
Definition valid_name (name : string) : bool := isFile name || isMappedFile name.

(** [Number.MAX_SAFE_INTEGER], 2^53 - 1: up to it the numbers of
    JavaScript are the integers, and sums and differences are exact. *)
Definition MAX_SAFE_INTEGER : N := 9007199254740991.

(** A text of digits that [parseInt] and [Number] read as a safe
    integer. *)
Definition safe (digits : string) : bool :=
  (Js.parseInt digits <=? MAX_SAFE_INTEGER)%N.

(** A path whose number, as [group] reads it, is a safe integer. *)
Definition safe_key (p : string) : bool :=
  match stem_match p with
  | Some k => safe k
  | None => true
  end.

(** The segments of a path, the slashes apart. *)
Fixpoint segments (s : string) : list string :=
  match s with
  | EmptyString => [EmptyString]
  | String c r =>
      if Ascii.eqb c "/"%char then EmptyString :: segments r
      else match segments r with
           | part :: parts => String c part :: parts
           | [] => [String c EmptyString]
           end
  end.

(** A segment that names a file or a directory: not empty, not ".",
    not "..". *)
Definition plain_segment (x : string) : bool :=
  negb (String.eqb x EmptyString || String.eqb x "." || String.eqb x "..").

(** A path as [path.resolve] returns it, other than the root: it
    starts with a slash and goes on with plain segments, a slash
    between them and none at the end. For such a [dir] and an entry
    [file] of it, [path.resolve(dir, file)] is [dir], a slash and
    [file]; [readdir], [unlink] and [rename] name files by such
    paths. *)
Definition resolved_path (dir : string) : bool :=
  match segments dir with
  | root :: first :: rest =>
      String.eqb root EmptyString && forallb plain_segment (first :: rest)
  | _ => false
  end.

(* ------------------------------------------------------------------ *)
(** ** More vocabulary                                                  *)
(* ------------------------------------------------------------------ *)

(** What [collectGenerators] throws for the path [p] whose module is
    [m], when [m] gives no generator. *)
Definition load_error (p : string) (m : module_) : error :=
  match m with
  | RequireFails err => GeneratorHandlerError (message err)
  | _ => GeneratorHandlerError ("Invalid generator in: " ++ p)
  end.

(** How many of the next [n] calls the schedule of failures lets
    through. *)
Fixpoint let_through (fl : list (option error)) (n : nat) {struct n} : nat :=
  match n with
  | O => O
  | S k =>
      match fl with
      | [] => n
      | None :: rest => S (let_through rest k)
      | Some _ :: rest => let_through rest k
      end
  end.

(** What follows the first dot of [s]. *)
Fixpoint after_dot (s : string) : option string :=
  match s with
  | EmptyString => None
  | String c r => if Ascii.eqb c "."%char then Some r else after_dot r
  end.

(** "SEG(_SEG)*" from the first character to the last: the table part
    that the expressions of [isFile], [isTsFile] and [isMappedFile] ask
    for between "_generate_" and "_table". *)
Definition table_part (name : string) : bool := snake false name.

(** Digits and nothing else. *)
Fixpoint digits_only (s : string) : bool :=
  match s with
  | EmptyString => true
  | String c r => Js.is_digit c && digits_only r
  end.

(* ------------------------------------------------------------------ *)
(** ** Making a generator file                                          *)
(* ------------------------------------------------------------------ *)

Module Str.

(** [String.prototype.toUpperCase] on a character of a table name:
    the letters a-z go to A-Z, a digit or an underscore stays. *)
Definition toUpperCase (c : ascii) : ascii :=
  if Js.is_lower c then ascii_of_nat (nat_of_ascii c - 32) else c.

(** [part.charAt(0).toUpperCase() + part.slice(1)] *)
Definition capitalize (part : string) : string :=
  match part with
  | EmptyString => EmptyString
  | String c r => String (toUpperCase c) r
  end.

(** [String.prototype.split] with a separator of one character. *)
Fixpoint split (sep : ascii) (s : string) : list string :=
  match s with
  | EmptyString => [EmptyString]
  | String c r =>
      if Ascii.eqb c sep then EmptyString :: split sep r
      else match split sep r with
           | part :: parts => String c part :: parts
           | [] => [String c EmptyString]
           end
  end.

(** [s.replace(/pat/g, rep)] for a pattern that is a fixed text (not
    empty) and a replacement without a dollar sign: the occurrences of
    [pat] are found from left to right, each search starting where the
    occurrence before it ends. [skip] counts the characters of the
    current occurrence that are still to be passed over. *)
Fixpoint replace_from (pat rep : string) (skip : nat) (s : string) : string :=
  match s with
  | EmptyString => EmptyString
  | String c r =>
      match skip with
      | S k => replace_from pat rep k r
      | O =>
          if String.prefix pat s
          then rep ++ replace_from pat rep (String.length pat - 1) r
          else String c (replace_from pat rep 0 r)
      end
  end.

Definition replaceAll (pat rep s : string) : string := replace_from pat rep 0 s.

End Str.

(** [Number(digits)] for a text of decimal digits, as an integer: the
    number of JavaScript as long as it is a safe integer ([safe]). *)
Definition Number (digits : string) : nat := N.to_nat (Js.parseInt digits).

(** A rejection is passed on as a [GeneratorHandlerError] with the same
    message: [.catch((e) => reject(new GeneratorHandlerError(e.message)))]. *)
Definition rewrap {A} (m : M A) : M A :=
  catch m (fun e => reject (GeneratorHandlerError (message e))).

(** [lastNumber(path)]. The entries that are not compiled artefacts
    have to be sources; the number is read in the last of them,
    [files.pop()]. When there is none, [pop()] gives [undefined] and
    reading its [match] throws; the throw happens in the callback of
    [then], so the [catch] that follows passes it on. The expression
    applied to the last entry is the one of [isFile] with a group
    around the digits. *)
Definition lastNumber (path : string) : M nat :=
  result <- rewrap (fs_readdir path) ;;
  match result with
  | [] => resolve 0%nat
  | _ =>
      let files_ := filter (fun name => negb (isMappedFile name)) result in
      match find (fun file => negb (isFile file)) files_ with
      | Some file =>
          reject (GeneratorHandlerError ("Invalid generator file: " ++ file))
      | None =>
          match rev files_ with
          | last :: _ =>
              if isFile last
              then resolve (Number (fst (Js.span_digits last)))
              else reject (GeneratorHandlerError
                             "Cannot read properties of null (reading '1')")
          | [] =>
              reject (GeneratorHandlerError
                        "Cannot read properties of undefined (reading 'match')")
          end
      end
  end.

(** [toClassName(name)] *)
Definition toClassName (name : string) : string :=
  Js.join EmptyString (map Str.capitalize (Str.split "_" name)) ++ "TableGenerator".

(** [toFileName(name, number, ext)], for a [number] below
    [Number.MAX_SAFE_INTEGER], so that [number + 1] is the next
    integer and [toString] writes it with its digits. *)
Definition toFileName (name : string) (number : nat) (ext : string) : string :=
  Js.padStart 2 "0"%char (Js.toString (number + 1))
    ++ "_generate_" ++ name ++ "_table." ++ ext.

Section Adding.

(** The two calls of [fs/promises] that the handler makes besides
    [readdir], [unlink] and [rename]: [fs.readFile(path, 'utf-8')] and
    [fs.writeFile(path, data, 'utf-8')], and [this.assets], the
    directory of the templates. *)
Variable readFile : string -> M string.
Variable writeFile : string -> string -> M unit.
Variable assets : string.

(** [GeneratorHandler.add(name, path, ts)]; [ts] is [None] when the
    argument is not a boolean. *)
Definition GeneratorHandler_add (name path : string) (ts : option bool) : M string :=
  if negb (isSnakeCase name)
  then reject (GeneratorHandlerError ("Invalid table name: " ++ name))
  else if negb (isFullStr path)
  then reject (GeneratorHandlerError ("Invalid path: " ++ path))
  else
    let ts := match ts with Some b => b | None => false end in
    let ext := if ts then "ts" else "js" in
    let layout := if ts then "ts/generator.txt" else "js/generator.txt" in
    let content := Js.resolvePath assets layout in
    template <- rewrap (readFile content) ;;
    number <- rewrap (lastNumber path) ;;
    let className := toClassName name in
    let fileName := toFileName name number ext in
    let filePath := Js.resolvePath path fileName in
    let fileContent :=
      Str.replaceAll "[fileName]" fileName
        (Str.replaceAll "[tableName]" name
           (Str.replaceAll "[className]" className template)) in
    rewrap (writeFile filePath fileContent) ;;;
    resolve ("Generator added in: " ++ filePath).

End Adding.

(** A package whose templates are in "/pkg/assets", for the samples:
    reading gives the text of the template for JavaScript, writing
    adds the file to the files of the world. *)
Module Assets.

Definition dir : string := "/pkg/assets".

Definition template : string :=
  "class [className] { table = '[tableName]' } // [fileName]".

Definition readFile (p : string) : M string :=
  fun s =>
    if String.eqb p "/pkg/assets/js/generator.txt" then (Resolved template, s)
    else (Rejected (enoent p), s).

Definition writeFile (p text : string) : M unit :=
  fun s => (Resolved tt, with_files (files s ++ [p])%list s).

End Assets.

(* ------------------------------------------------------------------ *)
(** ** The arguments of a command ([src/MegaCommand.ts])                *)
(* ------------------------------------------------------------------ *)

Module MegaCommand.

(** [{ key: string; type: string }]; the type is the one character the
    expression of [parse] reads after the bracket. *)
Record Param : Type := mkParam { key : string; type : ascii }.

(** [type Result = { arguments: Arguments; options: Options }]: an
    argument without a value has the value [undefined], here [None]. *)
Record Result : Type := mkResult {
  arguments : list (string * option string);
  options : list (string * bool)
}.

(** What a function returns, or the [MegaCommandError] it throws. *)
Inductive thrown (A : Type) : Type :=
| Returns (a : A)
| MegaCommandError (message : string).
Arguments Returns {A} a.
Arguments MegaCommandError {A} message.

(** [\s] of a regular expression, among the characters below 256. *)
Definition is_space (c : ascii) : bool :=
  let n := nat_of_ascii c in
  ((9 <=? n)%nat && (n <=? 13)%nat) || (n =? 32)%nat || (n =? 160)%nat.

(** [[a-z0-9_]] *)
Definition is_key_char (c : ascii) : bool :=
  Js.is_lower c || Js.is_digit c || Ascii.eqb c "_"%char.

(** [(\!|\?|\-)] *)
Definition is_type_char (c : ascii) : bool :=
  Ascii.eqb c "!"%char || Ascii.eqb c "?"%char || Ascii.eqb c "-"%char.

(** The longest run of characters that [f] takes at the head of [s],
    and what follows it. *)
Fixpoint span (f : ascii -> bool) (s : string) : string * string :=
  match s with
  | String c r =>
      if f c then let (run, rest) := span f r in (String c run, rest)
      else (EmptyString, s)
  | EmptyString => (EmptyString, EmptyString)
  end.

(** The expression of [parse], "<(\!|\?|\-)\s*([a-z0-9_]+)\s*>", tried
    at the head of [s]: the parameter read and the length of the match.
    Spaces and the characters of a key are different characters, so
    each run is read to its end. *)
Definition match_here (s : string) : option (Param * nat) :=
  match s with
  | String "<" (String t r) =>
      if is_type_char t then
        let (sp1, r1) := span is_space r in
        let (k, r2) := span is_key_char r1 in
        if String.eqb k EmptyString then None
        else
          let (sp2, r3) := span is_space r2 in
          match r3 with
          | String ">" _ =>
              Some (mkParam k t,
                    2 + String.length sp1 + String.length k + String.length sp2 + 1)%nat
          | _ => None
          end
      else None
  | _ => None
  end.

(** The loop "while ((match = pattern.exec(syntax)) !== null)" of
    [parse]: the expression has the flag [g], each search starts where
    the match before it ends. [skip] counts the characters of the
    current match that are still to be passed over. *)
Fixpoint parse_from (skip : nat) (s : string) : list Param :=
  match s with
  | EmptyString => []
  | String c r =>
      match skip with
      | S k => parse_from k r
      | O =>
          match match_here s with
          | Some (p, len) => p :: parse_from (len - 1) r
          | None => parse_from 0 r
          end
      end
  end.

(** [parse(syntax)] on a string. *)
Definition parse (syntax : string) : list Param := parse_from 0 syntax.

(** The loop of [validate] from the index [i] on, [params] being the
    parameters from that index; [args] is the array as the loop has
    changed it, [arguments_] and [options_] are the two arrays of
    [result]. *)
Fixpoint validate_loop (params : list Param) (i : nat) (args : list string)
         (arguments_ : list (string * option string))
         (options_ : list (string * bool)) : thrown Result :=
  match params with
  | [] => Returns (mkResult arguments_ options_)
  | p :: rest =>
      let param := key p in
      let arg := nth_error args i in
      if Ascii.eqb (type p) "-"%char then
        match arg with
        | Some a =>
            if negb (String.eqb a ("-" ++ param))
            then MegaCommandError ("Unexpected option: " ++ a)
            else validate_loop rest (S i) args arguments_
                   (options_ ++ [(param, negb (String.eqb a EmptyString))])%list
        | None =>
            validate_loop rest (S i) args arguments_
              (options_ ++ [(param, false)])%list
        end
      else if Ascii.eqb (type p) "?"%char then
        match arg with
        | Some a =>
            if String.prefix "-" a
            then validate_loop rest (S i)
                   (firstn i args ++ a :: skipn i args)%list
                   (arguments_ ++ [(param, None)])%list options_
            else validate_loop rest (S i) args
                   (arguments_ ++ [(param, Some a)])%list options_
        | None =>
            validate_loop rest (S i) args
              (arguments_ ++ [(param, None)])%list options_
        end
      else
        match arg with
        | Some a =>
            if Ascii.eqb (type p) "!"%char && negb (String.prefix "-" a)
            then validate_loop rest (S i) args
                   (arguments_ ++ [(param, Some a)])%list options_
            else MegaCommandError ("Missing required argument: " ++ param)
        | None => MegaCommandError ("Missing required argument: " ++ param)
        end
  end.

(** [validate(params, args)] *)
Definition validate (params : list Param) (args : list string) : thrown Result :=
  if (List.length params <? List.length args)%nat
  then MegaCommandError "Too many arguments provided"
  else validate_loop params 0 args [] [].

(** [argument(name)] of a command whose syntax is [syntax], run with
    the arguments [argv] ([process.argv.slice(3)]). *)
Definition argument (syntax : string) (argv : list string) (name : string)
  : thrown (option string) :=
  match validate (parse syntax) argv with
  | MegaCommandError m => MegaCommandError m
  | Returns result =>
      match find (fun a => String.eqb (fst a) name) (arguments result) with
      | Some a => Returns (snd a)
      | None => MegaCommandError ("Undefined argument name: " ++ name)
      end
  end.

(** [option(name)] *)
Definition option_ (syntax : string) (argv : list string) (name : string)
  : thrown bool :=
  match validate (parse syntax) argv with
  | MegaCommandError m => MegaCommandError m
  | Returns result =>
      match find (fun o => String.eqb (fst o) name) (options result) with
      | Some o => Returns (snd o)
      | None => MegaCommandError ("Undefined option name: " ++ name)
      end
  end.

(** A parameter as a syntax writes it: "<! key>". *)
Definition declaration (p : Param) : string :=
  String "<" (String (type p) (String " " (key p ++ ">"))).

(** A parameter that the expression of [parse] can read. *)
Definition readable (p : Param) : bool :=
  is_type_char (type p) && negb (String.eqb (key p) EmptyString)
  && String.eqb (snd (span is_key_char (key p))) EmptyString.

End MegaCommand.

(** The key of the first required parameter that the arguments leave
    without a value: its argument is missing, or starts with a dash. *)
Fixpoint first_unmet (keys args : list string) : option string :=
  match keys with
  | [] => None
  | k :: ks =>
      match args with
      | a :: rest => if String.prefix "-" a then Some k else first_unmet ks rest
      | [] => Some k
      end
  end.

(** [[A-Z]] *)
Definition is_upper (c : ascii) : bool :=
  (65 <=? nat_of_ascii c)%nat && (nat_of_ascii c <=? 90)%nat.

(** Letters and digits and nothing else. *)
Fixpoint alnum (s : string) : bool :=
  match s with
  | EmptyString => true
  | String c r => (Js.is_lower c || is_upper c || Js.is_digit c) && alnum r
  end.

(** The name of a class as the templates need it: a capital letter,
    then letters and digits. *)
Definition class_name (s : string) : bool :=
  match s with
  | String c r => is_upper c && alnum r
  | EmptyString => false
  end.

(** Small letters and digits and nothing else; a segment "SEG". *)
Fixpoint lowdig (s : string) : bool :=
  match s with
  | EmptyString => true
  | String c r => (Js.is_lower c || Js.is_digit c) && lowdig r
  end.

Definition seg (s : string) : bool :=
  match s with
  | String c r => Js.is_lower c && lowdig r
  | EmptyString => false
  end.

(* ================================================================== *)
(** * Properties                                                        *)
(* ================================================================== *)

(* ------------------------------------------------------------------ *)
(** ** Basic facts on the state and on the promises                     *)
(* ------------------------------------------------------------------ *)

Lemma record_records (e : event) (s : state) : record e s = records [e] s.
Proof. reflexivity. Qed.

Lemma records_nil (s : state) : records [] s = s.
Proof. destruct s; unfold records; simpl. now rewrite app_nil_r. Qed.

Lemma records_records (a b : list event) (s : state) :
  records b (records a s) = records (a ++ b)%list s.
Proof. unfold records; simpl. now rewrite app_assoc. Qed.

Lemma values_insertion_of (paths : list string) (b : Z) :
  values (insertion_of paths b) = map (fun p => (p, b)) paths.
Proof.
  unfold insertion_of.
  destruct paths as [|p [|q rest]]; reflexivity.
Qed.

Lemma new_rows_paths (n : Z) (paths : list string) (b : Z) :
  map path (new_rows n (map (fun p => (p, b)) paths)) = paths.
Proof.
  revert n; induction paths as [|p rest IH]; intros n; simpl; [reflexivity|].
  now rewrite IH.
Qed.

Lemma new_rows_batch (n : Z) (paths : list string) (b : Z) (r : Row) :
  In r (new_rows n (map (fun p => (p, b)) paths)) -> batch r = b.
Proof.
  revert n; induction paths as [|p rest IH]; intros n; simpl; [tauto|].
  intros [<-|H]; [reflexivity|eauto].
Qed.

Section Each.

Variable method : MegaGenerator -> returned.
Variable ev : string -> event.
Variable what : string.

(** The loop stops at the first generator whose method does not hand
    back a promise that resolves: the paths before it are done, it and
    the paths before it have been called, no other. *)
Lemma each_stops (todo : list (string * MegaGenerator)) :
  forall (done : list string) (s : state) (i : nat) (p : string) (g : MegaGenerator),
    nth_error todo i = Some (p, g) ->
    method g <> Fulfils ->
    (forall j pj gj, (j < i)%nat -> nth_error todo j = Some (pj, gj) ->
                     method gj = Fulfils) ->
    GeneratorHandler.each method ev what todo done s =
      (stop what g (method g),
       (done ++ map fst (firstn i todo))%list,
       records (map ev (map fst (firstn (S i) todo))) s).
Proof.
  induction todo as [|[q h] rest IH]; intros done s i p g Hnth Hbad Hok.
  - destruct i; discriminate.
  - destruct i as [|i].
    + injection Hnth as -> ->.
      cbn [GeneratorHandler.each firstn map fst].
      rewrite app_nil_r, record_records. unfold stop.
      destruct (method g); try reflexivity; congruence.
    + cbn [GeneratorHandler.each].
      rewrite (Hok 0%nat q h) by (simpl; (lia || reflexivity)).
      rewrite (IH (done ++ [q])%list (record (ev q) s) i p g Hnth Hbad).
      * rewrite record_records, records_records.
        cbn [firstn map fst]. rewrite <- app_assoc. reflexivity.
      * intros j pj gj Hj Hn. apply (Hok (S j) pj gj); [lia|exact Hn].
Qed.

(** When every method resolves the loop goes through the whole list. *)
Lemma each_all (todo : list (string * MegaGenerator)) :
  forall (done : list string) (s : state),
    (forall p g, In (p, g) todo -> method g = Fulfils) ->
    GeneratorHandler.each method ev what todo done s =
      (GeneratorHandler.Through, (done ++ map fst todo)%list,
       records (map ev (map fst todo)) s).
Proof.
  induction todo as [|[q h] rest IH]; intros done s Hok.
  - cbn. now rewrite app_nil_r, records_nil.
  - cbn [GeneratorHandler.each].
    rewrite (Hok q h) by now left.
    rewrite IH by (intros; apply (Hok p g); now right).
    rewrite record_records, records_records.
    cbn [map fst]. rewrite <- app_assoc. reflexivity.
Qed.

(** The loop resolves only when every method resolves. *)
Lemma each_resolved_inv (todo : list (string * MegaGenerator)) :
  forall (done done' : list string) (s s' : state),
    GeneratorHandler.each method ev what todo done s
      = (GeneratorHandler.Through, done', s') ->
    forall p g, In (p, g) todo -> method g = Fulfils.
Proof.
  induction todo as [|[q h] rest IH]; intros done done' s s' H p g Hin.
  - destruct Hin.
  - cbn [GeneratorHandler.each] in H.
    destruct (method h) eqn:Hm; try discriminate.
    destruct Hin as [Heq|Hin].
    + injection Heq as <- <-. exact Hm.
    + eapply IH; eauto.
Qed.

End Each.

(* ------------------------------------------------------------------ *)
(** ** Resolving the generators                                         *)
(* ------------------------------------------------------------------ *)

Lemma collectGenerators_loop_resolved (paths : list string) :
  forall (s s0 : state) (gs : list MegaGenerator),
    GeneratorHandler.collectGenerators_loop paths s = (Resolved gs, s0) ->
    s0 = records (map EvRequire paths) s /\ List.length gs = List.length paths.
Proof.
  induction paths as [|p rest IH]; intros s s0 gs H.
  - cbn in H. injection H as <- <-. now rewrite records_nil.
  - cbn [GeneratorHandler.collectGenerators_loop] in H.
    unfold bind at 1 in H.
    unfold GeneratorHandler.collectGenerator in H.
    destruct (modules (record (EvRequire p) s) p) eqn:Hm; try discriminate.
    + unfold bind in H.
      destruct (GeneratorHandler.collectGenerators_loop rest (record (EvRequire p) s))
        as [[gs'|e|] s1] eqn:Hrest; try discriminate.
      unfold resolve in H. injection H as <- <-.
      apply IH in Hrest as [-> Hlen].
      rewrite record_records, records_records. simpl. now rewrite Hlen.
    + unfold bind in H.
      destruct (GeneratorHandler.collectGenerators_loop rest (record (EvRequire p) s))
        as [[gs'|e|] s1] eqn:Hrest; try discriminate.
      unfold resolve in H. injection H as <- <-.
      apply IH in Hrest as [-> Hlen].
      rewrite record_records, records_records. simpl. now rewrite Hlen.
Qed.

Lemma collectGenerators_resolved (paths : list string) (s s0 : state)
      (gs : list MegaGenerator) :
  GeneratorHandler.collectGenerators paths s = (Resolved gs, s0) ->
  paths <> [] /\ s0 = records (map EvRequire paths) s /\
  List.length gs = List.length paths.
Proof.
  destruct paths as [|p rest].
  - discriminate.
  - intros H. split; [discriminate|].
    now apply collectGenerators_loop_resolved.
Qed.

Lemma nth_error_combine {A B} (l : list A) (l' : list B) :
  forall i a b, nth_error l i = Some a -> nth_error l' i = Some b ->
                nth_error (combine l l') i = Some (a, b).
Proof.
  revert l'; induction l as [|x l IH]; intros l' i a b Ha Hb.
  - destruct i; discriminate.
  - destruct l' as [|y l']; [destruct i; discriminate|].
    destruct i as [|i]; simpl in *.
    + now injection Ha as ->; injection Hb as ->.
    + now apply IH.
Qed.

Lemma nth_error_combine_inv {A B} (l : list A) (l' : list B) :
  forall i a b, nth_error (combine l l') i = Some (a, b) ->
                nth_error l i = Some a /\ nth_error l' i = Some b.
Proof.
  revert l'; induction l as [|x l IH]; intros l' i a b H.
  - destruct i; discriminate.
  - destruct l' as [|y l']; [destruct i; discriminate|].
    destruct i as [|i]; simpl in *.
    + now injection H as -> ->.
    + now apply IH.
Qed.

Lemma map_fst_firstn_combine {A B} (l : list A) (l' : list B) (n : nat) :
  List.length l = List.length l' ->
  map fst (firstn n (combine l l')) = firstn n l.
Proof.
  revert l' n; induction l as [|x l IH]; intros l' n Hlen.
  - now destruct n.
  - destruct l' as [|y l']; [discriminate|].
    destruct n as [|n]; simpl; [reflexivity|].
    f_equal. apply IH. now injection Hlen.
Qed.

Lemma map_fst_combine {A B} (l : list A) (l' : list B) :
  List.length l = List.length l' -> map fst (combine l l') = l.
Proof.
  revert l'; induction l as [|x l IH]; intros l' Hlen.
  - reflexivity.
  - destruct l' as [|y l']; [discriminate|].
    simpl. f_equal. apply IH. now injection Hlen.
Qed.

(** The insert of [add] on a state whose next call goes through. *)
Lemma add_commits (paths : list string) (b : Z) (s : state) (rs : list Row) :
  ledger s = Some rs ->
  hd None (faults s) = None ->
  exists s',
    add paths b s = (Resolved tt, s') /\
    ledger s' = Some (rs ++ new_rows (next_id s) (map (fun p => (p, b)) paths))%list /\
    log s' = (log s ++ [EvInsert (insertion_of paths b)])%list /\
    rows s' = rows s /\ files s' = files s /\ modules s' = modules s /\
    next_id s' = (next_id s + Z.of_nat (List.length paths))%Z /\
    faults s' = tl (faults s).
Proof.
  intros Hl Hf.
  unfold add, exec_insert, call.
  rewrite values_insertion_of.
  destruct s as [r l n f m fl lg]; simpl in *. subst l.
  destruct fl as [|[e|] rest]; simpl in *; try discriminate;
    eexists; (split; [reflexivity|]); simpl; rewrite ?length_map; auto 10.
Qed.

(** Whatever the insert of [add] answers, it is the one call made. *)
Lemma add_log (paths : list string) (b : Z) (s : state) :
  log (snd (add paths b s)) = (log s ++ [EvInsert (insertion_of paths b)])%list /\
  rows (snd (add paths b s)) = rows s /\
  files (snd (add paths b s)) = files s.
Proof.
  unfold add, exec_insert, call.
  destruct s as [r l n f m fl lg]; simpl.
  destruct fl as [|[e|] rest]; simpl; destruct l; simpl; auto.
Qed.

(* ------------------------------------------------------------------ *)
(** ** Applying and reverting a list of paths                           *)
(* ------------------------------------------------------------------ *)

(** [createTables] once the generators are there: the loop, then the
    commit of what the loop has done. *)
Lemma createTables_run (paths : list string) (b : Z) (s s0 : state)
      (gs : list MegaGenerator) :
  GeneratorHandler.collectGenerators paths s = (Resolved gs, s0) ->
  GeneratorHandler.createTables paths b s =
    let '(outcome, created, s1) :=
      GeneratorHandler.each create EvCreate "create" (combine paths gs) [] s0 in
    match outcome with
    | GeneratorHandler.Through =>
        (add created b ;;;
         resolve (GeneratorHandler.count_of created paths "created")) s1
    | GeneratorHandler.Stopped e =>
        if (0 <? List.length created)%nat
        then (add created b ;;;
              reject (GeneratorHandlerError
                        (GeneratorHandler.count_of created paths "created"
                           ++ ": " ++ message e))) s1
        else reject (GeneratorHandlerError
                       (GeneratorHandler.count_of created paths "created"
                          ++ ": " ++ message e)) s1
    | GeneratorHandler.StoppedWithNothing => (Pending, s1)
    end.
Proof.
  intros H. unfold GeneratorHandler.createTables, bind at 1. now rewrite H.
Qed.

Lemma dropTables_run (paths : list string) (s s0 : state)
      (gs : list MegaGenerator) :
  GeneratorHandler.collectGenerators paths s = (Resolved gs, s0) ->
  GeneratorHandler.dropTables paths s =
    let '(outcome, dropped, s1) :=
      GeneratorHandler.each drop EvDrop "drop" (combine paths gs) [] s0 in
    match outcome with
    | GeneratorHandler.Through =>
        (remove dropped ;;;
         resolve (GeneratorHandler.count_of dropped paths "dropped")) s1
    | GeneratorHandler.Stopped e =>
        if (0 <? List.length dropped)%nat
        then (remove dropped ;;;
              reject (GeneratorHandlerError
                        (GeneratorHandler.count_of dropped paths "dropped"
                           ++ ": " ++ message e))) s1
        else reject (GeneratorHandlerError
                       (GeneratorHandler.count_of dropped paths "dropped"
                          ++ ": " ++ message e)) s1
    | GeneratorHandler.StoppedWithNothing => (Pending, s1)
    end.
Proof.
  intros H. unfold GeneratorHandler.dropTables, bind at 1. now rewrite H.
Qed.

(** Where the loop of [createTables] or [dropTables] stops when the
    generator at index [i] is the first whose method fails. *)
Lemma each_stops_at (method : MegaGenerator -> returned) (ev : string -> event)
      (what : string) (paths : list string) (gs : list MegaGenerator)
      (s : state) (i : nat) (g : MegaGenerator) :
  List.length gs = List.length paths ->
  nth_error gs i = Some g ->
  method g <> Fulfils ->
  (forall j gj, (j < i)%nat -> nth_error gs j = Some gj -> method gj = Fulfils) ->
  GeneratorHandler.each method ev what (combine paths gs) [] s =
    (stop what g (method g), firstn i paths,
     records (map ev (firstn (S i) paths)) s).
Proof.
  intros Hlen Hg Hbad Hok.
  assert (Hi : (i < List.length paths)%nat).
  { rewrite <- Hlen. apply nth_error_Some. congruence. }
  destruct (nth_error paths i) as [p|] eqn:Hp;
    [|apply nth_error_None in Hp; lia].
  rewrite (@each_stops method ev what (combine paths gs) [] s i p g).
  - now rewrite !map_fst_firstn_combine by (symmetry; exact Hlen).
  - now apply nth_error_combine.
  - exact Hbad.
  - intros j pj gj Hj Hn. apply nth_error_combine_inv in Hn as [_ Hn]. eauto.
Qed.

(** X29. Partial failure of an apply, for a failure that has a reason
    other than [undefined] and [null] (an [Error], or any value a
    [message] can be read of): when the [create()] of the generator at
    index [i] is the first that fails, and fails so, [create()] has
    been called for the paths up to index [i] and for no other; the
    paths before [i], and only they, are inserted under the batch
    number before the call rejects (one INSERT, made after the failing
    [create()], and none when [i] is 0); when that INSERT goes through,
    the table has gained exactly the rows of that prefix, so none for the
    failing path nor for the paths after it. *)
Theorem createTables_commits_applied_prefix :
  forall (paths : list string) (b : Z) (s s0 : state)
         (gs : list MegaGenerator) (i : nat) (g : MegaGenerator),
    GeneratorHandler.collectGenerators paths s = (Resolved gs, s0) ->
    nth_error gs i = Some g ->
    create g <> Fulfils ->
    reasonless (create g) = false ->
    (forall j gj, (j < i)%nat -> nth_error gs j = Some gj -> create gj = Fulfils) ->
    let applied := firstn i paths in
    let attempted := firstn (S i) paths in
    exists (e : error) (s' : state),
      GeneratorHandler.createTables paths b s = (Rejected e, s') /\
      log s' = (log s ++ map EvRequire paths ++ map EvCreate attempted ++
                match applied with
                | [] => []
                | _ => [EvInsert (insertion_of applied b)]
                end)%list /\
      (ledger s' = ledger s \/
       exists rs, ledger s = Some rs /\
         ledger s' = Some (rs ++ new_rows (next_id s)
                                   (map (fun p => (p, b)) applied))%list) /\
      (forall rs, applied <> [] -> ledger s = Some rs ->
                  hd None (faults s) = None ->
                  ledger s' = Some (rs ++ new_rows (next_id s)
                                            (map (fun p => (p, b)) applied))%list).
Proof.
  intros paths b s s0 gs i g Hgs Hg Hbad Hreason Hok applied attempted.
  destruct (collectGenerators_resolved _ _ _ _ Hgs) as (Hne & -> & Hlen).
  rewrite (createTables_run _ b _ _ _ Hgs).
  rewrite (each_stops_at _ EvCreate "create" _ _ (records (map EvRequire paths) s)
             _ _ Hlen Hg Hbad Hok).
  unfold stop. rewrite Hreason.
  fold applied; fold attempted.
  destruct applied as [|a rest] eqn:Happ.
  - cbn [List.length Nat.ltb Nat.leb reject].
    eexists; eexists. split; [reflexivity|].
    unfold records; cbn. rewrite app_nil_r, <- app_assoc.
    repeat split; auto. intros rs Hc; congruence.
  - cbn [List.length Nat.ltb Nat.leb].
    set (s1 := records (map EvCreate attempted) (records (map EvRequire paths) s)).
    unfold bind.
    assert (Hsettles : fst (add (a :: rest) b s1) <> Pending).
    { unfold add, exec_insert, call.
      destruct (faults (record _ s1)) as [|[e0|] fl];
        try destruct (ledger _); discriminate. }
    destruct (add (a :: rest) b s1) as [[[]|e'|] s2] eqn:Hadd;
      [| |now elim Hsettles].
    + eexists; eexists. split; [reflexivity|].
      pose proof (add_log (a :: rest) b s1) as (Hlog & _ & _).
      rewrite Hadd in Hlog; cbn [snd] in Hlog.
      split; [rewrite Hlog; unfold s1, records; cbn; now rewrite <- !app_assoc|].
      assert (Hcases :
                ledger s2 = ledger s \/
                exists rs, ledger s = Some rs /\
                  ledger s2 = Some (rs ++ new_rows (next_id s)
                                      (map (fun p => (p, b)) (a :: rest)))%list).
      { revert Hadd. unfold add, exec_insert, call.
        rewrite values_insertion_of.
        unfold s1, records; cbn.
        destruct (faults s) as [|[e0|] fl]; cbn;
          destruct (ledger s) as [rs|]; cbn; intros H;
            try discriminate; injection H as <-; cbn; eauto. }
      split; [exact Hcases|].
      intros rs _ Hl Hf.
      destruct (@add_commits (a :: rest) b s1 rs Hl Hf) as (s3 & Heq & Hled & _).
      rewrite Hadd in Heq. injection Heq as <-. exact Hled.
    + unfold reject. eexists; eexists. split; [reflexivity|].
      pose proof (add_log (a :: rest) b s1) as (Hlog & _ & _).
      rewrite Hadd in Hlog; cbn [snd] in Hlog.
      split; [rewrite Hlog; unfold s1, records; cbn; now rewrite <- !app_assoc|].
      assert (Hsame : ledger s2 = ledger s).
      { revert Hadd. unfold add, exec_insert, call.
        unfold s1, records; cbn.
        destruct (faults s) as [|[e0|] fl]; cbn;
          destruct (ledger s) as [rs|]; cbn; intros H;
            try discriminate; injection H as <- <-; reflexivity. }
      split; [now left|].
      intros rs _ Hl Hf.
      destruct (@add_commits (a :: rest) b s1 rs Hl Hf) as (s3 & Heq & _).
      rewrite Hadd in Heq. discriminate.
Qed.

(** The second of three generators rejects: the first path is inserted
    under batch 1, the third one is never tried. *)
Lemma createTables_commits_applied_prefix_witness :
  let s := Sample.world_with [] Sample.three (RejectsWith Sample.ops) Fulfils in
  exists (e : error) (s' : state),
    GeneratorHandler.createTables Sample.three 1 s = (Rejected e, s') /\
    log s' = (map EvRequire Sample.three ++
              [EvCreate Sample.users_js; EvCreate Sample.profiles_js;
               EvInsert (InsertRow (Sample.users_js, 1%Z))])%list /\
    ledger s' = Some [mkRow 1 1 Sample.users_js].
Proof.
  intros s.
  destruct (createTables_commits_applied_prefix
              Sample.three 1 s (records (map EvRequire Sample.three) s)
              [Sample.generator "users" Fulfils Fulfils;
               Sample.generator "profiles" (RejectsWith Sample.ops) Fulfils;
               Sample.generator "products" Fulfils Fulfils]
              1 (Sample.generator "profiles" (RejectsWith Sample.ops) Fulfils))
    as (e & s' & Hrun & Hlog & _ & Hledger).
  - reflexivity.
  - reflexivity.
  - discriminate.
  - reflexivity.
  - intros [|j] gj Hj Hn; [injection Hn as <-; reflexivity|lia].
  - exists e, s'. split; [exact Hrun|]. split; [exact Hlog|].
    apply (Hledger []); [discriminate|reflexivity|reflexivity].
Defined.

(** Both directions are one loop followed by one commit. *)
Lemma run_unfold (d : direction) (paths : list string) (s s0 : state)
      (gs : list MegaGenerator) :
  GeneratorHandler.collectGenerators paths s = (Resolved gs, s0) ->
  run d paths s =
    let '(outcome, done, s1) :=
      GeneratorHandler.each (method_of d) (call_of d) (method_name d)
                            (combine paths gs) [] s0 in
    match outcome with
    | GeneratorHandler.Through =>
        (commit d done ;;;
         resolve (GeneratorHandler.count_of done paths (past d))) s1
    | GeneratorHandler.Stopped e =>
        if (0 <? List.length done)%nat
        then (commit d done ;;;
              reject (GeneratorHandlerError
                        (GeneratorHandler.count_of done paths (past d)
                           ++ ": " ++ message e))) s1
        else reject (GeneratorHandlerError
                       (GeneratorHandler.count_of done paths (past d)
                          ++ ": " ++ message e)) s1
    | GeneratorHandler.StoppedWithNothing => (Pending, s1)
    end.
Proof.
  intros H. destruct d as [b|]; cbn [run method_of call_of method_name past commit].
  - exact (createTables_run paths b s s0 gs H).
  - exact (dropTables_run paths s s0 gs H).
Qed.

(** The commit is one call; it either goes through and changes the rows
    of the table as [committed] says, or fails and leaves the table as
    it was. *)
Lemma commit_effect (d : direction) (done : list string) (s : state) :
  log (snd (commit d done s)) = (log s ++ [commit_event d done])%list /\
  rows (snd (commit d done s)) = rows s /\
  files (snd (commit d done s)) = files s /\
  modules (snd (commit d done s)) = modules s /\
  ((fst (commit d done s) = Resolved tt /\
    exists rs, ledger s = Some rs /\
               ledger (snd (commit d done s)) =
                 Some (committed d done (next_id s) rs)) \/
   ((exists e, fst (commit d done s) = Rejected e) /\
    ledger (snd (commit d done s)) = ledger s /\
    next_id (snd (commit d done s)) = next_id s)) /\
  (forall rs, ledger s = Some rs -> hd None (faults s) = None ->
              fst (commit d done s) = Resolved tt).
Proof.
  destruct s as [r l n f m fl lg].
  destruct d as [b|]; cbn [commit commit_event committed];
    unfold add, remove, exec_insert, exec_delete, call;
    rewrite ?values_insertion_of; cbn;
    destruct fl as [|[e|] rest]; cbn; destruct l as [rs|]; cbn;
      repeat split; eauto 8; try (intros ? ? ?; discriminate);
        try (intros ? ?; discriminate).
Qed.

(** The generators are the exports of the modules of the paths, one
    for one. *)
Lemma collectGenerators_loop_exports (paths : list string) :
  forall (s s0 : state) (gs : list MegaGenerator),
    GeneratorHandler.collectGenerators_loop paths s = (Resolved gs, s0) ->
    Forall2 (fun p g => exported (modules s p) = Some g) paths gs.
Proof.
  induction paths as [|p rest IH]; intros s s0 gs H.
  - cbn in H. injection H as <- <-. constructor.
  - cbn [GeneratorHandler.collectGenerators_loop] in H.
    unfold bind at 1 in H.
    unfold GeneratorHandler.collectGenerator in H.
    change (modules (record (EvRequire p) s) p) with (modules s p) in H.
    destruct (modules s p) eqn:Hm; try discriminate;
      unfold bind in H;
      destruct (GeneratorHandler.collectGenerators_loop rest (record (EvRequire p) s))
        as [[gs'|e|] s1] eqn:Hrest; try discriminate;
      unfold resolve in H; injection H as <- <-;
      (constructor; [now rewrite Hm|exact (IH _ _ _ Hrest)]).
Qed.



Lemma includes_In (l : list string) (x : string) :
  Js.includes l x = true <-> In x l.
Proof.
  unfold Js.includes. rewrite existsb_exists. split.
  - intros (y & Hy & E). apply String.eqb_eq in E. now subst.
  - intros H. exists x. split; [exact H|apply String.eqb_refl].
Qed.

Lemma includes_false (l : list string) (x : string) :
  Js.includes l x = false <-> ~ In x l.
Proof.
  rewrite <- includes_In. destruct (Js.includes l x); split; congruence.
Qed.



(** Where a batch is left when the first method that fails does so
    without a reason: after the calls up to [i], with no commit, its
    promise pending. *)
Lemma run_hangs (d : direction) (paths : list string) (s s0 : state)
      (gs : list MegaGenerator) (i : nat) (g : MegaGenerator) :
  GeneratorHandler.collectGenerators paths s = (Resolved gs, s0) ->
  nth_error gs i = Some g ->
  reasonless (method_of d g) = true ->
  (forall j gj, (j < i)%nat -> nth_error gs j = Some gj ->
                method_of d gj = Fulfils) ->
  run d paths s =
    (Pending,
     records (map EvRequire paths ++ map (call_of d) (firstn (S i) paths))%list s).
Proof.
  intros Hgs Hg Hreason Hok.
  assert (Hbad : method_of d g <> Fulfils)
    by (intros E; rewrite E in Hreason; discriminate).
  destruct (collectGenerators_resolved _ _ _ _ Hgs) as (Hne & -> & Hlen).
  rewrite (run_unfold d _ _ _ _ Hgs).
  rewrite (each_stops_at _ (call_of d) (method_name d) _ _
             (records (map EvRequire paths) s) _ _ Hlen Hg Hbad Hok).
  unfold stop. rewrite Hreason.
  now rewrite records_records.
Qed.

(** C1. The claim holds for every failure that has a reason (the
    theorem before this one); it fails for a [create()]
    that rejects, or throws, without one. Three generators, the second
    of which hands back [Promise.reject()]: the first table is made,
    the second [create()] is called, the third is not; then the handler
    of the rejection throws at [e.message], so that the path of the
    first table is not inserted (the table of the generators stays
    empty) and the promise of [createTables] stays pending: no error is
    surfaced. With a reason, [new Error('Ops')], the same batch inserts
    the first path and rejects. *)
Theorem createTables_loses_prefix_on_rejection_without_reason :
  let bare := Sample.world_with [] Sample.three RejectsWithNothing Fulfils in
  let ops := Sample.world_with [] Sample.three (RejectsWith Sample.ops) Fulfils in
  fst (GeneratorHandler.createTables Sample.three 1 bare) = Pending /\
  log (snd (GeneratorHandler.createTables Sample.three 1 bare)) =
    (map EvRequire Sample.three ++
     [EvCreate Sample.users_js; EvCreate Sample.profiles_js])%list /\
  ledger (snd (GeneratorHandler.createTables Sample.three 1 bare)) = Some [] /\
  fst (GeneratorHandler.createTables Sample.three 1 ops) =
    Rejected (GeneratorHandlerError "1/3 tables created: Ops") /\
  ledger (snd (GeneratorHandler.createTables Sample.three 1 ops)) =
    Some [mkRow 1 1 Sample.users_js].
Proof.
  repeat split; vm_compute; reflexivity.
Qed.

(** X30. A failure without a reason leaves the batch where it is. When
    the first [create()] (for an undo, [drop()]) that fails rejects or
    throws with [undefined] or [null], the methods of the paths up to
    that one have been called and no other, no query is sent for the
    paths done before it: the table is as it was; and the promise of
    the batch, hence the one of [generate] or [rollback], never
    settles. *)
Theorem failure_without_reason_leaves_batch_pending :
  forall (d : direction) (paths : list string) (s s0 : state)
         (gs : list MegaGenerator) (i : nat) (g : MegaGenerator),
    GeneratorHandler.collectGenerators paths s = (Resolved gs, s0) ->
    nth_error gs i = Some g ->
    reasonless (method_of d g) = true ->
    (forall j gj, (j < i)%nat -> nth_error gs j = Some gj ->
                  method_of d gj = Fulfils) ->
    exists s' : state,
      run d paths s = (Pending, s') /\
      log s' = (log s ++ map EvRequire paths ++
                map (call_of d) (firstn (S i) paths))%list /\
      ledger s' = ledger s /\ rows s' = rows s /\ files s' = files s /\
      forall (A : Type) (k : string -> M A), fst (bind (run d paths) k s) = Pending.
Proof.
  intros d paths s s0 gs i g Hgs Hg Hreason Hok.
  pose proof (run_hangs d _ _ _ _ _ _ Hgs Hg Hreason Hok) as Hrun.
  eexists. split; [exact Hrun|].
  split; [unfold records; cbn; now rewrite app_assoc|].
  repeat split.
  intros A k. unfold bind. now rewrite Hrun.
Qed.

(** An undo of the three tables whose second [drop()] rejects without a
    reason: the table of the third file is dropped, its row is still in
    the table, and the call never settles. *)
Lemma failure_without_reason_leaves_batch_pending_witness :
  let rs := [mkRow 1 1 Sample.users_js; mkRow 2 1 Sample.profiles_js;
             mkRow 3 1 Sample.products_js] in
  let s := Sample.world_with rs Sample.three Fulfils RejectsWithNothing in
  exists s' : state,
    run Undo (rev Sample.three) s = (Pending, s') /\
    log s' = (map EvRequire (rev Sample.three) ++
              [EvDrop Sample.products_js; EvDrop Sample.profiles_js])%list /\
    ledger s' = Some rs.
Proof.
  intros rs s.
  destruct (failure_without_reason_leaves_batch_pending
              Undo (rev Sample.three) s
              (records (map EvRequire (rev Sample.three)) s)
              [Sample.generator "products" Fulfils Fulfils;
               Sample.generator "profiles" Fulfils RejectsWithNothing;
               Sample.generator "users" Fulfils Fulfils]
              1 (Sample.generator "profiles" Fulfils RejectsWithNothing))
    as (s' & Hrun & Hlog & Hled & _).
  - reflexivity.
  - reflexivity.
  - reflexivity.
  - intros [|j] gj Hj Hn; [injection Hn as <-; reflexivity|lia].
  - exists s'. split; [exact Hrun|]. split; [exact Hlog|exact Hled].
Defined.



(* ------------------------------------------------------------------ *)
(** ** Loading the table                                                *)
(* ------------------------------------------------------------------ *)

(** The columns [Generator.create()] asks for. *)
Lemma Generator_create_columns (table : string) (s : state) :
  Generator_create table s =
    schema table
      [ mkColumn "id" true NoType false false;
        mkColumn "path" false Text false true;
        mkColumn "batch" false SmallInt true true ] s.
Proof. reflexivity. Qed.

(** A [load()] that resolves has either read the rows of the table, or
    found no table and made an empty one, leaving the rows the handler
    held where they were. *)
Lemma load_resolved (s s' : state) :
  GeneratorHandler.load s = (Resolved tt, s') ->
  files s' = files s /\ modules s' = modules s /\
  ((exists rs, ledger s = Some rs /\ rows s' = rs /\
               ledger s' = Some rs /\ next_id s' = next_id s /\
               log s' = (log s ++ [EvRaw "SELECT * FROM generators;"])%list /\
               faults s' = tl (faults s))
   \/
   (rows s' = rows s /\ ledger s = None /\ ledger s' = Some [] /\
    next_id s' = 1%Z /\ faults s' = tl (tl (faults s)) /\
    exists cs, log s' = (log s ++ [EvRaw "SELECT * FROM generators;";
                                   EvSchema "generators" cs])%list)).
Proof.
  destruct s as [r l n f m fl lg].
  unfold GeneratorHandler.load, catch, bind, raw, call,
    GeneratorHandler.set_rows, Generator_create, schema, call, reject.
  cbn.
  destruct fl as [|[e|] fl]; cbn.
  - destruct l as [rs|]; cbn.
    + intros H; injection H as <-; cbn. repeat split; auto.
      left. exists rs. repeat split; auto.
    + intros H; injection H as <-; cbn. repeat split; auto.
      right. repeat split; auto. eexists. now rewrite <- app_assoc.
  - destruct e as [q|q|q]; cbn; try discriminate.
    destruct fl as [|[e2|] fl]; cbn; try discriminate;
      destruct l as [rs|]; cbn; try discriminate;
        intros H; injection H as <-; cbn; repeat split; auto;
          right; repeat split; auto; eexists; now rewrite <- app_assoc.
  - destruct l as [rs|]; cbn.
    + intros H; injection H as <-; cbn. repeat split; auto.
      left. exists rs. repeat split; auto.
    + destruct fl as [|[e2|] fl]; cbn; try discriminate;
        intros H; injection H as <-; cbn; repeat split; auto;
          right; repeat split; auto; eexists; now rewrite <- app_assoc.
Qed.

(** After a [load()] that resolves, a handler that held no rows of a
    table that is gone holds the rows of the table. *)
Lemma load_in_sync (s s' : state) :
  (ledger s = None -> rows s = []) ->
  GeneratorHandler.load s = (Resolved tt, s') ->
  rows s' = table_rows s /\ ledger s' = Some (table_rows s) /\
  files s' = files s /\ modules s' = modules s.
Proof.
  intros Hsync H.
  destruct (load_resolved _ _ H) as (Hf & Hm & [(rs & Hl & Hr & Hl' & _)|(Hr & Hl & Hl' & _)]);
    unfold table_rows; rewrite Hl.
  - now rewrite Hr, Hl'.
  - rewrite Hr, Hl', (Hsync Hl). auto.
Qed.

(** [collectPaths] reads the directory and nothing else. *)
Lemma collectPaths_frame (dir : string) (m : bool) (s : state) :
  rows (snd (GeneratorHandler.collectPaths dir m s)) = rows s /\
  ledger (snd (GeneratorHandler.collectPaths dir m s)) = ledger s /\
  next_id (snd (GeneratorHandler.collectPaths dir m s)) = next_id s /\
  files (snd (GeneratorHandler.collectPaths dir m s)) = files s /\
  modules (snd (GeneratorHandler.collectPaths dir m s)) = modules s /\
  log (snd (GeneratorHandler.collectPaths dir m s)) = (log s ++ [EvReaddir dir])%list /\
  faults (snd (GeneratorHandler.collectPaths dir m s)) = tl (faults s).
Proof.
  destruct s as [r l n f md fl lg].
  unfold GeneratorHandler.collectPaths, catch, bind, fs_readdir, call, reject, resolve.
  cbn.
  destruct fl as [|[e|] fl]; cbn; try (repeat split; reflexivity).
  - destruct (map Js.basename _) as [|x xs]; cbn; [repeat split; reflexivity|].
    destruct (find _ _); cbn; repeat split; reflexivity.
  - destruct (map Js.basename _) as [|x xs]; cbn; [repeat split; reflexivity|].
    destruct (find _ _); cbn; repeat split; reflexivity.
Qed.

(* ------------------------------------------------------------------ *)
(** ** The last batch                                                   *)
(* ------------------------------------------------------------------ *)

Lemma fold_last (bs : list Z) :
  forall a : Z,
    let m := fold_left (fun lastBatch batch =>
                          if (batch >? lastBatch)%Z then batch else lastBatch)
                       bs a in
    (a <= m)%Z /\ Forall (fun x => (x <= m)%Z) bs /\ (m = a \/ In m bs).
Proof.
  induction bs as [|b bs IH]; intros a; cbn.
  - repeat split; [lia|constructor|now left].
  - destruct (Z.gtb_spec b a) as [Hgt|Hle].
    + destruct (IH b) as (H1 & H2 & H3). repeat split.
      * lia.
      * constructor; [exact H1|exact H2].
      * destruct H3 as [->|H3]; right; [now left|now right].
    + destruct (IH a) as (H1 & H2 & H3). repeat split.
      * exact H1.
      * constructor; [lia|exact H2].
      * destruct H3 as [->|H3]; [now left|right; now right].
Qed.

(** [lastBatch] is at least 0 and at least every batch. *)
Lemma lastBatch_bounds (bs : list Z) :
  (0 <= lastBatch bs)%Z /\ Forall (fun x => (x <= lastBatch bs)%Z) bs.
Proof.
  destruct bs as [|b bs]; [split; [cbn; lia|constructor]|].
  unfold lastBatch.
  destruct (fold_last (b :: bs) 0) as (H1 & H2 & _).
  split; assumption.
Qed.

(** On batches that are not negative (the column is unsigned),
    [lastBatch] is the greatest of them. *)
Lemma lastBatch_is_max (bs : list Z) :
  bs <> [] -> Forall (fun x => (0 <= x)%Z) bs -> is_max (lastBatch bs) bs.
Proof.
  intros Hne Hpos.
  destruct bs as [|b bs]; [congruence|].
  unfold lastBatch, is_max.
  destruct (fold_last (b :: bs) 0) as (H1 & H2 & H3).
  split; [|exact H2].
  destruct H3 as [H3|H3]; [|exact H3].
  rewrite H3 in *.
  inversion Hpos as [|? ? Hb _]; subst. inversion H2 as [|? ? Hb' _]; subst.
  left. lia.
Qed.

(* ------------------------------------------------------------------ *)
(** ** Reading a directory                                              *)
(* ------------------------------------------------------------------ *)

Lemma snake_then_after_dot (accept : string -> bool) (t : string) :
  forall b : bool,
    snake_then accept b t = true ->
    exists rest, accept rest = true /\ after_dot t = after_dot rest.
Proof.
  induction t as [|c t IH]; intros b H; [discriminate|].
  cbn [snake_then] in H. cbn [after_dot].
  destruct b.
  - destruct (Js.is_lower c || Js.is_digit c) eqn:Hc.
    + destruct (Ascii.eqb_spec c ".") as [->|_]; [discriminate|]. eauto.
    + destruct (Ascii.eqb_spec c "_") as [->|_]; [|discriminate]. cbn.
      apply orb_true_iff in H as [H|H]; eauto.
  - destruct (Js.is_lower c) eqn:Hc; [|discriminate].
    destruct (Ascii.eqb_spec c ".") as [->|_]; [discriminate|]. eauto.
Qed.

(** A name is not both a source file and a compiled artefact. *)
Lemma isFile_not_mapped (name : string) :
  isFile name = true -> isMappedFile name = false.
Proof.
  unfold isFile, isMappedFile, generator_name.
  destruct (Js.span_digits name) as [ds r].
  destruct (negb (String.eqb ds EmptyString)); [|reflexivity].
  destruct (Js.drop_prefix "_generate_" r) as [t|]; [|discriminate].
  cbn [andb]. intros Hf.
  destruct (snake_then (fun x => existsb (String.eqb x) ["table.js.map"; "table.d.ts"])
                       false t) eqn:Hm; [exfalso|reflexivity].
  apply snake_then_after_dot in Hf as (r1 & H1 & E1).
  apply snake_then_after_dot in Hm as (r2 & H2 & E2).
  rewrite E1 in E2. clear E1.
  cbn in H1, H2.
  repeat match goal with
         | H : (_ || _) = true |- _ => apply orb_true_iff in H as [H|H]
         | H : String.eqb _ _ = true |- _ => apply String.eqb_eq in H; subst
         | H : false = true |- _ => discriminate H
         end; discriminate.
Qed.

(** The first name of a list that a test rejects. *)
Lemma find_first_split {A} (f : A -> bool) (l : list A) (x : A) :
  find f l = Some x ->
  exists l1 l2, l = (l1 ++ x :: l2)%list /\ f x = true /\
                Forall (fun y => f y = false) l1.
Proof.
  induction l as [|a l IH]; [discriminate|]. cbn.
  destruct (f a) eqn:Ha.
  - intros H; injection H as <-. exists [], l. repeat split; auto.
  - intros H. destruct (IH H) as (l1 & l2 & -> & Hx & Hall).
    exists (a :: l1), l2. repeat split; auto.
Qed.

(** [collectPaths] once the directory is read. *)
Lemma collectPaths_of_listing (dir : string) (m : bool) (s s1 : state)
      (r : promise (list string)) :
  fs_readdir dir s = (r, s1) ->
  GeneratorHandler.collectPaths dir m s =
    match r with
    | Pending => (Pending, s1)
    | Rejected e => (Rejected (GeneratorHandlerError (message e)), s1)
    | Resolved [] => (Resolved [], s1)
    | Resolved names =>
        let files_ :=
          if m then names
          else filter (fun name => negb (isMappedFile name)) names in
        match find (fun file => negb (isFile file) && negb (m && isMappedFile file))
                   files_ with
        | Some file =>
            (Rejected (GeneratorHandlerError ("Invalid generator file: " ++ file)), s1)
        | None => (Resolved (map (Js.resolvePath dir) files_), s1)
        end
    end.
Proof.
  intros H. unfold GeneratorHandler.collectPaths, catch, bind at 1. rewrite H.
  destruct r as [[|x xs]|e|]; try reflexivity.
  cbv zeta. destruct (find _ _); reflexivity.
Qed.

Lemma find_same {A} (f g : A -> bool) (l : list A) :
  (forall x, f x = g x) -> find f l = find g l.
Proof.
  intros H. induction l as [|a l IH]; [reflexivity|].
  cbn. now rewrite H, IH.
Qed.

Lemma find_invalid_with_maps (names : list string) :
  find (fun file => negb (isFile file) && negb (true && isMappedFile file)) names =
  find (fun n => negb (valid_name n)) names.
Proof.
  apply find_same. intros n. unfold valid_name. cbn [andb].
  now rewrite negb_orb.
Qed.

Lemma find_invalid_without_maps (names : list string) :
  find (fun file => negb (isFile file) && negb (false && isMappedFile file))
       (filter (fun name => negb (isMappedFile name)) names) =
  find (fun n => negb (valid_name n)) names.
Proof.
  induction names as [|n ns IH]; [reflexivity|]. cbn [find filter].
  assert (Hv : valid_name n = isFile n || isMappedFile n) by reflexivity.
  destruct (isMappedFile n) eqn:Hm; cbn [negb].
  - rewrite Hv, orb_true_r. cbn [negb]. exact IH.
  - cbn [find]. rewrite Hv, orb_false_r, IH. cbn [andb negb].
    now rewrite andb_true_r.
Qed.

Lemma sources_of_valid (names : list string) :
  Forall (fun n => valid_name n = true) names ->
  filter (fun name => negb (isMappedFile name)) names = filter isFile names.
Proof.
  intros H. apply filter_ext_in. intros n Hn.
  rewrite Forall_forall in H. specialize (H n Hn). unfold valid_name in H.
  destruct (isFile n) eqn:Hf.
  - now rewrite (isFile_not_mapped _ Hf).
  - cbn in H. now rewrite H.
Qed.

(** The sources of a directory whose entries are all sources or
    compiled artefacts, as [collectPaths(path, false)] gives them. *)
Lemma collectPaths_sources (dir : string) (s s1 : state) (names : list string) :
  fs_readdir dir s = (Resolved names, s1) ->
  Forall (fun n => valid_name n = true) names ->
  GeneratorHandler.collectPaths dir false s =
    (Resolved (map (Js.resolvePath dir) (filter isFile names)), s1).
Proof.
  intros H Hvalid.
  rewrite (collectPaths_of_listing dir false _ _ _ H).
  destruct names as [|x xs]; [reflexivity|].
  cbv zeta. rewrite find_invalid_without_maps.
  destruct (find (fun n => negb (valid_name n)) (x :: xs)) as [bad|] eqn:Hfind.
  - exfalso. apply find_some in Hfind as (Hin & Hbad).
    rewrite Forall_forall in Hvalid. rewrite (Hvalid _ Hin) in Hbad. discriminate.
  - now rewrite sources_of_valid.
Qed.

(* ------------------------------------------------------------------ *)
(** ** Planning                                                         *)
(* ------------------------------------------------------------------ *)

(** The last batch of the rows of a table: 0 for no rows, the greatest
    batch otherwise. *)
Lemma lastBatch_rows (rs : list Row) :
  Forall (fun r => (0 <= batch r)%Z) rs ->
  (rs = [] -> lastBatch (map batch rs) = 0%Z) /\
  (rs <> [] -> is_max (lastBatch (map batch rs)) (map batch rs)).
Proof.
  intros Hpos. split.
  - now intros ->.
  - intros Hne. apply lastBatch_is_max.
    + destruct rs; [congruence|discriminate].
    + now apply Forall_map.
Qed.

(** C2, as the code has it. Planning an apply, by a handler that
    holds no rows of a table that is gone (a handler that has not
    loaded rows before, or whose table is still there), in a directory
    named by its resolved path whose entries are all sources or
    compiled artefacts: once the table is loaded and the directory is
    read, the plan is the paths of the sources of the directory that no
    row of the table records, in the order of the directory, under the
    batch number one above the greatest batch of the table (above 0
    when the table has no rows); it is the error "Nothing to generate"
    exactly when no such path is left. *)
Theorem beReadyToGenerate_plans_pending :
  forall (dir : string) (s s1 s2 : state) (names : list string),
    (ledger s = None -> rows s = []) ->
    Forall (fun r => (0 <= batch r)%Z) (table_rows s) ->
    resolved_path dir = true ->
    GeneratorHandler.load s = (Resolved tt, s1) ->
    fs_readdir dir s1 = (Resolved names, s2) ->
    Forall (fun n => valid_name n = true) names ->
    let ledger_rows := table_rows s in
    let allPaths := map (Js.resolvePath dir) (filter isFile names) in
    let pending :=
      filter (fun p => negb (Js.includes (map path ledger_rows) p)) allPaths in
    exists m : Z,
      (ledger_rows = [] -> m = 0%Z) /\
      (ledger_rows <> [] -> is_max m (map batch ledger_rows)) /\
      (forall p, In p pending <->
                 In p allPaths /\ ~ In p (map path ledger_rows)) /\
      (pending = [] ->
       GeneratorHandler.beReadyToGenerate dir s =
         (Rejected (GeneratorHandlerError "Nothing to generate"), s2)) /\
      (pending <> [] ->
       GeneratorHandler.beReadyToGenerate dir s =
         (Resolved (mkGen pending (m + 1)), s2)).
Proof.
  intros dir s s1 s2 names Hsync Hpos _ Hload Hread Hvalid
         ledger_rows allPaths pending.
  pose proof (collectPaths_sources dir s1 s2 names Hread Hvalid) as Hcoll.
  fold allPaths in Hcoll.
  destruct (load_in_sync _ _ Hsync Hload) as (Hrows & _).
  pose proof (collectPaths_frame dir false s1) as (Hr2 & _).
  rewrite Hcoll in Hr2; cbn [snd] in Hr2.
  destruct (lastBatch_rows _ Hpos) as (Hzero & Hmax).
  exists (lastBatch (map batch ledger_rows)).
  split; [exact Hzero|]. split; [exact Hmax|].
  split.
  { intros p. unfold pending. rewrite filter_In, negb_true_iff, includes_false.
    tauto. }
  assert (Hrun : GeneratorHandler.beReadyToGenerate dir s =
                 match pending with
                 | [] => (Rejected (GeneratorHandlerError "Nothing to generate"), s2)
                 | _ => (Resolved (mkGen pending
                                     (lastBatch (map batch ledger_rows) + 1)), s2)
                 end).
  { unfold GeneratorHandler.beReadyToGenerate, bind at 1. rewrite Hload.
    unfold bind at 1. rewrite Hcoll.
    unfold bind, GeneratorHandler.this_rows.
    rewrite Hr2, Hrows. fold ledger_rows. fold pending.
    destruct pending; reflexivity. }
  rewrite Hrun. split.
  - now intros ->.
  - intros Hne. destruct pending; [congruence|reflexivity].
Qed.

(** C3, as the code has it. Planning an undo, by a handler that holds
    no rows of a table that is gone: once the table is loaded, the
    plan is the paths of the rows whose batch is the greatest batch of
    the table, in the reverse of the order of the rows; it is the error
    "Nothing to rollback" exactly when that list is empty, which is
    when the table has no rows. *)
Theorem beReadyToRollback_plans_last_batch :
  forall (s s1 : state),
    (ledger s = None -> rows s = []) ->
    Forall (fun r => (0 <= batch r)%Z) (table_rows s) ->
    GeneratorHandler.load s = (Resolved tt, s1) ->
    let ledger_rows := table_rows s in
    exists m : Z,
      (ledger_rows = [] -> m = 0%Z) /\
      (ledger_rows <> [] -> is_max m (map batch ledger_rows)) /\
      let paths :=
        rev (map path (filter (fun r => (batch r =? m)%Z) ledger_rows)) in
      (paths = [] <-> ledger_rows = []) /\
      (paths = [] ->
       GeneratorHandler.beReadyToRollback s =
         (Rejected (GeneratorHandlerError "Nothing to rollback"), s1)) /\
      (paths <> [] ->
       GeneratorHandler.beReadyToRollback s = (Resolved paths, s1)).
Proof.
  intros s s1 Hsync Hpos Hload ledger_rows.
  destruct (load_in_sync _ _ Hsync Hload) as (Hrows & _).
  destruct (lastBatch_rows _ Hpos) as (Hzero & Hmax).
  exists (lastBatch (map batch ledger_rows)).
  split; [exact Hzero|]. split; [exact Hmax|].
  intros paths.
  assert (Hrun : GeneratorHandler.beReadyToRollback s =
                 match paths with
                 | [] => (Rejected (GeneratorHandlerError "Nothing to rollback"), s1)
                 | _ => (Resolved paths, s1)
                 end).
  { unfold GeneratorHandler.beReadyToRollback, bind at 1. rewrite Hload.
    unfold bind, GeneratorHandler.this_rows.
    rewrite Hrows. fold ledger_rows. fold paths.
    destruct paths; reflexivity. }
  split; [|rewrite Hrun; split].
  - subst paths ledger_rows. clear Hrun Hzero Hrows Hload.
    remember (table_rows s) as lr eqn:Hlr. clear Hlr. split.
    + intros Hnil.
      destruct lr as [|r0 rest]; [reflexivity|exfalso].
      destruct (Hmax ltac:(discriminate)) as (Hin & _).
      apply in_map_iff in Hin as (r & Hb & Hin).
      assert (Hp : In (path r)
                      (rev (map path
                              (filter (fun r => (batch r =? lastBatch (map batch (r0 :: rest)))%Z)
                                      (r0 :: rest))))).
      { rewrite <- in_rev. apply in_map.
        apply filter_In. split; [exact Hin|]. now apply Z.eqb_eq. }
      rewrite Hnil in Hp. destruct Hp.
    + now intros ->.
  - now intros ->.
  - intros Hne. destruct paths; [congruence|reflexivity].
Qed.

(** The table records the first file under batch 1, the directory has
    gained a second one: the plan is that file under batch 2. *)
Lemma beReadyToGenerate_plans_pending_witness :
  let s := Sample.world_with [mkRow 1 1 Sample.users_js]
             [Sample.users_js; Sample.profiles_js] Fulfils Fulfils in
  fst (GeneratorHandler.beReadyToGenerate Sample.dir s) =
    Resolved (mkGen [Sample.profiles_js] 2).
Proof.
  intros s.
  destruct (beReadyToGenerate_plans_pending
              Sample.dir s
              (snd (GeneratorHandler.load s))
              (snd (fs_readdir Sample.dir (snd (GeneratorHandler.load s))))
              ["01_generate_users_table.js"; "02_generate_profiles_table.js"])
    as (m & _ & Hmax & _ & _ & Hplan).
  - discriminate.
  - repeat constructor; cbn; lia.
  - reflexivity.
  - reflexivity.
  - reflexivity.
  - repeat constructor.
  - destruct (Hmax ltac:(discriminate)) as ([Hm|[]] & _).
    rewrite Hplan by (vm_compute; discriminate). rewrite <- Hm.
    vm_compute. reflexivity.
Defined.

(** Two batches in the table: the undo plan is the second batch, last
    row first. *)
Lemma beReadyToRollback_plans_last_batch_witness :
  let s := Sample.world_with
             [mkRow 1 1 Sample.users_js; mkRow 2 2 Sample.profiles_js;
              mkRow 3 2 Sample.products_js]
             Sample.three Fulfils Fulfils in
  fst (GeneratorHandler.beReadyToRollback s) =
    Resolved [Sample.products_js; Sample.profiles_js].
Proof.
  intros s.
  destruct (beReadyToRollback_plans_last_batch s (snd (GeneratorHandler.load s)))
    as (m & _ & Hmax & _ & _ & Hplan).
  - discriminate.
  - repeat constructor; cbn; lia.
  - reflexivity.
  - destruct (Hmax ltac:(discriminate)) as (Hin & Hall).
    assert (Hm : m = 2%Z).
    { cbn in Hin, Hall. inversion Hall as [|? ? _ Hall2]; subst.
      inversion Hall2 as [|? ? H2 _]; subst.
      destruct Hin as [<-|[<-|[<-|[]]]]; [lia|reflexivity|reflexivity]. }
    subst m. rewrite Hplan by discriminate. reflexivity.
Defined.

(** C2 as it is worded fails on a handler that is used again. After an
    apply, a second plan and a reset, the table is gone and the handler
    still holds the row it loaded. The directory holds one source and
    no row records it (there is no table; [load()] makes an empty
    one), so the claim has the plan be that file under batch 1; the
    plan is taken from the rows the handler holds, and is the error
    "Nothing to generate". *)
Lemma plan_of_reused_handler_misses_pending_file :
  ledger Reused.after_reset = None /\
  ledger (snd (GeneratorHandler.load Reused.after_reset)) = Some [] /\
  fst (GeneratorHandler.collectPaths Sample.dir false Reused.after_reset)
    = Resolved [Sample.users_js] /\
  filter (fun p => negb (Js.includes (map path (table_rows Reused.after_reset)) p))
         [Sample.users_js] = [Sample.users_js] /\
  fst (GeneratorHandler.beReadyToGenerate Sample.dir Reused.after_reset)
    = Rejected (GeneratorHandlerError "Nothing to generate") /\
  fst (GeneratorHandler.beReadyToGenerate Sample.dir Reused.after_reset)
    <> Resolved (mkGen [Sample.users_js] 1).
Proof.
  repeat split; try (vm_compute; reflexivity).
  vm_compute. discriminate.
Qed.

(** C3 as it is worded fails on the same handler: the table is gone
    ([load()] makes an empty one), so no row has the greatest batch and
    the claim has the plan be the error "Nothing to rollback"; the plan
    is taken from the rows the handler holds, and is the path of the
    row it loaded before the reset. *)
Lemma undo_plan_of_reused_handler_names_dropped_row :
  ledger Reused.after_reset = None /\
  ledger (snd (GeneratorHandler.beReadyToRollback Reused.after_reset)) = Some [] /\
  rev (map path
           (filter (fun r => (batch r =?
                                lastBatch (map batch (table_rows Reused.after_reset)))%Z)
                   (table_rows Reused.after_reset))) = [] /\
  fst (GeneratorHandler.beReadyToRollback Reused.after_reset)
    = Resolved [Sample.users_js] /\
  fst (GeneratorHandler.beReadyToRollback Reused.after_reset)
    <> Rejected (GeneratorHandlerError "Nothing to rollback").
Proof.
  repeat split; try (vm_compute; reflexivity).
  vm_compute. discriminate.
Qed.

(** C6, as the code has it. [load()] first sends the SELECT. When it
    answers with rows, these become the rows of the handler and nothing
    else is sent. When it fails with a [QueryError], the table is asked
    for with the columns [id] (primary key), [path] (text, not null)
    and [batch] (small integer, unsigned, not null), the promise is the
    one of that call, and the rows of the handler are left as they were
    (so empty on a handler that never loaded any). Any other failure is
    the rejection of [load()], and nothing more is sent. *)
Theorem load_selects_then_provisions :
  forall s : state,
    let select := "SELECT * FROM generators;" in
    let columns :=
      [ mkColumn "id" true NoType false false;
        mkColumn "path" false Text false true;
        mkColumn "batch" false SmallInt true true ] in
    match raw select s with
    | (Resolved rs, s1) =>
        GeneratorHandler.load s = (Resolved tt, with_rows rs s1) /\
        rows (snd (GeneratorHandler.load s)) = rs /\
        log (snd (GeneratorHandler.load s)) = (log s ++ [EvRaw select])%list
    | (Rejected e, s1) =>
        if isQueryError e
        then
          GeneratorHandler.load s = schema "generators" columns s1 /\
          rows (snd (GeneratorHandler.load s)) = rows s /\
          log (snd (GeneratorHandler.load s)) =
            (log s ++ [EvRaw select; EvSchema "generators" columns])%list /\
          (ledger (snd (GeneratorHandler.load s)) = Some [] \/
           exists e', fst (GeneratorHandler.load s) = Rejected e')
        else
          GeneratorHandler.load s = (Rejected e, s1) /\
          rows s1 = rows s /\ ledger s1 = ledger s /\
          log s1 = (log s ++ [EvRaw select])%list
    | (Pending, _) => False
    end.
Proof.
  intros [r l n f m fl lg] select columns.
  unfold GeneratorHandler.load, catch, bind, raw, call,
    GeneratorHandler.set_rows, Generator_create, schema, call, reject.
  cbn.
  destruct fl as [|[e|] fl]; cbn.
  - destruct l as [rs|]; cbn; repeat split; auto.
    now rewrite <- app_assoc.
  - destruct e as [q|q|q]; cbn; try (repeat split; reflexivity).
    destruct fl as [|[e2|] fl]; cbn; destruct l as [rs|]; cbn;
      repeat split; rewrite <- ?app_assoc; eauto.
  - destruct l as [rs|]; cbn; [repeat split; auto|].
    destruct fl as [|[e2|] fl]; cbn;
      repeat split; rewrite <- ?app_assoc; eauto.
Qed.

(** C6 as it is worded fails on a handler that is used again: after an
    apply, a second plan and a reset, the table is gone and the handler
    still holds the row it loaded; [load()] makes the table anew and the
    handler keeps that row, while the table is empty. The next
    [generate] of that handler then finds nothing to generate, with the
    file on disk and no row in the table. *)
Lemma load_keeps_rows_of_dropped_table :
  ledger Reused.after_reset = None /\
  fst (raw "SELECT * FROM generators;" Reused.after_reset)
    = Rejected (QueryError "Table generators does not exist") /\
  fst (GeneratorHandler.load Reused.after_reset) = Resolved tt /\
  ledger (snd (GeneratorHandler.load Reused.after_reset)) = Some [] /\
  rows (snd (GeneratorHandler.load Reused.after_reset))
    = [mkRow 1 1 Sample.users_js] /\
  rows (snd (GeneratorHandler.load Reused.after_reset)) <> [] /\
  files Reused.after_reset = [Sample.users_js] /\
  fst (GeneratorHandler.generate Sample.dir Reused.after_reset)
    = Rejected (GeneratorHandlerError "Nothing to generate").
Proof.
  repeat split; try (vm_compute; reflexivity).
  vm_compute. discriminate.
Qed.

(* ------------------------------------------------------------------ *)
(** ** A batch that resolves                                            *)
(* ------------------------------------------------------------------ *)

(** A batch resolves only when every generator has been called and has
    resolved and the commit of all the paths has gone through. *)
Lemma run_resolved (d : direction) (paths : list string) (s s' : state)
      (msg : string) :
  run d paths s = (Resolved msg, s') ->
  paths <> [] /\
  exists rs,
    ledger s = Some rs /\
    ledger s' = Some (committed d paths (next_id s) rs) /\
    log s' = (log s ++ map EvRequire paths ++ map (call_of d) paths ++
              [commit_event d paths])%list.
Proof.
  intros H.
  destruct (GeneratorHandler.collectGenerators paths s) as [[gs|e|] s0] eqn:Hgs.
  2,3: destruct d; cbn [run] in H;
      unfold GeneratorHandler.createTables, GeneratorHandler.dropTables,
        bind at 1 in H; rewrite Hgs in H; discriminate.
  destruct (collectGenerators_resolved _ _ _ _ Hgs) as (Hne & -> & Hlen).
  split; [exact Hne|].
  rewrite (run_unfold d _ _ _ _ Hgs) in H.
  destruct (GeneratorHandler.each (method_of d) (call_of d) (method_name d)
              (combine paths gs) [] (records (map EvRequire paths) s))
    as [[[|e|] done] s1] eqn:Heach.
  2:{ destruct (0 <? List.length done)%nat; unfold bind, reject in H;
      [destruct (commit d done s1) as [[?|?|] ?]|]; discriminate. }
  2: discriminate.
  pose proof (each_resolved_inv _ _ _ _ _ _ _ _ Heach) as Hall.
  rewrite (each_all _ _ _ _ _ _ Hall) in Heach.
  injection Heach as <- <-.
  rewrite map_fst_combine in * by (symmetry; exact Hlen). cbn [app] in *.
  unfold bind, resolve in H.
  pose proof (commit_effect d paths
                (records (map (call_of d) paths) (records (map EvRequire paths) s)))
    as (Hlog & _ & _ & _ & Hcases & _).
  destruct (commit d paths _) as [[[]|e|] s2]; [|discriminate|discriminate].
  injection H as _ <-. cbn [fst snd] in *.
  destruct Hcases as [(_ & rs & Hl & Hl')|((e & He) & _)]; [|discriminate].
  exists rs. split; [exact Hl|]. split; [exact Hl'|].
  rewrite Hlog. unfold records; cbn. now rewrite <- !app_assoc.
Qed.

Lemma assigned_batches_app (a b : list event) :
  assigned_batches (a ++ b) = (assigned_batches a ++ assigned_batches b)%list.
Proof.
  induction a as [|e a IH]; [reflexivity|].
  destruct e; cbn; try exact IH.
  destruct (values i) as [|[p z] rest]; cbn; [exact IH|now rewrite IH].
Qed.

Lemma assigned_batches_requires (f : string -> event) (ps : list string) :
  (forall p, match f p with EvInsert _ => False | _ => True end) ->
  assigned_batches (map f ps) = [].
Proof.
  intros Hf. induction ps as [|p ps IH]; [reflexivity|].
  cbn. specialize (Hf p). destruct (f p); try exact IH. destruct Hf.
Qed.

(** A [generate] that resolves, on a handler that holds no rows of a
    table that is gone: some paths, none of them recorded in the table,
    were inserted under the batch number one above the last batch of
    the table, by the one INSERT of the call. *)
Lemma generate_resolved (dir : string) (s s' : state) (msg : string) :
  (ledger s = None -> rows s = []) ->
  GeneratorHandler.generate dir s = (Resolved msg, s') ->
  exists (pending : list string) (n : Z) (pre : list event),
    pending <> [] /\
    (forall p, In p pending -> ~ In p (map path (table_rows s))) /\
    ledger s' =
      Some (table_rows s ++
            new_rows n (map (fun p => (p, lastBatch (map batch (table_rows s)) + 1)%Z)
                            pending))%list /\
    log s' = (log s ++ pre ++
              [EvInsert (insertion_of pending
                           (lastBatch (map batch (table_rows s)) + 1))])%list /\
    assigned_batches pre = [].
Proof.
  intros Hsync H.
  unfold GeneratorHandler.generate in H.
  destruct (negb (isFullStr dir)); [discriminate|].
  unfold bind at 1 in H.
  destruct (GeneratorHandler.beReadyToGenerate dir s) as [[gen|e|] s2] eqn:Hplan;
    [|discriminate|discriminate].
  unfold GeneratorHandler.beReadyToGenerate, bind at 1 in Hplan.
  destruct (GeneratorHandler.load s) as [[[]|e|] s1] eqn:Hload; [|discriminate|discriminate].
  unfold bind at 1 in Hplan.
  destruct (GeneratorHandler.collectPaths dir false s1) as [[allPaths|e|] s1'] eqn:Hcoll;
    [|discriminate|discriminate].
  unfold bind, GeneratorHandler.this_rows in Hplan.
  destruct (load_in_sync _ _ Hsync Hload) as (Hrows & Hled & _).
  pose proof (collectPaths_frame dir false s1) as (Hr2 & Hl2 & Hn2 & _ & _ & Hlog2 & _).
  rewrite Hcoll in Hr2, Hl2, Hn2, Hlog2; cbn [snd] in Hr2, Hl2, Hn2, Hlog2.
  rewrite Hr2, Hrows in Hplan.
  set (pending := filter (fun p => negb (Js.includes (map path (table_rows s)) p))
                         allPaths) in *.
  assert (Hpend : forall p, In p pending -> ~ In p (map path (table_rows s))).
  { intros p Hp. apply filter_In in Hp as (_ & Hp).
    now apply negb_true_iff, includes_false in Hp. }
  destruct pending as [|p0 rest] eqn:Hp; [discriminate|].
  unfold resolve in Hplan. injection Hplan as <- <-. cbn [gen_paths gen_batch] in H.
  change (GeneratorHandler.createTables (p0 :: rest)
            (lastBatch (map batch (table_rows s)) + 1) s1')
    with (run (Apply (lastBatch (map batch (table_rows s)) + 1)) (p0 :: rest) s1') in H.
  apply run_resolved in H as (_ & rs & Hl & Hl' & Hlog).
  rewrite Hl2, Hled in Hl. injection Hl as <-.
  exists (p0 :: rest), (next_id s1').
  assert (Hpre : exists pre0, log s1 = (log s ++ pre0)%list /\ assigned_batches pre0 = []).
  { destruct (load_resolved _ _ Hload)
      as (_ & _ & [(rs0 & _ & _ & _ & _ & Hlg & _)|Hnone]).
    - eexists; split; [exact Hlg|reflexivity].
    - destruct Hnone as (_ & _ & _ & _ & _ & cs & Hlg).
      eexists; split; [exact Hlg|reflexivity]. }
  destruct Hpre as (pre0 & Hlg1 & Hpre0).
  exists (pre0 ++ [EvReaddir dir] ++ map EvRequire (p0 :: rest)
               ++ map EvCreate (p0 :: rest))%list.
  split; [discriminate|]. split; [exact Hpend|]. split; [exact Hl'|].
  split.
  - rewrite Hlog, Hlog2, Hlg1. cbn [call_of commit_event].
    rewrite <- !app_assoc. reflexivity.
  - rewrite !assigned_batches_app, Hpre0.
    rewrite (assigned_batches_requires EvRequire) by (intros; exact I).
    rewrite (assigned_batches_requires EvCreate) by (intros; exact I).
    reflexivity.
Qed.

Lemma filter_keep_all {A} (f : A -> bool) (l : list A) :
  (forall x, In x l -> f x = true) -> filter f l = l.
Proof.
  induction l as [|x l IH]; intros H; [reflexivity|].
  cbn. rewrite (H x) by now left. f_equal. apply IH. intros; apply H; now right.
Qed.

Lemma filter_keep_none {A} (f : A -> bool) (l : list A) :
  (forall x, In x l -> f x = false) -> filter f l = [].
Proof.
  induction l as [|x l IH]; intros H; [reflexivity|].
  cbn. rewrite (H x) by now left. apply IH. intros; apply H; now right.
Qed.

(** [lastBatch] is the one number that is not negative, bounds every
    batch, and is 0 or one of the batches. *)
Lemma lastBatch_unique (bs : list Z) (m : Z) :
  (0 <= m)%Z -> Forall (fun x => (x <= m)%Z) bs -> (m = 0%Z \/ In m bs) ->
  lastBatch bs = m.
Proof.
  intros H0 Hub Hin.
  destruct bs as [|b bs].
  - destruct Hin as [->|[]]. reflexivity.
  - unfold lastBatch.
    destruct (fold_last (b :: bs) 0) as (L0 & Lub & Lin).
    set (L := fold_left _ (b :: bs) 0%Z) in *.
    rewrite Forall_forall in Hub, Lub.
    assert (L <= m)%Z by (destruct Lin as [->|Lin]; [exact H0|exact (Hub _ Lin)]).
    assert (m <= L)%Z by (destruct Hin as [->|Hin]; [exact L0|exact (Lub _ Hin)]).
    lia.
Qed.

(** After rows have been added under the batch one above the last, that
    batch is the last. *)
Lemma lastBatch_after_apply (old : list Row) (n : Z) (pending : list string) :
  pending <> [] ->
  lastBatch (map batch
               (old ++ new_rows n
                         (map (fun p => (p, lastBatch (map batch old) + 1)%Z) pending)))
  = (lastBatch (map batch old) + 1)%Z.
Proof.
  intros Hne.
  destruct (lastBatch_bounds (map batch old)) as (H0 & Hub).
  apply lastBatch_unique.
  - lia.
  - rewrite map_app. apply Forall_app. split.
    + eapply Forall_impl; [|exact Hub]. cbn; intros; lia.
    + apply Forall_forall. intros x Hx.
      apply in_map_iff in Hx as (r & <- & Hr).
      apply new_rows_batch in Hr. lia.
  - right. rewrite map_app. apply in_or_app. right.
    destruct pending as [|p rest]; [congruence|]. cbn. now left.
Qed.

(** A [rollback] that resolves, on a handler that holds no rows of a
    table that is gone: the rows of the paths of the last batch are
    deleted, and no other. *)
Lemma rollback_resolved (s s' : state) (msg : string) :
  (ledger s = None -> rows s = []) ->
  GeneratorHandler.rollback s = (Resolved msg, s') ->
  let dropped :=
    rev (map path
             (filter (fun r => (batch r =? lastBatch (map batch (table_rows s)))%Z)
                     (table_rows s))) in
  dropped <> [] /\
  ledger s' =
    Some (filter (fun r => negb (Js.includes dropped (path r))) (table_rows s)).
Proof.
  intros Hsync H dropped.
  unfold GeneratorHandler.rollback, bind at 1 in H.
  destruct (GeneratorHandler.beReadyToRollback s) as [[paths|e|] s1] eqn:Hplan;
    [|discriminate|discriminate].
  unfold GeneratorHandler.beReadyToRollback, bind at 1 in Hplan.
  destruct (GeneratorHandler.load s) as [[[]|e|] s0] eqn:Hload; [|discriminate|discriminate].
  destruct (load_in_sync _ _ Hsync Hload) as (Hrows & Hled & _).
  unfold bind, GeneratorHandler.this_rows in Hplan.
  rewrite Hrows in Hplan. fold dropped in Hplan.
  destruct dropped as [|p0 rest] eqn:Hd; [discriminate|].
  unfold resolve in Hplan. injection Hplan as <- <-.
  change (GeneratorHandler.dropTables (p0 :: rest) s0)
    with (run Undo (p0 :: rest) s0) in H.
  apply run_resolved in H as (_ & rs & Hl & Hl' & _).
  rewrite Hled in Hl. injection Hl as <-.
  split; [discriminate|exact Hl'].
Qed.

(** C5. An apply that resolves followed by an undo that resolves: the
    apply has added rows for the pending paths, all of them; after the
    undo no row of these paths is left and the table holds the rows it
    held before the apply. The undo may be run by another handler, on
    the table as the apply left it. *)
Theorem apply_then_undo_restores_table :
  forall (dir : string) (s s1 s1' s2 : state) (msg msg' : string),
    (ledger s = None -> rows s = []) ->
    GeneratorHandler.generate dir s = (Resolved msg, s1) ->
    ledger s1' = ledger s1 ->
    GeneratorHandler.rollback s1' = (Resolved msg', s2) ->
    exists applied : list string,
      applied <> [] /\
      map path (table_rows s1) = (map path (table_rows s) ++ applied)%list /\
      (forall p, In p applied -> ~ In p (map path (table_rows s))) /\
      (forall r, In r (table_rows s2) -> ~ In (path r) applied) /\
      ledger s2 = Some (table_rows s).
Proof.
  intros dir s s1 s1' s2 msg msg' Hsync Hgen Hsame Hback.
  destruct (generate_resolved _ _ _ _ Hsync Hgen)
    as (pending & n & pre & Hne & Hfresh & Hled1 & _).
  set (old := table_rows s) in *.
  assert (Hsync' : ledger s1' = None -> rows s1' = [])
    by (rewrite Hsame, Hled1; discriminate).
  pose proof (rollback_resolved _ _ _ Hsync' Hback) as (_ & Hled2).
  assert (Ht : table_rows s1' =
               (old ++ new_rows n
                         (map (fun p => (p, lastBatch (map batch old) + 1)%Z)
                              pending))%list)
    by (unfold table_rows; now rewrite Hsame, Hled1).
  rewrite Ht in Hled2.
  rewrite lastBatch_after_apply in Hled2 by exact Hne.
  set (b := (lastBatch (map batch old) + 1)%Z) in *.
  set (new := new_rows n (map (fun p => (p, b)) pending)) in *.
  assert (Hold : filter (fun r => (batch r =? b)%Z) old = []).
  { apply filter_keep_none. intros r Hr. apply Z.eqb_neq.
    destruct (lastBatch_bounds (map batch old)) as (_ & Hub).
    rewrite Forall_forall in Hub.
    specialize (Hub (batch r) (in_map batch _ _ Hr)). unfold b. lia. }
  assert (Hnew : filter (fun r => (batch r =? b)%Z) new = new).
  { apply filter_keep_all. intros r Hr. apply Z.eqb_eq.
    exact (new_rows_batch _ _ _ _ Hr). }
  rewrite (filter_app (fun r => (batch r =? b)%Z)), Hold, Hnew in Hled2.
  cbn [app] in Hled2.
  replace (map path new) with pending in Hled2
    by (unfold new; now rewrite new_rows_paths).
  rewrite filter_app in Hled2.
  assert (Hkeep : filter (fun r => negb (Js.includes (rev pending) (path r))) old = old).
  { apply filter_keep_all. intros r Hr. apply negb_true_iff, includes_false.
    rewrite <- in_rev. intros Hin. apply (Hfresh _ Hin). now apply in_map. }
  assert (Hdrop : filter (fun r => negb (Js.includes (rev pending) (path r))) new = []).
  { apply filter_keep_none. intros r Hr. apply negb_false_iff, includes_In.
    rewrite <- in_rev. rewrite <- (new_rows_paths n pending b). now apply in_map. }
  rewrite Hkeep, Hdrop, app_nil_r in Hled2.
  exists pending. split; [exact Hne|]. split.
  { unfold table_rows at 1. rewrite Hled1, map_app. unfold new.
    now rewrite new_rows_paths. }
  split; [exact Hfresh|]. split; [|exact Hled2].
  intros r Hr Hin. unfold table_rows in Hr. rewrite Hled2 in Hr.
  apply (Hfresh _ Hin). now apply in_map.
Qed.

(** Two pending files are applied and undone at once: the table is
    empty again. *)
Lemma apply_then_undo_restores_table_witness :
  let s := Sample.world [Sample.users_js; Sample.profiles_js] Fulfils Fulfils in
  let s1 := snd (GeneratorHandler.generate Sample.dir s) in
  let s2 := snd (GeneratorHandler.rollback s1) in
  exists applied : list string,
    applied <> [] /\
    map path (table_rows s1) = (map path (table_rows s) ++ applied)%list /\
    (forall p, In p applied -> ~ In p (map path (table_rows s))) /\
    (forall r, In r (table_rows s2) -> ~ In (path r) applied) /\
    ledger s2 = Some (table_rows s).
Proof.
  intros s s1 s2.
  apply (apply_then_undo_restores_table
           Sample.dir s s1 s1 s2 "2/2 tables created" "2/2 tables dropped").
  - reflexivity.
  - vm_compute; reflexivity.
  - reflexivity.
  - vm_compute; reflexivity.
Defined.

(* ------------------------------------------------------------------ *)
(** ** Batch numbers over a sequence of commands                        *)
(* ------------------------------------------------------------------ *)

Lemma assigned_batches_insert (paths : list string) (b : Z) :
  paths <> [] -> assigned_batches [EvInsert (insertion_of paths b)] = [b].
Proof.
  intros Hne. cbn. rewrite values_insertion_of.
  destruct paths as [|p rest]; [congruence|reflexivity].
Qed.

(** A [rollback] that resolves sends no INSERT. *)
Lemma rollback_resolved_log (s s' : state) (msg : string) :
  GeneratorHandler.rollback s = (Resolved msg, s') ->
  exists pre, log s' = (log s ++ pre)%list /\ assigned_batches pre = [].
Proof.
  intros H.
  unfold GeneratorHandler.rollback, bind at 1 in H.
  destruct (GeneratorHandler.beReadyToRollback s) as [[paths|e|] s1] eqn:Hplan;
    [|discriminate|discriminate].
  unfold GeneratorHandler.beReadyToRollback, bind at 1 in Hplan.
  destruct (GeneratorHandler.load s) as [[[]|e|] s0] eqn:Hload;
    [|discriminate|discriminate].
  unfold bind, GeneratorHandler.this_rows in Hplan.
  assert (Hs1 : s1 = s0).
  { destruct (rev _) in Hplan; [discriminate|].
    unfold resolve in Hplan. now injection Hplan as _ <-. }
  subst s1.
  change (GeneratorHandler.dropTables paths s0) with (run Undo paths s0) in H.
  apply run_resolved in H as (_ & rs & _ & _ & Hlog).
  assert (Hpre : exists pre0, log s0 = (log s ++ pre0)%list /\ assigned_batches pre0 = []).
  { destruct (load_resolved _ _ Hload)
      as (_ & _ & [(rs0 & _ & _ & _ & _ & Hlg & _)|Hnone]).
    - eexists; split; [exact Hlg|reflexivity].
    - destruct Hnone as (_ & _ & _ & _ & _ & cs & Hlg).
      eexists; split; [exact Hlg|reflexivity]. }
  destruct Hpre as (pre0 & Hlg0 & Hpre0).
  exists (pre0 ++ map EvRequire paths ++ map EvDrop paths ++ [EvDelete paths])%list.
  split.
  - rewrite Hlog, Hlg0. cbn [call_of commit_event].
    now rewrite <- !app_assoc.
  - rewrite !assigned_batches_app, Hpre0.
    rewrite (assigned_batches_requires EvRequire) by (intros; exact I).
    rewrite (assigned_batches_requires EvDrop) by (intros; exact I).
    reflexivity.
Qed.

(** An undo that resolves, after an apply that resolved, gives the
    table the rows it held before the apply. *)
Lemma undo_after_apply (dir : string) (s s1 s1' s2 : state) (msg msg' : string) :
  (ledger s = None -> rows s = []) ->
  GeneratorHandler.generate dir s = (Resolved msg, s1) ->
  ledger s1' = ledger s1 ->
  GeneratorHandler.rollback s1' = (Resolved msg', s2) ->
  ledger s2 = Some (table_rows s).
Proof.
  intros Hsync Hgen Hsame Hback.
  destruct (generate_resolved _ _ _ _ Hsync Hgen)
    as (pending & n & pre & Hne & Hfresh & Hled1 & _).
  set (old := table_rows s) in *.
  assert (Hsync' : ledger s1' = None -> rows s1' = [])
    by (rewrite Hsame, Hled1; discriminate).
  pose proof (rollback_resolved _ _ _ Hsync' Hback) as (_ & Hled2).
  assert (Ht : table_rows s1' =
               (old ++ new_rows n
                         (map (fun p => (p, lastBatch (map batch old) + 1)%Z)
                              pending))%list)
    by (unfold table_rows; now rewrite Hsame, Hled1).
  rewrite Ht in Hled2.
  rewrite lastBatch_after_apply in Hled2 by exact Hne.
  set (b := (lastBatch (map batch old) + 1)%Z) in *.
  set (new := new_rows n (map (fun p => (p, b)) pending)) in *.
  assert (Hold : filter (fun r => (batch r =? b)%Z) old = []).
  { apply filter_keep_none. intros r Hr. apply Z.eqb_neq.
    destruct (lastBatch_bounds (map batch old)) as (_ & Hub).
    rewrite Forall_forall in Hub.
    specialize (Hub (batch r) (in_map batch _ _ Hr)). unfold b. lia. }
  assert (Hnew : filter (fun r => (batch r =? b)%Z) new = new).
  { apply filter_keep_all. intros r Hr. apply Z.eqb_eq.
    exact (new_rows_batch _ _ _ _ Hr). }
  rewrite (filter_app (fun r => (batch r =? b)%Z)), Hold, Hnew in Hled2.
  cbn [app] in Hled2.
  replace (map path new) with pending in Hled2
    by (unfold new; now rewrite new_rows_paths).
  rewrite filter_app in Hled2.
  assert (Hkeep : filter (fun r => negb (Js.includes (rev pending) (path r))) old = old).
  { apply filter_keep_all. intros r Hr. apply negb_true_iff, includes_false.
    rewrite <- in_rev. intros Hin. apply (Hfresh _ Hin). now apply in_map. }
  assert (Hdrop : filter (fun r => negb (Js.includes (rev pending) (path r))) new = []).
  { apply filter_keep_none. intros r Hr. apply negb_false_iff, includes_In.
    rewrite <- in_rev. rewrite <- (new_rows_paths n pending b). now apply in_map. }
  now rewrite Hkeep, Hdrop, app_nil_r in Hled2.
Qed.

(** C4, as the code has it, for commands that each run on a handler of
    their own (the commands of the CLI build one each). A sequence of
    applies that all resolve, with no undo between them, assigns the
    batch numbers that follow the last batch of the table one by one:
    1, 2, 3, ... from a table without rows. And a batch number is not
    kept once it has been used: when an apply, an undo and an apply
    follow each other and the three of them resolve, the second apply
    assigns the number that the first one assigned. *)
Theorem successive_applies_count_up :
  forall (cs : list (setting * string)) (s : state) (k : nat),
    lastBatch (map batch (table_rows s)) = Z.of_nat k ->
    (forallb is_resolved
             (fst (session (map (fun c => (fst c, Generate (snd c))) cs) s)) = true ->
     assigned_batches
       (log (snd (session (map (fun c => (fst c, Generate (snd c))) cs) s)))
     = (assigned_batches (log s) ++ batches_after k (List.length cs))%list) /\
    (forall (e1 e2 e3 : setting) (dir1 dir3 : string),
        let commands := [(e1, Generate dir1); (e2, Rollback); (e3, Generate dir3)] in
        forallb is_resolved (fst (session commands s)) = true ->
        assigned_batches (log (snd (session commands s)))
        = (assigned_batches (log s) ++ [Z.of_nat (S k); Z.of_nat (S k)])%list).
Proof.
  intros cs s k Hk. split.
  - revert s k Hk.
    induction cs as [|[e dir] rest IH]; intros s k Hk Hall.
    + cbn. now rewrite app_nil_r.
    + cbn [map fst snd session exec_command] in *.
      destruct (GeneratorHandler.generate dir (arrive e s)) as [r s1] eqn:Hgen.
      destruct (session (map (fun c => (fst c, Generate (snd c))) rest) s1)
        as [rs s2] eqn:Hrest.
      cbn [fst snd forallb] in *.
      apply andb_true_iff in Hall as (Hr & Hrs).
      destruct r as [msg|err|]; [|discriminate|discriminate].
      destruct (generate_resolved dir (arrive e s) s1 msg (fun _ => eq_refl) Hgen)
        as (pending & n & pre & Hne & _ & Hled & Hlog & Hpre).
      change (table_rows (arrive e s)) with (table_rows s) in *.
      change (log (arrive e s)) with (log s) in *.
      rewrite Hk in *.
      assert (Hk1 : lastBatch (map batch (table_rows s1)) = Z.of_nat (S k)).
      { unfold table_rows at 1. rewrite Hled, <- Hk.
        rewrite lastBatch_after_apply by exact Hne. lia. }
      specialize (IH s1 (S k) Hk1). rewrite Hrest in IH. cbn [fst snd] in IH.
      rewrite (IH Hrs), Hlog, !assigned_batches_app, Hpre.
      rewrite (assigned_batches_insert _ _ Hne).
      cbn [app List.length]. unfold batches_after. cbn [seq map].
      rewrite <- app_assoc. cbn [app]. do 2 f_equal. lia.
  - intros e1 e2 e3 dir1 dir3 commands Hall.
    subst commands. cbn [session exec_command] in *.
    destruct (GeneratorHandler.generate dir1 (arrive e1 s)) as [r1 s1] eqn:Hgen1.
    destruct (GeneratorHandler.rollback (arrive e2 s1)) as [r2 s2] eqn:Hback.
    destruct (GeneratorHandler.generate dir3 (arrive e3 s2)) as [r3 s3] eqn:Hgen3.
    cbn [fst snd forallb] in *.
    destruct r1 as [m1|?|]; [|discriminate|discriminate].
    destruct r2 as [m2|?|]; [|discriminate|discriminate].
    destruct r3 as [m3|?|]; [|discriminate|discriminate].
    destruct (generate_resolved dir1 (arrive e1 s) s1 m1 (fun _ => eq_refl) Hgen1)
      as (pending1 & n1 & pre1 & Hne1 & _ & _ & Hlog1 & Hpre1).
    pose proof (undo_after_apply dir1 (arrive e1 s) s1 (arrive e2 s1) s2 m1 m2
                  (fun _ => eq_refl) Hgen1 eq_refl Hback) as Hled2.
    destruct (rollback_resolved_log _ _ _ Hback) as (pre2 & Hlog2 & Hpre2).
    destruct (generate_resolved dir3 (arrive e3 s2) s3 m3 (fun _ => eq_refl) Hgen3)
      as (pending3 & n3 & pre3 & Hne3 & _ & _ & Hlog3 & Hpre3).
    change (table_rows (arrive e1 s)) with (table_rows s) in *.
    change (log (arrive e1 s)) with (log s) in *.
    change (log (arrive e2 s1)) with (log s1) in *.
    change (log (arrive e3 s2)) with (log s2) in *.
    assert (Ht2 : table_rows (arrive e3 s2) = table_rows s)
      by (unfold table_rows; cbn [arrive GeneratorHandler.new with_rows ledger];
          now rewrite Hled2).
    rewrite Ht2, Hk in Hlog3. rewrite Hk in Hlog1.
    rewrite Hlog3, Hlog2, Hlog1, !assigned_batches_app, Hpre1, Hpre2, Hpre3.
    rewrite !(assigned_batches_insert _ _ Hne1), !(assigned_batches_insert _ _ Hne3).
    cbn [app]. rewrite app_nil_r, <- app_assoc. cbn [app].
    replace (Z.of_nat (S k)) with (Z.of_nat k + 1)%Z by lia. reflexivity.
Qed.

(** Three applies from a table without rows, the directory gaining a
    file each time: batches 1, 2, 3. *)
Lemma successive_applies_count_up_witness :
  let at_ (fs : list string) := (mkSetting fs (Sample.exports Fulfils Fulfils) [], Sample.dir) in
  let cs := [at_ [Sample.users_js];
             at_ [Sample.users_js; Sample.profiles_js];
             at_ Sample.three] in
  let s := Sample.world [] Fulfils Fulfils in
  assigned_batches
    (log (snd (session (map (fun c => (fst c, Generate (snd c))) cs) s)))
  = [1%Z; 2%Z; 3%Z].
Proof.
  intros at_ cs s.
  apply (proj1 (successive_applies_count_up cs s 0 eq_refl)).
  vm_compute; reflexivity.
Defined.

(** C4 as it is worded fails once an undo comes between two applies:
    apply, undo, apply, the three of them resolving, assigns batch 1
    twice. *)
Lemma batch_number_reused_after_undo :
  let e := mkSetting [Sample.users_js] (Sample.exports Fulfils Fulfils) [] in
  let run := session [(e, Generate Sample.dir); (e, Rollback); (e, Generate Sample.dir)]
                     (Sample.world [] Fulfils Fulfils) in
  map is_resolved (fst run) = [true; true; true] /\
  assigned_batches (log (snd run)) = [1%Z; 1%Z] /\
  ~ NoDup (assigned_batches (log (snd run))).
Proof.
  intros e run.
  assert (H : assigned_batches (log (snd run)) = [1%Z; 1%Z])
    by (vm_compute; reflexivity).
  split; [vm_compute; reflexivity|]. split; [exact H|].
  rewrite H. intros Hnd. inversion Hnd as [|? ? Hnot _]; subst.
  apply Hnot. now left.
Qed.

(* ------------------------------------------------------------------ *)
(** ** Removing a generator                                             *)
(* ------------------------------------------------------------------ *)

(** What a statement sent through [raw] leaves alone. *)
Lemma raw_frame (sql : string) (s : state) :
  log (snd (raw sql s)) = (log s ++ [EvRaw sql])%list /\
  files (snd (raw sql s)) = files s /\
  modules (snd (raw sql s)) = modules s /\
  rows (snd (raw sql s)) = rows s.
Proof.
  destruct s as [r l n f m fl lg]. unfold raw, call. cbn.
  destruct fl as [|[e|] fl]; cbn; [| repeat split; reflexivity |];
    destruct (String.eqb sql "SELECT * FROM generators;");
    destruct l as [rs|]; cbn; try (repeat split; reflexivity);
      destruct (String.eqb sql "DROP TABLE generators;"); cbn;
        repeat split; reflexivity.
Qed.

(** A statement sent through [raw] is answered. *)
Lemma raw_settles (sql : string) (s : state) : fst (raw sql s) <> Pending.
Proof.
  destruct s as [r l n f m fl lg]. unfold raw, call. cbn.
  destruct fl as [|[e|] fl]; cbn; try discriminate;
    destruct (String.eqb sql "SELECT * FROM generators;");
    destruct l as [rs|]; cbn; try discriminate;
      destruct (String.eqb sql "DROP TABLE generators;"); cbn; discriminate.
Qed.

(** [exec] never rejects: every table is asked to be dropped, in the
    order of the generators, whatever the calls before answered; the
    generators table is asked to be dropped last. *)
Lemma exec_total (gs : list MegaGenerator) :
  forall (dropped : nat) (s : state),
    exists (k : nat),
      fst (GeneratorHandler.exec gs dropped s) = Resolved k /\
      (dropped <= k <= dropped + List.length gs)%nat /\
      log (snd (GeneratorHandler.exec gs dropped s)) =
        (log s ++ map drop_statement gs ++ [EvRaw "DROP TABLE generators;"])%list /\
      files (snd (GeneratorHandler.exec gs dropped s)) = files s /\
      modules (snd (GeneratorHandler.exec gs dropped s)) = modules s.
Proof.
  induction gs as [|g gs IH]; intros dropped s.
  - cbn [GeneratorHandler.exec]. unfold catch, bind, resolve.
    pose proof (raw_frame "DROP TABLE generators;" s) as (Hl & Hf & Hm & _).
    pose proof (raw_settles "DROP TABLE generators;" s) as Hs.
    destruct (raw "DROP TABLE generators;" s) as [[rs|e|] s1]; cbn [fst snd] in *;
      [| |now elim Hs];
      exists dropped; (split; [reflexivity|]); (split; [cbn; lia|]); auto.
  - cbn [GeneratorHandler.exec].
    pose proof (raw_frame ("DROP TABLE " ++ get_table g ++ ";") s) as (Hl & Hf & Hm & _).
    pose proof (raw_settles ("DROP TABLE " ++ get_table g ++ ";") s) as Hs.
    destruct (raw ("DROP TABLE " ++ get_table g ++ ";") s) as [[rs|e|] s1];
      cbn [fst snd] in *; [| |now elim Hs].
    + destruct (IH (S dropped) s1) as (k & Hk & Hb & Hlog & Hfs & Hms).
      exists k. split; [exact Hk|]. split; [cbn; lia|].
      rewrite Hlog, Hl, Hfs, Hf, Hms, Hm. cbn [map List.length].
      unfold drop_statement at 2. rewrite <- app_assoc. auto.
    + destruct (IH dropped s1) as (k & Hk & Hb & Hlog & Hfs & Hms).
      exists k. split; [exact Hk|]. split; [cbn; lia|].
      rewrite Hlog, Hl, Hfs, Hf, Hms, Hm. cbn [map List.length].
      unfold drop_statement at 2. rewrite <- app_assoc. auto.
Qed.

(** Loading the generators only logs the calls of [require]. *)
Lemma collectGenerators_loop_frame (paths : list string) :
  forall s : state,
    files (snd (GeneratorHandler.collectGenerators_loop paths s)) = files s /\
    exists n,
      log (snd (GeneratorHandler.collectGenerators_loop paths s)) =
        (log s ++ map EvRequire (firstn n paths))%list.
Proof.
  induction paths as [|p rest IH]; intros s.
  - cbn. split; [reflexivity|]. exists 0%nat. cbn. now rewrite app_nil_r.
  - cbn [GeneratorHandler.collectGenerators_loop].
    unfold bind, GeneratorHandler.collectGenerator.
    destruct (modules (record (EvRequire p) s) p).
    + destruct (IH (record (EvRequire p) s)) as (Hf & n & Hl).
      destruct (GeneratorHandler.collectGenerators_loop rest (record (EvRequire p) s))
        as [[gs|e|] s']; cbn [snd resolve] in *;
        (split; [exact Hf|]); exists (S n); rewrite Hl; cbn;
          now rewrite <- app_assoc.
    + destruct (IH (record (EvRequire p) s)) as (Hf & n & Hl).
      destruct (GeneratorHandler.collectGenerators_loop rest (record (EvRequire p) s))
        as [[gs|e|] s']; cbn [snd resolve] in *;
        (split; [exact Hf|]); exists (S n); rewrite Hl; cbn;
          now rewrite <- app_assoc.
    + cbn. split; [reflexivity|]. exists 1%nat. reflexivity.
    + cbn. split; [reflexivity|]. exists 1%nat. reflexivity.
Qed.

Lemma existsb_touches_app (a b : list event) :
  existsb touches_disk (a ++ b) = existsb touches_disk a || existsb touches_disk b.
Proof. apply existsb_app. Qed.

Lemma no_touch_map (f : string -> event) (ps : list string) :
  (forall p, touches_disk (f p) = false) ->
  existsb touches_disk (map f ps) = false.
Proof.
  intros Hf. induction ps as [|p ps IH]; [reflexivity|].
  cbn. now rewrite Hf, IH.
Qed.

Lemma no_touch_drops (gs : list MegaGenerator) :
  existsb touches_disk (map drop_statement gs) = false.
Proof. induction gs as [|g gs IH]; [reflexivity|exact IH]. Qed.

(** [reset] changes no file: what it adds to the log has neither a
    deletion nor a rename. *)
Lemma reset_frame (dir : string) (s s' : state) (r : promise string) :
  GeneratorHandler.reset dir s = (r, s') ->
  files s' = files s /\
  exists evs,
    log s' = (log s ++ evs)%list /\ existsb touches_disk evs = false.
Proof.
  unfold GeneratorHandler.reset.
  destruct (negb (isFullStr dir)).
  { cbn. intros H; injection H as _ <-.
    split; [reflexivity|]. exists []. now rewrite app_nil_r. }
  unfold bind at 1.
  pose proof (collectPaths_frame dir false s) as (_ & _ & _ & Hf & _ & Hl & _).
  destruct (GeneratorHandler.collectPaths dir false s) as [[paths|e|] s1];
    cbn [snd] in *.
  2,3: (intros H; injection H as _ <-;
        split; [exact Hf|]; exists [EvReaddir dir]; split; [exact Hl|reflexivity]).
  destruct (rev paths) as [|p0 rest] eqn:Hrev.
  { cbn. intros H; injection H as _ <-.
    split; [exact Hf|]. exists [EvReaddir dir]. split; [exact Hl|reflexivity]. }
  unfold bind at 1, GeneratorHandler.collectGenerators.
  destruct (collectGenerators_loop_frame (p0 :: rest) s1) as (Hf1 & n & Hl1).
  destruct (GeneratorHandler.collectGenerators_loop (p0 :: rest) s1)
    as [[gs|e|] s2]; cbn [snd] in *.
  2,3: (intros H; injection H as _ <-;
        split; [congruence|];
        exists ([EvReaddir dir] ++ map EvRequire (firstn n (p0 :: rest)))%list;
        split; [rewrite Hl1, Hl; now rewrite <- app_assoc|];
        rewrite existsb_touches_app, no_touch_map by reflexivity; reflexivity).
  unfold bind, resolve.
  destruct (exec_total gs 0 s2) as (k & Hk & _ & Hl2 & Hf2 & _).
  destruct (GeneratorHandler.exec gs 0 s2) as [[k'|e|] s3]; cbn [fst snd] in *;
    [|discriminate|discriminate].
  intros H; injection H as _ <-.
  split; [congruence|].
  exists ([EvReaddir dir] ++ map EvRequire (firstn n (p0 :: rest))
            ++ map drop_statement gs ++ [EvRaw "DROP TABLE generators;"])%list.
  split.
  - rewrite Hl2, Hl1, Hl. now rewrite <- !app_assoc.
  - rewrite !existsb_touches_app, no_touch_map, no_touch_drops by reflexivity.
    reflexivity.
Qed.

(** The calls of [Promise.all] are made one after the other, whatever
    they answer. *)
Lemma all_state (m : M unit) (rest : list (M unit)) (s : state) :
  snd (all (m :: rest) s) = snd (all rest (snd (m s))).
Proof.
  cbn [all]. destruct (m s) as [[[]|e|] s1]; cbn [snd]; try reflexivity.
  destruct (all rest s1) as [[[]|e|] s2]; reflexivity.
Qed.

(** [Promise.all] over calls that each log one event logs them all,
    whatever they answer. *)
Lemma all_log {A} (f : A -> M unit) (ev : A -> event) (xs : list A) :
  (forall x s, log (snd (f x s)) = (log s ++ [ev x])%list) ->
  forall s, log (snd (all (map f xs) s)) = (log s ++ map ev xs)%list.
Proof.
  intros Hf. induction xs as [|x xs IH]; intros s.
  - cbn. now rewrite app_nil_r.
  - cbn [map]. rewrite all_state, IH, Hf, <- app_assoc. reflexivity.
Qed.

Lemma fs_unlink_log (p : string) (s : state) :
  log (snd (fs_unlink p s)) = (log s ++ [EvUnlink p])%list.
Proof.
  destruct s as [r l n f m fl lg]. unfold fs_unlink, call. cbn.
  destruct fl as [|[e|] fl]; cbn; try reflexivity;
    destruct (existsb _ _); reflexivity.
Qed.

Lemma fs_rename_log (op : string * string) (s : state) :
  log (snd (fs_rename (fst op) (snd op) s)) = (log s ++ [rename_event op])%list.
Proof.
  destruct s as [r l n f m fl lg]. unfold fs_rename, call. cbn.
  destruct fl as [|[e|] fl]; cbn; try reflexivity;
    destruct (existsb _ _); reflexivity.
Qed.

(** [unlink] asks for the deletion of every path it is given. *)
Lemma unlink_log (paths : list string) (s : state) :
  log (snd (unlink paths s)) = (log s ++ map EvUnlink paths)%list.
Proof. apply all_log. apply fs_unlink_log. Qed.

(** [rename] asks for the renames of [renames], and nothing else. *)
Lemma rename_log (groups : list (list string)) (s : state) :
  log (snd (rename groups s)) = (log s ++ map rename_event (renames groups))%list.
Proof.
  unfold rename. destruct groups as [|g gs].
  - cbn. now rewrite app_nil_r.
  - unfold catch, reject.
    pose proof (all_log (fun op => fs_rename (fst op) (snd op)) rename_event
                  (renames (g :: gs)) fs_rename_log s) as H.
    destruct (all _ s) as [[[]|e|] s1]; exact H.
Qed.

(* ------------------------------------------------------------------ *)
(** ** The names [collectPaths] lets through have a number               *)
(* ------------------------------------------------------------------ *)

Lemma snake_then_weaken (accept accept' : string -> bool) :
  (forall r, accept r = true -> accept' r = true) ->
  forall (s : string) (b : bool),
    snake_then accept b s = true -> snake_then accept' b s = true.
Proof.
  intros Hacc. induction s as [|c s IH]; intros b H; [discriminate|].
  cbn in *. destruct b.
  - destruct (Js.is_lower c || Js.is_digit c); [now apply IH|].
    destruct (Ascii.eqb c "_"); [|discriminate].
    apply orb_true_iff in H as [H|H]; apply orb_true_iff;
      [left; now apply Hacc|right; now apply IH].
  - destruct (Js.is_lower c); [now apply IH|discriminate].
Qed.

(** A name that one of the anchored expressions takes is taken by the
    expression of [group], with its digits as the number. *)
Lemma generator_name_stem (tails : list string) (name : string) :
  (forall t, In t tails -> String.prefix "table" t = true) ->
  generator_name tails name = true ->
  stem_here name = Some (fst (Js.span_digits name)).
Proof.
  intros Htails. unfold generator_name, stem_here.
  destruct (Js.span_digits name) as [ds r]. cbn [fst].
  intros H. apply andb_true_iff in H as (Hds & H).
  apply negb_true_iff in Hds. rewrite Hds.
  destruct (Js.drop_prefix "_generate_" r) as [t|]; [|discriminate].
  rewrite (snake_then_weaken
             (fun x => existsb (String.eqb x) tails) (String.prefix "table")).
  - reflexivity.
  - intros x Hx. apply existsb_exists in Hx as (t0 & Hin & E).
    apply String.eqb_eq in E. subst. now apply Htails.
  - exact H.
Qed.

Lemma append_assoc (a b c : string) : ((a ++ b) ++ c = a ++ b ++ c)%string.
Proof. induction a as [|x a IH]; cbn; [reflexivity|now rewrite IH]. Qed.

Lemma stem_match_suffix (pre name ds : string) :
  stem_here name = Some ds -> stem_match (pre ++ name) <> None.
Proof.
  intros H. induction pre as [|c pre IH].
  - cbn [append]. destruct name; cbn [stem_match]; rewrite H; discriminate.
  - cbn [append stem_match].
    destruct (stem_here (String c (pre ++ name))); [discriminate|exact IH].
Qed.

(** Every path of a directory entry that [collectPaths] lets through
    has a match for the expression of [group]. *)
Lemma valid_entry_has_stem (dir file : string) (m : bool) :
  negb (isFile file) && negb (m && isMappedFile file) = false ->
  stem_match (Js.resolvePath dir file) <> None.
Proof.
  intros H. unfold Js.resolvePath.
  rewrite <- (append_assoc dir "/" file).
  assert (Hs : exists ds, stem_here file = Some ds).
  { destruct (isFile file) eqn:Hf.
    - eexists. apply (generator_name_stem ["table.ts"; "table.js"]); [|exact Hf].
      intros t [<-|[<-|[]]]; reflexivity.
    - destruct m; cbn in H; [|discriminate].
      apply negb_false_iff in H.
      eexists. apply (generator_name_stem ["table.js.map"; "table.d.ts"]); [|exact H].
      intros t [<-|[<-|[]]]; reflexivity. }
  destruct Hs as (ds & Hs). exact (stem_match_suffix _ _ _ Hs).
Qed.

Lemma collectPaths_have_stems (dir : string) (m : bool) (s s1 : state)
      (paths : list string) :
  GeneratorHandler.collectPaths dir m s = (Resolved paths, s1) ->
  Forall (fun p => stem_match p <> None) paths.
Proof.
  unfold GeneratorHandler.collectPaths, bind at 1.
  destruct (catch (fs_readdir dir) _ s) as [[result|e|] s0];
    [|discriminate|discriminate].
  destruct result as [|x xs].
  { intros H; injection H as <- _. constructor. }
  set (entries := if m then x :: xs
                  else filter (fun name => negb (isMappedFile name)) (x :: xs)).
  destruct (find _ entries) eqn:Hfind; [discriminate|].
  intros H; injection H as <- _.
  apply Forall_forall. intros p Hp.
  apply in_map_iff in Hp as (file & <- & Hin).
  apply (valid_entry_has_stem dir file m).
  exact (find_none _ _ Hfind _ Hin).
Qed.

Lemma group_loop_total (paths : list string) :
  Forall (fun p => stem_match p <> None) paths ->
  forall st, group_loop paths st <> None.
Proof.
  induction 1 as [|p ps Hp _ IH]; intros st; cbn; [discriminate|].
  destruct (stem_match p); [apply IH|congruence].
Qed.

(** [group] does not throw on the paths that [collectPaths] returns,
    nor on a part of them. *)
Lemma group_total (dir : string) (m : bool) (s s1 : state)
      (paths : list string) (keep : string -> bool) :
  GeneratorHandler.collectPaths dir m s = (Resolved paths, s1) ->
  exists groups, group (filter keep paths) = Some groups.
Proof.
  intros H. apply collectPaths_have_stems in H.
  assert (Hf : Forall (fun p => stem_match p <> None) (filter keep paths)).
  { rewrite Forall_forall in *. intros p Hp. apply filter_In in Hp as (Hp & _).
    now apply H. }
  unfold group.
  pose proof (group_loop_total _ Hf []) as Hne.
  destruct (group_loop (filter keep paths) []); [eauto|congruence].
Qed.

(** [remove(name, path)] after its checks: the reset step, the
    deletions, the renames. *)
Lemma remove_unfold (name dir : string) (s s1 : state)
      (paths : list string) (groups : list (list string)) :
  isSnakeCase name = true -> isFullStr dir = true ->
  GeneratorHandler.collectPaths dir true s = (Resolved paths, s1) ->
  group (filter (fun p => negb (removal_test name p)) paths) = Some groups ->
  filter (removal_test name) paths <> [] ->
  GeneratorHandler.remove name dir s =
    (reset_step dir paths ;;;
     unlink (filter (removal_test name) paths) ;;;
     rename groups ;;;
     resolve (removed_message (filter (removal_test name) paths))) s1.
Proof.
  intros Hn Hd Hc Hg Hu.
  unfold GeneratorHandler.remove. rewrite Hn, Hd. cbn [negb].
  unfold bind at 1. rewrite Hc, Hg.
  destruct (filter (removal_test name) paths) as [|u us] eqn:Hf; [congruence|].
  reflexivity.
Qed.

(** The three steps of [remove], one after the other: each starts only
    when the one before it has resolved. *)
Lemma remove_steps (name dir : string) (s s1 : state)
      (paths : list string) (groups : list (list string)) :
  isSnakeCase name = true -> isFullStr dir = true ->
  GeneratorHandler.collectPaths dir true s = (Resolved paths, s1) ->
  group (filter (fun p => negb (removal_test name p)) paths) = Some groups ->
  filter (removal_test name) paths <> [] ->
  forall r0 s2, reset_step dir paths s1 = (r0, s2) ->
    match r0 with
    | Pending => GeneratorHandler.remove name dir s = (Pending, s2)
    | Rejected e => GeneratorHandler.remove name dir s = (Rejected e, s2)
    | Resolved _ =>
        exists r1 s3,
          unlink (filter (removal_test name) paths) s2 = (r1, s3) /\
          log s3 = (log s2 ++ map EvUnlink (filter (removal_test name) paths))%list /\
          match r1 with
          | Pending => GeneratorHandler.remove name dir s = (Pending, s3)
          | Rejected e => GeneratorHandler.remove name dir s = (Rejected e, s3)
          | Resolved _ =>
              exists r2 s4,
                GeneratorHandler.remove name dir s = (r2, s4) /\
                log s4 = (log s3 ++ map rename_event (renames groups))%list
          end
    end.
Proof.
  intros Hn Hd Hc Hg Hu r0 s2 H0.
  pose proof (remove_unfold _ _ _ _ _ _ Hn Hd Hc Hg Hu) as Hrun.
  unfold bind at 1 in Hrun. rewrite H0 in Hrun.
  destruct r0 as [[]|e|]; [|exact Hrun|exact Hrun].
  pose proof (unlink_log (filter (removal_test name) paths) s2) as Hl.
  destruct (unlink (filter (removal_test name) paths) s2) as [r1 s3] eqn:H1.
  cbn [snd] in Hl. exists r1, s3. split; [reflexivity|]. split; [exact Hl|].
  unfold bind at 1 in Hrun. rewrite H1 in Hrun.
  destruct r1 as [[]|e|]; [|exact Hrun|exact Hrun].
  pose proof (rename_log groups s3) as Hr.
  unfold bind, resolve in Hrun.
  destruct (rename groups s3) as [[[]|e|] s4]; cbn [snd] in Hr;
    eexists; eexists; (split; [exact Hrun|exact Hr]).
Qed.

(** What [reset] sends when the sources of the directory load: one
    DROP TABLE per source, last file first, whatever each of them
    answers, then the DROP TABLE of the generators table; it resolves. *)
Lemma reset_resolved_log (dir : string) (s sa sb : state)
      (sources : list string) (gs : list MegaGenerator) :
  isFullStr dir = true ->
  GeneratorHandler.collectPaths dir false s = (Resolved sources, sa) ->
  GeneratorHandler.collectGenerators (rev sources) sa = (Resolved gs, sb) ->
  Forall2 (fun p g => exported (modules s p) = Some g) (rev sources) gs /\
  exists msg s2,
    GeneratorHandler.reset dir s = (Resolved msg, s2) /\
    log s2 = (log s ++ [EvReaddir dir] ++ map EvRequire (rev sources) ++
              map drop_statement gs ++ [EvRaw "DROP TABLE generators;"])%list /\
    files s2 = files s.
Proof.
  intros Hd Hc Hg.
  pose proof (collectPaths_frame dir false s) as (_ & _ & _ & Hf & Hm & Hl & _).
  rewrite Hc in Hf, Hm, Hl; cbn [snd] in Hf, Hm, Hl.
  destruct (collectGenerators_resolved _ _ _ _ Hg) as (Hne & -> & Hlen).
  split.
  { rewrite <- Hm. destruct (rev sources) as [|p0 rest]; [congruence|].
    exact (collectGenerators_loop_exports _ _ _ _ Hg). }
  unfold GeneratorHandler.reset. rewrite Hd. cbn [negb].
  unfold bind at 1. rewrite Hc.
  destruct (rev sources) as [|p0 rest] eqn:Hrev; [congruence|].
  unfold bind at 1. rewrite Hg. unfold bind, resolve.
  destruct (exec_total gs 0 (records (map EvRequire (p0 :: rest)) sa))
    as (k & Hk & _ & Hl2 & Hf2 & _).
  destruct (GeneratorHandler.exec gs 0 _) as [[k'|e|] s3]; cbn [fst snd] in *;
    [|discriminate|discriminate].
  eexists; eexists. split; [reflexivity|]. split.
  - rewrite Hl2. unfold records; cbn [log]. rewrite Hl.
    now rewrite <- !app_assoc.
  - rewrite Hf2. unfold records; cbn [files]. exact Hf.
Qed.

(** The reset step of [remove] is [reset] itself when the first file is
    not a TypeScript source. *)
Lemma reset_step_runs (dir : string) (first : string) (rest : list string)
      (s s2 : state) (r : promise string) :
  isTsFile (Js.basename first) = false ->
  GeneratorHandler.reset dir s = (r, s2) ->
  reset_step dir (first :: rest) s =
    (match r with
     | Resolved _ => Resolved tt
     | Rejected e => Rejected e
     | Pending => Pending
     end, s2).
Proof.
  intros Hts Hr. unfold reset_step. rewrite Hts. unfold bind. rewrite Hr.
  destruct r; reflexivity.
Qed.

(** C8, as the code has it. Whether [remove] resets depends on the
    first file of the directory alone. When it is a TypeScript source
    ("NN_generate_<table>_table.ts"), nothing is reset: after the
    directory is read, the calls are the deletions, then renames. When
    it is not, [reset] runs first and every deletion and rename comes
    after it; and when the sources of the directory load, the reset
    sends one DROP TABLE per source, last file first, whatever each
    answers, then the DROP TABLE of the generators table, and
    resolves. *)
Theorem remove_resets_unless_first_is_typescript :
  forall (name dir : string) (s s1 : state) (first : string) (rest : list string),
    isSnakeCase name = true ->
    isFullStr dir = true ->
    GeneratorHandler.collectPaths dir true s = (Resolved (first :: rest), s1) ->
    filter (removal_test name) (first :: rest) <> [] ->
    let unlinkPaths := filter (removal_test name) (first :: rest) in
    if isTsFile (Js.basename first)
    then
      exists evs,
        log (snd (GeneratorHandler.remove name dir s)) =
          (log s ++ [EvReaddir dir] ++ map EvUnlink unlinkPaths ++ evs)%list /\
        forallb touches_disk evs = true
    else
      exists r s2,
        GeneratorHandler.reset dir s1 = (r, s2) /\
        (exists before after,
            log s2 = (log s ++ before)%list /\
            existsb touches_disk before = false /\
            log (snd (GeneratorHandler.remove name dir s)) = (log s2 ++ after)%list /\
            forallb touches_disk after = true) /\
        (forall sources sa gs sb,
            GeneratorHandler.collectPaths dir false s1 = (Resolved sources, sa) ->
            GeneratorHandler.collectGenerators (rev sources) sa = (Resolved gs, sb) ->
            Forall2 (fun p g => exported (modules s p) = Some g) (rev sources) gs /\
            is_resolved r = true /\
            log s2 = (log s1 ++ [EvReaddir dir] ++ map EvRequire (rev sources) ++
                      map drop_statement gs ++
                      [EvRaw "DROP TABLE generators;"])%list).
Proof.
  intros name dir s s1 first rest Hn Hd Hc Hu unlinkPaths.
  destruct (group_total dir true s s1 (first :: rest)
              (fun p => negb (removal_test name p)) Hc) as (groups & Hg).
  pose proof (collectPaths_frame dir true s) as (_ & _ & _ & _ & Hm1 & Hl1 & _).
  rewrite Hc in Hl1, Hm1; cbn [snd] in Hl1, Hm1.
  assert (Hdisk_u : forall ps, forallb touches_disk (map EvUnlink ps) = true)
    by (induction ps; [reflexivity|assumption]).
  assert (Hdisk_r : forall ops, forallb touches_disk (map rename_event ops) = true)
    by (induction ops; [reflexivity|assumption]).
  pose proof (remove_steps _ _ _ _ _ _ Hn Hd Hc Hg Hu) as Hsteps.
  destruct (isTsFile (Js.basename first)) eqn:Hts.
  - specialize (Hsteps (Resolved tt) s1).
    destruct Hsteps as (r1 & s3 & _ & Hl3 & Hrest).
    { unfold reset_step. now rewrite Hts. }
    fold unlinkPaths in Hl3.
    destruct r1 as [[]|e|].
    + destruct Hrest as (r2 & s4 & Hrun & Hl4).
      exists (map rename_event (renames groups)).
      rewrite Hrun; cbn [snd]. rewrite Hl4, Hl3, Hl1.
      split; [now rewrite <- !app_assoc|apply Hdisk_r].
    + exists []. rewrite Hrest; cbn [snd]. rewrite Hl3, Hl1.
      split; [now rewrite app_nil_r, <- !app_assoc|reflexivity].
    + exists []. rewrite Hrest; cbn [snd]. rewrite Hl3, Hl1.
      split; [now rewrite app_nil_r, <- !app_assoc|reflexivity].
  - destruct (GeneratorHandler.reset dir s1) as [r s2] eqn:Hr.
    exists r, s2. split; [reflexivity|].
    destruct (reset_frame _ _ _ _ Hr) as (_ & evs & Hl2 & Hno).
    specialize (Hsteps _ s2 (reset_step_runs dir first rest s1 s2 r Hts Hr)).
    split.
    + exists ([EvReaddir dir] ++ evs)%list.
      assert (Hbefore : log s2 = (log s ++ [EvReaddir dir] ++ evs)%list)
        by (rewrite Hl2, Hl1; now rewrite <- app_assoc).
      assert (Hno' : existsb touches_disk ([EvReaddir dir] ++ evs) = false)
        by exact Hno.
      destruct r as [msg|e|].
      * destruct Hsteps as (r1 & s3 & _ & Hl3 & Hrest).
        fold unlinkPaths in Hl3.
        destruct r1 as [[]|e|].
        -- destruct Hrest as (r2 & s4 & Hrun & Hl4).
           exists (map EvUnlink unlinkPaths ++ map rename_event (renames groups))%list.
           rewrite Hrun; cbn [snd]. rewrite Hl4, Hl3.
           repeat split; [exact Hbefore|exact Hno'|now rewrite <- app_assoc|].
           rewrite forallb_app, Hdisk_u, Hdisk_r. reflexivity.
        -- exists (map EvUnlink unlinkPaths).
           rewrite Hrest; cbn [snd]. rewrite Hl3.
           repeat split; [exact Hbefore|exact Hno'|apply Hdisk_u].
        -- exists (map EvUnlink unlinkPaths).
           rewrite Hrest; cbn [snd]. rewrite Hl3.
           repeat split; [exact Hbefore|exact Hno'|apply Hdisk_u].
      * exists []. rewrite Hsteps; cbn [snd].
        repeat split; [exact Hbefore|exact Hno'|now rewrite app_nil_r].
      * exists []. rewrite Hsteps; cbn [snd].
        repeat split; [exact Hbefore|exact Hno'|now rewrite app_nil_r].
    + intros sources sa gs sb Hcs Hgs.
      destruct (reset_resolved_log _ _ _ _ _ _ Hd Hcs Hgs)
        as (Hexp & msg & s2' & Hr' & Hlog & _).
      rewrite Hr in Hr'. injection Hr' as -> ->.
      rewrite Hm1 in Hexp.
      split; [exact Hexp|]. split; [reflexivity|exact Hlog].
Qed.

(** A directory of three JavaScript generators: the reset comes first
    and drops the three tables, last file first, then the generators
    table. *)
Lemma remove_resets_unless_first_is_typescript_witness :
  let s := Sample.world Sample.three Fulfils Fulfils in
  let s1 := snd (GeneratorHandler.collectPaths Sample.dir true s) in
  exists r s2,
    GeneratorHandler.reset Sample.dir s1 = (r, s2) /\
    is_resolved r = true /\
    log s2 = [EvReaddir Sample.dir; EvReaddir Sample.dir;
              EvRequire Sample.products_js; EvRequire Sample.profiles_js;
              EvRequire Sample.users_js;
              EvRaw "DROP TABLE products;"; EvRaw "DROP TABLE profiles;";
              EvRaw "DROP TABLE users;"; EvRaw "DROP TABLE generators;"].
Proof.
  intros s s1.
  pose proof (remove_resets_unless_first_is_typescript
                "users" Sample.dir s s1 Sample.users_js
                [Sample.profiles_js; Sample.products_js]
                eq_refl eq_refl) as H.
  assert (Hc : GeneratorHandler.collectPaths Sample.dir true s
               = (Resolved [Sample.users_js; Sample.profiles_js; Sample.products_js], s1))
    by (vm_compute; reflexivity).
  assert (Hu : filter (removal_test "users")
                      [Sample.users_js; Sample.profiles_js; Sample.products_js] <> [])
    by (vm_compute; discriminate).
  specialize (H Hc Hu). cbv zeta in H.
  change (isTsFile (Js.basename Sample.users_js)) with false in H.
  cbv iota in H.
  destruct H as (r & s2 & Hr & _ & Hshape).
  exists r, s2. split; [exact Hr|].
  destruct (Hshape Sample.three
              (snd (GeneratorHandler.collectPaths Sample.dir false s1))
              [Sample.generator "products" Fulfils Fulfils;
               Sample.generator "profiles" Fulfils Fulfils;
               Sample.generator "users" Fulfils Fulfils]
              (snd (GeneratorHandler.collectGenerators (rev Sample.three)
                      (snd (GeneratorHandler.collectPaths Sample.dir false s1)))))
    as (_ & Hres & Hlog).
  - vm_compute; reflexivity.
  - vm_compute; reflexivity.
  - split; [exact Hres|]. rewrite Hlog. vm_compute. reflexivity.
Defined.

(** C8 as it is worded fails both ways. A directory that holds one
    TypeScript source has a plain source file, and [remove] deletes it
    without any reset: the directory is read, the file is deleted. A
    directory that holds compiled artefacts only has no plain source
    file, and [remove] does call [reset], which reads the directory
    again, finds nothing to reset and makes [remove] reject with every
    file still there. And where the reset runs, it drops the table of
    the file that is about to be deleted along with the others. *)
Lemma reset_follows_first_file_not_sources :
  (let s := Sample.world [Sample.users_ts] Fulfils Fulfils in
   existsb (fun p => isFile (Js.basename p)) [Sample.users_ts] = true /\
   existsb (fun p => isMappedFile (Js.basename p)) [Sample.users_ts] = false /\
   is_resolved (fst (GeneratorHandler.remove "users" Sample.dir s)) = true /\
   log (snd (GeneratorHandler.remove "users" Sample.dir s))
     = [EvReaddir Sample.dir; EvUnlink Sample.users_ts])
  /\
  (let fs := [Sample.users_d_ts; Sample.users_js_map] in
   let s := Sample.world fs Fulfils Fulfils in
   existsb (fun p => isFile (Js.basename p)) fs = false /\
   forallb (fun p => isMappedFile (Js.basename p)) fs = true /\
   fst (GeneratorHandler.remove "users" Sample.dir s)
     = Rejected (GeneratorHandlerError "Nothing to reset") /\
   log (snd (GeneratorHandler.remove "users" Sample.dir s))
     = [EvReaddir Sample.dir; EvReaddir Sample.dir] /\
   files (snd (GeneratorHandler.remove "users" Sample.dir s)) = fs)
  /\
  (let s := Sample.world [Sample.users_js; Sample.profiles_js] Fulfils Fulfils in
   log (snd (GeneratorHandler.remove "users" Sample.dir s))
     = [EvReaddir Sample.dir; EvReaddir Sample.dir;
        EvRequire Sample.profiles_js; EvRequire Sample.users_js;
        EvRaw "DROP TABLE profiles;"; EvRaw "DROP TABLE users;";
        EvRaw "DROP TABLE generators;";
        EvUnlink Sample.users_js;
        EvRename Sample.profiles_js
                 "/app/generators/01_generate_profiles_table.js"]).
Proof.
  split; [|split]; repeat split; vm_compute; reflexivity.
Qed.

(** C10. In a [remove] whose reset step runs (the first file is not a
    TypeScript source): the reset changes no file; when it rejects,
    [remove] rejects with the same error in the state the reset left,
    no deletion and no rename asked for; when it resolves, every file
    to delete is asked to be deleted, after the calls of the reset; and
    the renames are asked for only when all the deletions have
    resolved, after them. *)
Theorem remove_touches_disk_only_after_reset :
  forall (name dir : string) (s s1 s2 : state) (first : string)
         (rest : list string) (r : promise string),
    isSnakeCase name = true ->
    isFullStr dir = true ->
    GeneratorHandler.collectPaths dir true s = (Resolved (first :: rest), s1) ->
    filter (removal_test name) (first :: rest) <> [] ->
    isTsFile (Js.basename first) = false ->
    GeneratorHandler.reset dir s1 = (r, s2) ->
    let unlinkPaths := filter (removal_test name) (first :: rest) in
    files s2 = files s /\
    (exists evs, log s2 = (log s ++ evs)%list /\ existsb touches_disk evs = false) /\
    match r with
    | Pending => GeneratorHandler.remove name dir s = (Pending, s2)
    | Rejected e => GeneratorHandler.remove name dir s = (Rejected e, s2)
    | Resolved _ =>
        exists r1 s3,
          unlink unlinkPaths s2 = (r1, s3) /\
          log s3 = (log s2 ++ map EvUnlink unlinkPaths)%list /\
          match r1 with
          | Pending => GeneratorHandler.remove name dir s = (Pending, s3)
          | Rejected e => GeneratorHandler.remove name dir s = (Rejected e, s3)
          | Resolved _ =>
              exists groups r2 s4,
                group (filter (fun p => negb (removal_test name p)) (first :: rest))
                  = Some groups /\
                GeneratorHandler.remove name dir s = (r2, s4) /\
                log s4 = (log s3 ++ map rename_event (renames groups))%list
          end
    end.
Proof.
  intros name dir s s1 s2 first rest r Hn Hd Hc Hu Hts Hr unlinkPaths.
  destruct (group_total dir true s s1 (first :: rest)
              (fun p => negb (removal_test name p)) Hc) as (groups & Hg).
  pose proof (collectPaths_frame dir true s) as (_ & _ & _ & Hf1 & _ & Hl1 & _).
  rewrite Hc in Hl1, Hf1; cbn [snd] in Hl1, Hf1.
  destruct (reset_frame _ _ _ _ Hr) as (Hf2 & evs & Hl2 & Hno).
  split; [congruence|]. split.
  { exists ([EvReaddir dir] ++ evs)%list. split; [|exact Hno].
    rewrite Hl2, Hl1. now rewrite <- app_assoc. }
  pose proof (remove_steps _ _ _ _ _ _ Hn Hd Hc Hg Hu _ s2
                (reset_step_runs dir first rest s1 s2 r Hts Hr)) as Hsteps.
  destruct r as [msg|e|]; [|exact Hsteps|exact Hsteps].
  destruct Hsteps as (r1 & s3 & Hun & Hl3 & Hrest).
  exists r1, s3. split; [exact Hun|]. split; [exact Hl3|].
  destruct r1 as [[]|e|]; [|exact Hrest|exact Hrest].
  destruct Hrest as (r2 & s4 & Hrun & Hl4).
  exists groups, r2, s4. auto.
Qed.

(** The reset of a [remove] is made to fail: a file of the directory
    does not load. [remove] rejects with the error of the reset and the
    three files are still there. *)
Lemma remove_touches_disk_only_after_reset_witness :
  let broken := "/app/generators/04_generate_orders_table.js" in
  let fs := (Sample.three ++ [broken])%list in
  let s := Sample.world fs Fulfils Fulfils in
  let s1 := snd (GeneratorHandler.collectPaths Sample.dir true s) in
  let s2 := snd (GeneratorHandler.reset Sample.dir s1) in
  let e := GeneratorHandlerError ("Cannot find module " ++ broken) in
  files s2 = fs /\
  GeneratorHandler.remove "users" Sample.dir s = (Rejected e, s2).
Proof.
  intros broken fs s s1 s2 e.
  destruct (remove_touches_disk_only_after_reset
              "users" Sample.dir s s1 s2 Sample.users_js
              [Sample.profiles_js; Sample.products_js; broken]
              (Rejected e))
    as (Hfiles & _ & Hrun).
  - reflexivity.
  - reflexivity.
  - vm_compute; reflexivity.
  - vm_compute; discriminate.
  - vm_compute; reflexivity.
  - vm_compute; reflexivity.
  - split; [exact Hfiles|exact Hrun].
Defined.

(* ------------------------------------------------------------------ *)
(** ** Grouping by number                                               *)
(* ------------------------------------------------------------------ *)

Lemma push_get (st : storage) (k p k' : string) :
  get (push st k p) k' =
    if String.eqb k k' then (get st k ++ [p])%list else get st k'.
Proof.
  unfold get. induction st as [|[k0 v] rest IH]; cbn.
  - destruct (String.eqb k k'); reflexivity.
  - destruct (String.eqb_spec k0 k) as [->|Hne]; cbn.
    + destruct (String.eqb k k'); reflexivity.
    + destruct (String.eqb_spec k0 k') as [<-|Hne']; [|exact IH].
      destruct (String.eqb_spec k k0) as [->|_]; [congruence|reflexivity].
Qed.

Lemma push_keys (st : storage) (k p : string) :
  map fst (push st k p) =
    if Js.includes (map fst st) k then map fst st else (map fst st ++ [k])%list.
Proof.
  unfold Js.includes. induction st as [|[k0 v] rest IH]; cbn; [reflexivity|].
  rewrite (String.eqb_sym k k0).
  destruct (String.eqb k0 k); cbn; [reflexivity|].
  rewrite IH. destruct (existsb (String.eqb k) (map fst rest)); reflexivity.
Qed.

(** The object built by the loop of [group]: under each number the
    paths that have it, in the order they came; one property per number
    met. *)
Lemma group_loop_spec (paths : list string) :
  forall st st' : storage,
    group_loop paths st = Some st' ->
    (forall k, get st' k = (get st k ++ filter (stem_is k) paths)%list) /\
    (forall k, In k (map fst st') <->
               In k (map fst st) \/ exists p, In p paths /\ stem_match p = Some k) /\
    (NoDup (map fst st) -> NoDup (map fst st')).
Proof.
  induction paths as [|p rest IH]; intros st st' H.
  - cbn in H. injection H as <-. split; [|split].
    + intros k. cbn. now rewrite app_nil_r.
    + intros k. split; [now left|]. intros [H|(p & [] & _)]. exact H.
    + auto.
  - cbn [group_loop] in H.
    destruct (stem_match p) as [number|] eqn:Hp; [|discriminate].
    destruct (IH _ _ H) as (Hget & Hkeys & Hnd). split; [|split].
    + intros k. rewrite Hget, push_get. cbn [filter]. unfold stem_is at 2.
      rewrite Hp. destruct (String.eqb_spec number k) as [->|Hne].
      * rewrite <- app_assoc. reflexivity.
      * reflexivity.
    + intros k. rewrite Hkeys, push_keys.
      destruct (Js.includes (map fst st) number) eqn:Hin.
      * apply includes_In in Hin. split.
        -- intros [H1|(q & Hq & Hs)]; [now left|right; exists q; split; [now right|exact Hs]].
        -- intros [H1|(q & [<-|Hq] & Hs)]; [now left| |right; eauto].
           left. congruence.
      * rewrite in_app_iff. cbn [In]. split.
        -- intros [[H1|[<-|[]]]|(q & Hq & Hs)];
             [now left|right; exists p; split; [now left|exact Hp]
             |right; exists q; split; [now right|exact Hs]].
        -- intros [H1|(q & [<-|Hq] & Hs)]; [left; now left| |right; eauto].
           left. right. left. congruence.
    + intros Hst. apply Hnd. rewrite push_keys.
      destruct (Js.includes (map fst st) number) eqn:Hin; [exact Hst|].
      apply includes_false in Hin.
      apply NoDup_app; [exact Hst|repeat constructor; intros []|].
      intros x Hx [<-|[]]. contradiction.
Qed.

Lemma insert_key_perm (k : string) (l : list string) :
  Permutation (insert_key k l) (k :: l).
Proof.
  induction l as [|x l IH]; cbn; [reflexivity|].
  destruct (Js.parseInt k <=? Js.parseInt x)%N; [reflexivity|].
  rewrite IH. apply perm_swap.
Qed.

Lemma sort_keys_perm (l : list string) : Permutation (sort_keys l) l.
Proof.
  induction l as [|x l IH]; cbn; [reflexivity|].
  rewrite insert_key_perm. now constructor.
Qed.

Lemma insert_key_sorted (k : string) (l : list string) :
  Sorted key_le l -> Sorted key_le (insert_key k l).
Proof.
  induction l as [|x l IH]; intros Hs; cbn.
  - repeat constructor.
  - destruct (N.leb_spec (Js.parseInt k) (Js.parseInt x)) as [Hle|Hgt].
    + constructor; [exact Hs|]. constructor. exact Hle.
    + inversion Hs as [|? ? Hl Hhd]; subst.
      constructor; [now apply IH|].
      destruct l as [|y l]; cbn.
      * constructor. unfold key_le. lia.
      * destruct (Js.parseInt k <=? Js.parseInt y)%N.
        -- constructor. unfold key_le. lia.
        -- inversion Hhd; subst. now constructor.
Qed.

Lemma sort_keys_sorted (l : list string) : Sorted key_le (sort_keys l).
Proof.
  induction l as [|x l IH]; cbn; [constructor|now apply insert_key_sorted].
Qed.

Lemma filter_split_perm {A} (f : A -> bool) (l : list A) :
  Permutation (filter f l ++ filter (fun x => negb (f x)) l) l.
Proof.
  induction l as [|x l IH]; cbn; [reflexivity|].
  destruct (f x); cbn.
  - now constructor.
  - rewrite <- Permutation_middle. now constructor.
Qed.

Lemma Object_keys_perm (st : storage) : Permutation (Object_keys st) (map fst st).
Proof.
  unfold Object_keys. rewrite sort_keys_perm. apply filter_split_perm.
Qed.

(** What [group] returns: one group per number met in the paths, the
    numbers being those that the expression of [group] reads in each
    whole path; a group holds the paths of its number in the order they
    came; the groups are in ascending order of their numbers. *)
Lemma group_spec (paths : list string) (groups : list (list string)) :
  group paths = Some groups ->
  exists keys : list string,
    groups = map (fun k => filter (stem_is k) paths) keys /\
    NoDup keys /\
    (forall k, In k keys <-> exists p, In p paths /\ stem_match p = Some k) /\
    Sorted key_le keys.
Proof.
  unfold group. destruct (group_loop paths []) as [st|] eqn:Hloop; [|discriminate].
  intros H; injection H as <-.
  destruct (group_loop_spec _ _ _ Hloop) as (Hget & Hkeys & Hnd).
  exists (sort_keys (Object_keys st)).
  assert (Hperm : Permutation (sort_keys (Object_keys st)) (map fst st))
    by (rewrite sort_keys_perm; apply Object_keys_perm).
  split; [|split; [|split]].
  - apply map_ext. intros k. now rewrite Hget.
  - apply (Permutation_NoDup (l := map fst st)); [now symmetry|].
    apply Hnd. constructor.
  - intros k. split.
    + intros Hin. apply (Permutation_in _ Hperm) in Hin.
      apply Hkeys in Hin as [[]|Hin]. exact Hin.
    + intros Hp. apply (Permutation_in _ (Permutation_sym Hperm)).
      apply Hkeys. now right.
  - apply sort_keys_sorted.
Qed.

(** The renames asked for: the paths of the group at index [i], each to
    the number [i + 1] written with two digits at least, in front of
    what follows the digits of its name, in its directory. *)
Lemma rename_from_spec (groups : list (list string)) :
  forall (start : nat) (op : string * string),
    In op (rename_from start groups) <->
    exists i g p,
      nth_error groups i = Some g /\ In p g /\
      op = (p, Js.dirname p ++ "/"
                 ++ Js.padStart 2 "0"%char (Js.toString (start + i + 1))
                 ++ snd (Js.span_digits (Js.basename p))).
Proof.
  induction groups as [|g gs IH]; intros start op; cbn [rename_from].
  - split; [intros []|intros (i & g & p & H & _)]. destruct i; discriminate.
  - rewrite in_app_iff, IH, in_map_iff. split.
    + intros [(p & <- & Hp)|(i & g' & p & Hn & Hp & ->)].
      * exists 0%nat, g, p. rewrite Nat.add_0_r. repeat split; auto.
      * exists (S i), g', p. repeat split; auto.
        now replace (start + S i + 1)%nat with (S start + i + 1)%nat by lia.
    + intros (i & g' & p & Hn & Hp & ->). destruct i as [|i]; cbn in Hn.
      * injection Hn as <-. left. exists p. rewrite Nat.add_0_r. split; auto.
      * right. exists i, g', p. repeat split; auto.
        now replace (start + S i + 1)%nat with (S start + i + 1)%nat by lia.
Qed.

Lemma renames_spec (groups : list (list string)) (op : string * string) :
  In op (renames groups) <->
  exists i g p,
    nth_error groups i = Some g /\ In p g /\
    op = (p, Js.dirname p ++ "/"
               ++ Js.padStart 2 "0"%char (Js.toString (i + 1))
               ++ snd (Js.span_digits (Js.basename p))).
Proof. apply (rename_from_spec groups 0). Qed.

(** Twelve files: the keys "10", "11" and "12" are array indices and
    come first among the keys of the object, the sort puts them last. *)
Example group_sorts_by_number :
  let f (n : string) := ("/g/" ++ n ++ "_generate_t_table.js")%string in
  group (map f ["01"; "02"; "03"; "04"; "05"; "06"; "07"; "08"; "09";
                "10"; "11"; "12"])
  = Some (map (fun n => [f n])
              ["01"; "02"; "03"; "04"; "05"; "06"; "07"; "08"; "09";
               "10"; "11"; "12"]) /\
  Object_keys [("01", []); ("02", []); ("10", []); ("11", [])]
  = ["10"; "11"; "01"; "02"].
Proof. split; vm_compute; reflexivity. Qed.

(** A compiled directory: the three files of a number stay together and
    move to the number before, the tenth file becomes the ninth. *)
Example renames_keep_name_and_extension :
  renames [["/g/02_generate_a_table.d.ts"; "/g/02_generate_a_table.js";
            "/g/02_generate_a_table.js.map"];
           ["/g/10_generate_b_c_table.js"]]
  = [("/g/02_generate_a_table.d.ts", "/g/01_generate_a_table.d.ts");
     ("/g/02_generate_a_table.js", "/g/01_generate_a_table.js");
     ("/g/02_generate_a_table.js.map", "/g/01_generate_a_table.js.map");
     ("/g/10_generate_b_c_table.js", "/g/02_generate_b_c_table.js")].
Proof. vm_compute; reflexivity. Qed.

(* ------------------------------------------------------------------ *)
(** ** A directory whose path has no generator in it                    *)
(* ------------------------------------------------------------------ *)

Lemma span_digits_slash (x z : string) :
  Js.span_digits (x ++ String "/" z) =
    (fst (Js.span_digits x), snd (Js.span_digits x) ++ String "/" z).
Proof.
  induction x as [|c x IH]; [reflexivity|].
  cbn [append Js.span_digits]. destruct (Js.is_digit c); [|reflexivity].
  rewrite IH. destruct (Js.span_digits x). reflexivity.
Qed.

Lemma drop_prefix_slash (p : string) :
  no_slash p = true ->
  forall x z : string,
    Js.drop_prefix p (x ++ String "/" z) =
      match Js.drop_prefix p x with
      | Some t => Some (t ++ String "/" z)
      | None => None
      end.
Proof.
  induction p as [|a p IH]; intros Hp x z; [reflexivity|].
  cbn in Hp. apply andb_true_iff in Hp as (Ha & Hp).
  destruct x as [|b x]; cbn [append Js.drop_prefix].
  - apply negb_true_iff in Ha. now rewrite Ha.
  - destruct (Ascii.eqb a b); [now apply IH|reflexivity].
Qed.

Lemma prefix_slash (p : string) :
  no_slash p = true ->
  forall x z z' : string,
    String.prefix p (x ++ String "/" z) = String.prefix p (x ++ String "/" z').
Proof.
  induction p as [|a p IH]; intros Hp x z z'; [now destruct x|].
  cbn in Hp. apply andb_true_iff in Hp as (Ha & Hp).
  apply negb_true_iff, Ascii.eqb_neq in Ha.
  destruct x as [|b x]; cbn [append String.prefix].
  - destruct (ascii_dec a "/"); [contradiction|reflexivity].
  - destruct (ascii_dec a b); [now apply IH|reflexivity].
Qed.

Lemma snake_then_slash (x : string) :
  forall (b : bool) (z z' : string),
    snake_then (String.prefix "table") b (x ++ String "/" z) =
    snake_then (String.prefix "table") b (x ++ String "/" z').
Proof.
  induction x as [|c x IH]; intros b z z'.
  - destruct b; reflexivity.
  - cbn [append snake_then]. destruct b.
    + destruct (Js.is_lower c || Js.is_digit c); [apply IH|].
      destruct (Ascii.eqb c "_"); [|reflexivity].
      rewrite (prefix_slash "table" eq_refl x z z'), (IH false z z'). reflexivity.
    + destruct (Js.is_lower c); [apply IH|reflexivity].
Qed.

(** Whether the expression of [group] matches at the head of a text
    that holds a slash does not depend on what follows the slash. *)
Lemma stem_here_slash (x z z' : string) :
  stem_here (x ++ String "/" z) = stem_here (x ++ String "/" z').
Proof.
  unfold stem_here. rewrite !span_digits_slash.
  destruct (String.eqb (fst (Js.span_digits x)) EmptyString); [reflexivity|].
  rewrite !(drop_prefix_slash "_generate_" eq_refl).
  destruct (Js.drop_prefix "_generate_" (snd (Js.span_digits x))) as [t|];
    [|reflexivity].
  now rewrite (snake_then_slash t false z z').
Qed.

(** In a directory whose path has no match for the expression of
    [group], the number read in the path of a file is the number the
    name of the file starts with. *)
Lemma stem_match_plain_directory (dir name ds : string) :
  stem_match (dir ++ "/") = None ->
  stem_here name = Some ds ->
  stem_match (Js.resolvePath dir name) = Some ds.
Proof.
  unfold Js.resolvePath. intros Hdir Hname.
  change ("/" ++ name) with (String "/" name).
  change (dir ++ "/") with (dir ++ String "/" EmptyString) in Hdir.
  induction dir as [|c d IH].
  - cbn [append]. cbn [stem_match]. change (stem_here (String "/" name)) with (@None string).
    destruct name as [|c n]; [discriminate|]. cbn [stem_match]. now rewrite Hname.
  - cbn [append stem_match] in *.
    change (String c (d ++ String "/" name))
      with (String c d ++ String "/" name).
    rewrite (stem_here_slash (String c d) name EmptyString).
    cbn [append].
    destruct (stem_here (String c (d ++ String "/" EmptyString))); [discriminate|].
    now apply IH.
Qed.

Lemma no_slash_app (a b : string) :
  no_slash (a ++ b) = no_slash a && no_slash b.
Proof.
  induction a as [|c a IH]; [reflexivity|].
  cbn. now rewrite IH, andb_assoc.
Qed.

Lemma span_digits_parts (s : string) :
  s = fst (Js.span_digits s) ++ snd (Js.span_digits s) /\
  no_slash (fst (Js.span_digits s)) = true.
Proof.
  induction s as [|c s (IH1 & IH2)]; [now split|].
  cbn [Js.span_digits]. destruct (Js.is_digit c) eqn:Hc.
  - destruct (Js.span_digits s) as [ds r]. cbn [fst snd append no_slash] in *.
    split; [now rewrite <- IH1|]. rewrite IH2, andb_true_r.
    destruct (Ascii.eqb_spec c "/") as [->|]; [discriminate|reflexivity].
  - now split.
Qed.

Lemma drop_prefix_parts (p s t : string) :
  Js.drop_prefix p s = Some t -> s = p ++ t.
Proof.
  revert s; induction p as [|a p IH]; intros s H.
  - cbn in H. now injection H as ->.
  - destruct s as [|b s]; [discriminate|]. cbn in H.
    destruct (Ascii.eqb_spec a b) as [->|]; [|discriminate].
    cbn. f_equal. now apply IH.
Qed.

Lemma snake_then_no_slash (accept : string -> bool) :
  (forall r, accept r = true -> no_slash r = true) ->
  forall (s : string) (b : bool),
    snake_then accept b s = true -> no_slash s = true.
Proof.
  intros Hacc. induction s as [|c s IH]; intros b H; [reflexivity|].
  cbn in H |- *. destruct b.
  - destruct (Js.is_lower c || Js.is_digit c) eqn:Hc.
    + rewrite (IH _ H), andb_true_r.
      destruct (Ascii.eqb_spec c "/") as [->|]; [discriminate|reflexivity].
    + destruct (Ascii.eqb_spec c "_") as [->|]; [|discriminate]. cbn.
      apply orb_true_iff in H as [H|H]; [now apply Hacc|now apply (IH false)].
  - destruct (Js.is_lower c) eqn:Hc; [|discriminate].
    rewrite (IH _ H), andb_true_r.
    destruct (Ascii.eqb_spec c "/") as [->|]; [discriminate|reflexivity].
Qed.

Lemma generator_name_no_slash (tails : list string) (name : string) :
  (forall t, In t tails -> no_slash t = true) ->
  generator_name tails name = true -> no_slash name = true.
Proof.
  intros Htails. unfold generator_name.
  destruct (span_digits_parts name) as (Hsplit & Hds).
  destruct (Js.span_digits name) as [ds r]. cbn [fst snd] in *.
  intros H. apply andb_true_iff in H as (_ & H).
  destruct (Js.drop_prefix "_generate_" r) as [t|] eqn:Hdrop; [|discriminate].
  apply drop_prefix_parts in Hdrop. subst r name.
  rewrite !no_slash_app, Hds. cbn.
  apply (snake_then_no_slash (fun x => existsb (String.eqb x) tails)) with (b := false);
    [|exact H].
  intros x Hx. apply existsb_exists in Hx as (t0 & Hin & E).
  apply String.eqb_eq in E. subst. now apply Htails.
Qed.

Lemma valid_name_facts (name : string) :
  valid_name name = true ->
  stem_here name = Some (number_of name) /\ no_slash name = true.
Proof.
  unfold valid_name. intros H. apply orb_true_iff in H as [H|H].
  - split.
    + apply (generator_name_stem ["table.ts"; "table.js"]); [|exact H].
      intros t [<-|[<-|[]]]; reflexivity.
    + apply (generator_name_no_slash ["table.ts"; "table.js"]); [|exact H].
      intros t [<-|[<-|[]]]; reflexivity.
  - split.
    + apply (generator_name_stem ["table.js.map"; "table.d.ts"]); [|exact H].
      intros t [<-|[<-|[]]]; reflexivity.
    + apply (generator_name_no_slash ["table.js.map"; "table.d.ts"]); [|exact H].
      intros t [<-|[<-|[]]]; reflexivity.
Qed.

Lemma basename_aux_no_slash (n : string) :
  no_slash n = true -> Js.basename_aux n = (n, false).
Proof.
  induction n as [|c n IH]; intros H; [reflexivity|].
  cbn in H. apply andb_true_iff in H as (Hc & Hn). apply negb_true_iff in Hc.
  cbn. now rewrite (IH Hn), Hc.
Qed.

Lemma dirname_aux_no_slash (n : string) :
  no_slash n = true -> Js.dirname_aux n = (EmptyString, false).
Proof.
  induction n as [|c n IH]; intros H; [reflexivity|].
  cbn in H. apply andb_true_iff in H as (Hc & Hn). apply negb_true_iff in Hc.
  cbn. now rewrite (IH Hn), Hc.
Qed.

(** [basename] and [dirname] take a resolved path apart again. *)
Lemma basename_resolvePath (dir name : string) :
  no_slash name = true -> Js.basename (Js.resolvePath dir name) = name.
Proof.
  intros Hn. unfold Js.basename, Js.resolvePath.
  change ("/" ++ name) with (String "/" name).
  induction dir as [|c d IH]; cbn [append Js.basename_aux].
  - now rewrite (basename_aux_no_slash _ Hn).
  - destruct (Js.basename_aux (d ++ String "/" name)) as [b found] eqn:E.
    cbn [fst] in IH.
    assert (found = true).
    { clear IH. revert b found E. induction d as [|c' d' IHd]; intros b found E.
      - cbn in E. rewrite (basename_aux_no_slash _ Hn) in E. cbn in E. congruence.
      - cbn [append Js.basename_aux] in E.
        destruct (Js.basename_aux (d' ++ String "/" name)) as [b' f'] eqn:E'.
        rewrite (IHd _ _ eq_refl) in E. congruence. }
    subst found. exact IH.
Qed.

Lemma dirname_aux_resolvePath (dir name : string) :
  no_slash name = true ->
  Js.dirname_aux (dir ++ String "/" name) = (dir, true).
Proof.
  intros Hn. induction dir as [|c d IH]; cbn [append Js.dirname_aux].
  - now rewrite (dirname_aux_no_slash _ Hn).
  - now rewrite IH.
Qed.

Lemma dirname_resolvePath (dir name : string) :
  dir <> EmptyString -> no_slash name = true ->
  Js.dirname (Js.resolvePath dir name) = dir.
Proof.
  intros Hd Hn. unfold Js.dirname, Js.resolvePath.
  change ("/" ++ name) with (String "/" name).
  rewrite (dirname_aux_resolvePath dir name Hn).
  destruct dir; [congruence|reflexivity].
Qed.

Lemma stem_is_resolvePath (dir name k : string) :
  stem_match (dir ++ "/") = None ->
  valid_name name = true ->
  stem_is k (Js.resolvePath dir name) = String.eqb (number_of name) k.
Proof.
  intros Hdir Hv. destruct (valid_name_facts _ Hv) as (Hs & _).
  unfold stem_is. now rewrite (stem_match_plain_directory _ _ _ Hdir Hs).
Qed.

Lemma filter_stem_names (dir k : string) (names : list string) :
  stem_match (dir ++ "/") = None ->
  Forall (fun n => valid_name n = true) names ->
  filter (stem_is k) (map (Js.resolvePath dir) names) =
    map (Js.resolvePath dir) (filter (fun n => String.eqb (number_of n) k) names).
Proof.
  intros Hdir Hv. induction Hv as [|n ns Hn _ IH]; [reflexivity|].
  cbn [map filter]. rewrite (stem_is_resolvePath _ _ _ Hdir Hn).
  destruct (String.eqb (number_of n) k); cbn [map]; now rewrite IH.
Qed.

(** X28. In a directory named by its resolved path, when that path
    has itself no match for the expression of [group] and the numbers
    of the files are safe integers: the files that remain are grouped
    by the number their names start with, the groups come in ascending
    order of these numbers, and the renames asked for are exactly
    these: the file of name [n] in the group at index [i] goes to the
    name made of [i + 1], written with two digits at least, and of what
    follows the number in [n], in the same directory. *)
Theorem renumbering_in_plain_directory :
  forall (dir : string) (names : list string) (groups : list (list string)),
    resolved_path dir = true ->
    stem_match (dir ++ "/") = None ->
    Forall (fun n => valid_name n = true) names ->
    Forall (fun n => safe (number_of n) = true) names ->
    group (map (Js.resolvePath dir) names) = Some groups ->
    exists numbers : list string,
      NoDup numbers /\
      Sorted key_le numbers /\
      (forall k, In k numbers <-> exists n, In n names /\ number_of n = k) /\
      groups =
        map (fun k => map (Js.resolvePath dir)
                          (filter (fun n => String.eqb (number_of n) k) names))
            numbers /\
      (forall op,
          In op (renames groups) <->
          exists i k n,
            nth_error numbers i = Some k /\ In n names /\ number_of n = k /\
            op = (Js.resolvePath dir n,
                  Js.resolvePath dir
                    (Js.padStart 2 "0"%char (Js.toString (i + 1))
                       ++ after_number n))).
Proof.
  intros dir names groups Hres Hdir Hv _ Hg.
  assert (Hd : dir <> EmptyString) by (intros ->; discriminate).
  destruct (group_spec _ _ Hg) as (keys & Hgroups & Hnd & Hkeys & Hsorted).
  assert (Hgroups' :
            groups =
              map (fun k => map (Js.resolvePath dir)
                                (filter (fun n => String.eqb (number_of n) k) names))
                  keys).
  { rewrite Hgroups. apply map_ext. intros k. now apply filter_stem_names. }
  rewrite Forall_forall in Hv.
  exists keys. split; [exact Hnd|]. split; [exact Hsorted|]. split; [|split].
  - intros k. rewrite Hkeys. split.
    + intros (p & Hp & Hs). apply in_map_iff in Hp as (n & <- & Hn).
      exists n. split; [exact Hn|].
      destruct (valid_name_facts _ (Hv _ Hn)) as (Hh & _).
      rewrite (stem_match_plain_directory _ _ _ Hdir Hh) in Hs. congruence.
    + intros (n & Hn & <-). exists (Js.resolvePath dir n).
      split; [now apply in_map|].
      destruct (valid_name_facts _ (Hv _ Hn)) as (Hh & _).
      exact (stem_match_plain_directory _ _ _ Hdir Hh).
  - exact Hgroups'.
  - intros op. rewrite renames_spec. split.
    + intros (i & g & p & Hi & Hp & ->).
      rewrite Hgroups' in Hi. rewrite nth_error_map in Hi.
      destruct (nth_error keys i) as [k|] eqn:Hk; [|discriminate].
      cbn in Hi. injection Hi as <-.
      apply in_map_iff in Hp as (n & <- & Hn).
      apply filter_In in Hn as (Hn & E). apply String.eqb_eq in E.
      exists i, k, n. repeat split; auto.
      destruct (valid_name_facts _ (Hv _ Hn)) as (_ & Hns).
      rewrite (dirname_resolvePath _ _ Hd Hns), (basename_resolvePath _ _ Hns).
      reflexivity.
    + intros (i & k & n & Hi & Hn & Hk & ->).
      exists i, (map (Js.resolvePath dir)
                     (filter (fun n => String.eqb (number_of n) k) names)),
             (Js.resolvePath dir n).
      split; [|split].
      * rewrite Hgroups', nth_error_map, Hi. reflexivity.
      * apply in_map, filter_In. split; [exact Hn|now apply String.eqb_eq].
      * destruct (valid_name_facts _ (Hv _ Hn)) as (_ & Hns).
        rewrite (dirname_resolvePath _ _ Hd Hns), (basename_resolvePath _ _ Hns).
        reflexivity.
Qed.

(** The directory of the samples, after the file of [users] is gone. *)
Lemma renumbering_in_plain_directory_witness :
  exists numbers : list string,
    NoDup numbers /\ Sorted key_le numbers /\
    forall op,
      In op (renames [[Sample.profiles_js]; [Sample.products_js]]) <->
      exists i k n,
        nth_error numbers i = Some k /\
        In n ["02_generate_profiles_table.js"; "03_generate_products_table.js"] /\
        number_of n = k /\
        op = (Js.resolvePath Sample.dir n,
              Js.resolvePath Sample.dir
                (Js.padStart 2 "0"%char (Js.toString (i + 1)) ++ after_number n)).
Proof.
  destruct (renumbering_in_plain_directory
              Sample.dir
              ["02_generate_profiles_table.js"; "03_generate_products_table.js"]
              [[Sample.profiles_js]; [Sample.products_js]])
    as (numbers & Hnd & Hs & _ & _ & Hops).
  - reflexivity.
  - vm_compute; reflexivity.
  - repeat constructor.
  - repeat constructor.
  - vm_compute; reflexivity.
  - exists numbers. auto.
Defined.

(* ------------------------------------------------------------------ *)
(** ** Renumbering                                                      *)
(* ------------------------------------------------------------------ *)

(** C7 fails where the directory itself is named like a generator
    file. [group] matches its expression against the whole path, not
    against the name of the file, so the number it reads is the one in
    the name of the directory: the two files that remain fall into one
    group and both are renamed to number 01, where the files of
    "/app/generators" become 01 and 02. *)
Theorem renumbering_reads_number_of_directory :
  stem_match Misnamed.profiles_js = Some "1" /\
  stem_match Misnamed.products_js = Some "1" /\
  group [Misnamed.profiles_js; Misnamed.products_js]
    = Some [[Misnamed.profiles_js; Misnamed.products_js]] /\
  is_resolved (fst (GeneratorHandler.remove "users" Misnamed.dir Misnamed.world)) = true /\
  files (snd (GeneratorHandler.remove "users" Misnamed.dir Misnamed.world))
    = ["/srv/1_generate_x_table/01_generate_profiles_table.js";
       "/srv/1_generate_x_table/01_generate_products_table.js"] /\
  files (snd (GeneratorHandler.remove "users" Sample.dir
                (Sample.world Sample.three Fulfils Fulfils)))
    = ["/app/generators/01_generate_profiles_table.js";
       "/app/generators/02_generate_products_table.js"].
Proof.
  repeat split; vm_compute; reflexivity.
Qed.

(* ================================================================== *)
(** * Further properties of the generator handler                       *)
(* ================================================================== *)

(* ------------------------------------------------------------------ *)
(** ** The last batch, whatever the batches                             *)
(* ------------------------------------------------------------------ *)

(** X1. [lastBatch] is the greatest of 0 and the batches it is given:
    it is not negative, no batch exceeds it, and it is 0 or one of the
    batches; so it is 0 for an empty array, and also for an array of
    negative numbers, none of which it returns. *)
Theorem lastBatch_greatest_of_zero_and_batches :
  forall (bs : list Z) (m : Z),
    lastBatch bs = m <->
    (0 <= m)%Z /\ Forall (fun x => (x <= m)%Z) bs /\ (m = 0%Z \/ In m bs).
Proof.
  intros bs m. split.
  - intros <-. destruct (lastBatch_bounds bs) as (H0 & Hub).
    split; [exact H0|]. split; [exact Hub|].
    destruct bs as [|b bs]; [now left|].
    unfold lastBatch. destruct (fold_last (b :: bs) 0) as (_ & _ & H). exact H.
  - intros (H0 & Hub & Hin). now apply lastBatch_unique.
Qed.

(* ------------------------------------------------------------------ *)
(** ** An undo that fails half-way                                      *)
(* ------------------------------------------------------------------ *)



(* ------------------------------------------------------------------ *)
(** ** A batch that goes through, a batch that does not start           *)
(* ------------------------------------------------------------------ *)

(** A batch whose generators all resolve, with a commit that goes
    through. *)
Lemma run_resolves (d : direction) (paths : list string) (s s0 : state)
      (gs : list MegaGenerator) (rs : list Row) :
  GeneratorHandler.collectGenerators paths s = (Resolved gs, s0) ->
  Forall (fun g => method_of d g = Fulfils) gs ->
  ledger s = Some rs ->
  hd None (faults s) = None ->
  exists s' : state,
    run d paths s =
      (Resolved (GeneratorHandler.count_of paths paths (past d)), s') /\
    ledger s' = Some (committed d paths (next_id s) rs) /\
    log s' = (log s ++ map EvRequire paths ++ map (call_of d) paths ++
              [commit_event d paths])%list.
Proof.
  intros Hgs Hall Hl Hf.
  destruct (collectGenerators_resolved _ _ _ _ Hgs) as (Hne & -> & Hlen).
  rewrite (run_unfold d _ _ _ _ Hgs).
  rewrite each_all.
  2:{ intros p g Hin. rewrite Forall_forall in Hall. apply Hall.
      apply in_combine_r in Hin. exact Hin. }
  rewrite map_fst_combine by (symmetry; exact Hlen). cbn [app].
  set (s1 := records (map (call_of d) paths) (records (map EvRequire paths) s)).
  pose proof (commit_effect d paths s1) as (Hlog & _ & _ & _ & Hcases & Hgo).
  specialize (Hgo rs Hl Hf).
  unfold bind, resolve.
  destruct (commit d paths s1) as [[[]|e|] s2]; cbn [fst snd] in *;
    [|discriminate|discriminate].
  exists s2. split; [reflexivity|].
  destruct Hcases as [(_ & rs0 & Hl0 & Hl')|((e0 & He0) & _)]; [|discriminate].
  unfold s1, records in Hl0; cbn in Hl0. rewrite Hl in Hl0. injection Hl0 as <-.
  split; [exact Hl'|].
  rewrite Hlog. unfold s1, records; cbn. now rewrite <- !app_assoc.
Qed.

(** X3. A batch whose generators all resolve, on a table that is there
    and with a commit that goes through: every [create()] (for an undo,
    every [drop()]) is called, in the order of the paths, then all the
    paths are committed by one query, and the call resolves with the
    count "n/n table(s) created" ("dropped"). *)
Theorem batch_of_resolving_generators_resolves :
  forall (d : direction) (paths : list string) (s s0 : state)
         (gs : list MegaGenerator) (rs : list Row),
    GeneratorHandler.collectGenerators paths s = (Resolved gs, s0) ->
    Forall (fun g => method_of d g = Fulfils) gs ->
    ledger s = Some rs ->
    hd None (faults s) = None ->
    exists s' : state,
      run d paths s =
        (Resolved (GeneratorHandler.count_of paths paths (past d)), s') /\
      ledger s' = Some (committed d paths (next_id s) rs) /\
      log s' = (log s ++ map EvRequire paths ++ map (call_of d) paths ++
                [commit_event d paths])%list.
Proof. intros d paths s s0 gs rs. apply run_resolves. Qed.

(** Three pending files are applied under batch 1. *)
Lemma batch_of_resolving_generators_resolves_witness :
  let s := Sample.world_with [] Sample.three Fulfils Fulfils in
  exists s' : state,
    GeneratorHandler.createTables Sample.three 1 s =
      (Resolved "3/3 tables created", s') /\
    ledger s' = Some [mkRow 1 1 Sample.users_js; mkRow 2 1 Sample.profiles_js;
                      mkRow 3 1 Sample.products_js].
Proof.
  intros s.
  destruct (batch_of_resolving_generators_resolves
              (Apply 1) Sample.three s
              (records (map EvRequire Sample.three) s)
              [Sample.generator "users" Fulfils Fulfils;
               Sample.generator "profiles" Fulfils Fulfils;
               Sample.generator "products" Fulfils Fulfils]
              [])
    as (s' & Hrun & Hl & _).
  - reflexivity.
  - repeat constructor.
  - reflexivity.
  - reflexivity.
  - exists s'. split; [exact Hrun|exact Hl].
Defined.

(** The loop of [collectGenerators] stops at the first path whose
    module gives no generator, after the [require] of the paths up to
    it. *)
Lemma collectGenerators_loop_stops (paths : list string) :
  forall (s : state) (i : nat) (p : string),
    nth_error paths i = Some p ->
    exported (modules s p) = None ->
    (forall j q, (j < i)%nat -> nth_error paths j = Some q ->
                 exported (modules s q) <> None) ->
    GeneratorHandler.collectGenerators_loop paths s =
      (Rejected (load_error p (modules s p)),
       records (map EvRequire (firstn (S i) paths)) s).
Proof.
  induction paths as [|q rest IH]; intros s i p Hp Hbad Hok.
  - destruct i; discriminate.
  - cbn [GeneratorHandler.collectGenerators_loop].
    unfold bind at 1, GeneratorHandler.collectGenerator.
    change (modules (record (EvRequire q) s) q) with (modules s q).
    destruct i as [|i].
    + injection Hp as ->. cbn [firstn map]. rewrite <- record_records.
      destruct (modules s p); try discriminate; reflexivity.
    + cbn in Hp.
      assert (Hq : exported (modules s q) <> None)
        by (apply (Hok 0%nat); [lia|reflexivity]).
      assert (Hrest :
                GeneratorHandler.collectGenerators_loop rest (record (EvRequire q) s) =
                  (Rejected (load_error p (modules s p)),
                   records (map EvRequire (firstn (S i) rest)) (record (EvRequire q) s))).
      { apply (IH (record (EvRequire q) s) i p Hp Hbad).
        intros j q' Hj Hn. apply (Hok (S j)); [lia|exact Hn]. }
      destruct (modules s q); try (now elim Hq);
        unfold bind; rewrite Hrest;
        rewrite record_records, records_records; reflexivity.
Qed.

(** X4. A batch starts only when every file loads: [createTables] and
    [dropTables] first [require] the paths one by one; at the first
    path whose module throws or exports no generator the call rejects
    (with the message of the throw, or "Invalid generator in: path"),
    the later paths are not loaded, no [create()] or [drop()] has been
    called and no query has been sent. *)
Theorem unloadable_generator_stops_batch_before_any_call :
  forall (d : direction) (paths : list string) (s : state) (i : nat) (p : string),
    nth_error paths i = Some p ->
    exported (modules s p) = None ->
    (forall j q, (j < i)%nat -> nth_error paths j = Some q ->
                 exported (modules s q) <> None) ->
    run d paths s =
      (Rejected (load_error p (modules s p)),
       records (map EvRequire (firstn (S i) paths)) s).
Proof.
  intros d paths s i p Hp Hbad Hok.
  assert (H : GeneratorHandler.collectGenerators paths s =
              (Rejected (load_error p (modules s p)),
               records (map EvRequire (firstn (S i) paths)) s)).
  { destruct paths as [|q rest]; [destruct i; discriminate|].
    exact (collectGenerators_loop_stops _ _ _ _ Hp Hbad Hok). }
  destruct d as [b|]; cbn [run];
    unfold GeneratorHandler.createTables, GeneratorHandler.dropTables, bind;
    now rewrite H.
Qed.

(** The directory has a fourth file that does not load: an apply of the
    four paths stops at its [require]; no table is created. *)
Lemma unloadable_generator_stops_batch_before_any_call_witness :
  let broken := "/app/generators/04_generate_orders_table.js" in
  let paths := (Sample.three ++ [broken])%list in
  let s := Sample.world_with [] paths Fulfils Fulfils in
  GeneratorHandler.createTables paths 1 s =
    (Rejected (GeneratorHandlerError ("Cannot find module " ++ broken)),
     records (map EvRequire paths) s).
Proof.
  intros broken paths s.
  apply (unloadable_generator_stops_batch_before_any_call
           (Apply 1) paths s 3 broken).
  - reflexivity.
  - reflexivity.
  - intros [|[|[|j]]] q Hj Hn; try lia; injection Hn as <-; discriminate.
Defined.

(* ------------------------------------------------------------------ *)
(** ** What a batch leaves alone                                        *)
(* ------------------------------------------------------------------ *)

(** The loop over the generators only adds to the log. *)
Lemma each_state (method : MegaGenerator -> returned) (ev : string -> event)
      (what : string) (todo : list (string * MegaGenerator)) :
  forall (done : list string) (s : state),
    exists evs,
      snd (GeneratorHandler.each method ev what todo done s) = records evs s.
Proof.
  induction todo as [|[p g] rest IH]; intros done s.
  - exists []. cbn. now rewrite records_nil.
  - cbn [GeneratorHandler.each].
    destruct (method g); try (exists [ev p]; reflexivity).
    destruct (IH (done ++ [p])%list (record (ev p) s)) as (evs & H).
    exists (ev p :: evs). rewrite H, record_records, records_records. reflexivity.
Qed.

Lemma collectGenerators_files (paths : list string) (s : state) :
  files (snd (GeneratorHandler.collectGenerators paths s)) = files s.
Proof.
  destruct paths as [|p rest]; [reflexivity|].
  exact (proj1 (collectGenerators_loop_frame (p :: rest) s)).
Qed.

(** A batch changes no file. *)
Lemma run_files (d : direction) (paths : list string) (s : state) :
  files (snd (run d paths s)) = files s.
Proof.
  pose proof (collectGenerators_files paths s) as Hf.
  destruct (GeneratorHandler.collectGenerators paths s) as [[gs|e|] s0] eqn:Hgs;
    cbn [snd] in Hf.
  - rewrite (run_unfold d _ _ _ _ Hgs).
    destruct (each_state (method_of d) (call_of d) (method_name d)
                (combine paths gs) [] s0) as (evs & Hs).
    destruct (GeneratorHandler.each (method_of d) (call_of d) (method_name d)
                (combine paths gs) [] s0) as [[outcome done] s1].
    cbn [snd] in Hs. subst s1.
    pose proof (commit_effect d done (records evs s0)) as (_ & _ & Hcf & _).
    destruct outcome as [|e|].
    + unfold bind, resolve.
      destruct (commit d done (records evs s0)) as [[[]|e|] s2]; cbn [snd] in *;
        rewrite Hcf; exact Hf.
    + destruct (0 <? List.length done)%nat; [|exact Hf].
      unfold bind, reject.
      destruct (commit d done (records evs s0)) as [[[]|e'|] s2]; cbn [snd] in *;
        rewrite Hcf; exact Hf.
    + exact Hf.
  - destruct d; cbn [run];
      unfold GeneratorHandler.createTables, GeneratorHandler.dropTables, bind;
      rewrite Hgs; exact Hf.
  - destruct d; cbn [run];
      unfold GeneratorHandler.createTables, GeneratorHandler.dropTables, bind;
      rewrite Hgs; exact Hf.
Qed.

(** What [collectPaths] answers depends on the files and on whether the
    call to the file system goes through. *)
Lemma collectPaths_again (dir : string) (m : bool) (s s' sa : state)
      (paths : list string) :
  GeneratorHandler.collectPaths dir m s = (Resolved paths, sa) ->
  files s' = files s ->
  hd None (faults s') = None ->
  fst (GeneratorHandler.collectPaths dir m s') = Resolved paths.
Proof.
  destruct s as [r l n f md fl lg], s' as [r' l' n' f' md' fl' lg'].
  cbn [files faults]. intros H -> Hf. revert H.
  unfold GeneratorHandler.collectPaths, catch, bind, fs_readdir, call, reject, resolve.
  cbn.
  assert (Hfl' : fl' = [] \/ exists rest, fl' = None :: rest).
  { destruct fl' as [|[e|] rest]; [now left|discriminate|right; eauto]. }
  destruct fl as [|[e|] fl]; cbn; try discriminate;
    destruct Hfl' as [->|(rest & ->)]; cbn;
      (destruct (map Js.basename _) as [|x xs]; cbn;
       [intros H; injection H as <- _; reflexivity|]);
      (destruct (find _ _); cbn; [discriminate|intros H; injection H as <- _; reflexivity]).
Qed.

(** A [generate] that resolves: the plan it followed. *)
Lemma generate_resolved_plan (dir : string) (s s1 : state) (msg : string) :
  (ledger s = None -> rows s = []) ->
  GeneratorHandler.generate dir s = (Resolved msg, s1) ->
  exists (sl sc : state) (allPaths : list string) (n : Z),
    GeneratorHandler.load s = (Resolved tt, sl) /\
    GeneratorHandler.collectPaths dir false sl = (Resolved allPaths, sc) /\
    files s1 = files s /\
    ledger s1 =
      Some (table_rows s ++
            new_rows n
              (map (fun p => (p, lastBatch (map batch (table_rows s)) + 1)%Z)
                   (filter (fun p => negb (Js.includes (map path (table_rows s)) p))
                           allPaths)))%list.
Proof.
  intros Hsync H.
  unfold GeneratorHandler.generate in H.
  destruct (negb (isFullStr dir)); [discriminate|].
  unfold bind at 1 in H.
  destruct (GeneratorHandler.beReadyToGenerate dir s) as [[gen|e|] s2] eqn:Hplan;
    [|discriminate|discriminate].
  unfold GeneratorHandler.beReadyToGenerate, bind at 1 in Hplan.
  destruct (GeneratorHandler.load s) as [[[]|e|] sl] eqn:Hload; [|discriminate|discriminate].
  unfold bind at 1 in Hplan.
  destruct (GeneratorHandler.collectPaths dir false sl) as [[allPaths|e|] sc] eqn:Hcoll;
    [|discriminate|discriminate].
  unfold bind, GeneratorHandler.this_rows in Hplan.
  destruct (load_in_sync _ _ Hsync Hload) as (Hrows & Hled & Hfl & _).
  pose proof (collectPaths_frame dir false sl) as (Hr2 & Hl2 & _ & Hf2 & _).
  rewrite Hcoll in Hr2, Hl2, Hf2; cbn [snd] in Hr2, Hl2, Hf2.
  rewrite Hr2, Hrows in Hplan.
  set (pending := filter (fun p => negb (Js.includes (map path (table_rows s)) p))
                         allPaths) in *.
  destruct pending as [|p0 rest] eqn:Hp; [discriminate|].
  unfold resolve in Hplan. injection Hplan as <- <-. cbn [gen_paths gen_batch] in H.
  change (GeneratorHandler.createTables (p0 :: rest)
            (lastBatch (map batch (table_rows s)) + 1) sc)
    with (run (Apply (lastBatch (map batch (table_rows s)) + 1)) (p0 :: rest) sc) in H.
  pose proof (run_files (Apply (lastBatch (map batch (table_rows s)) + 1))
                (p0 :: rest) sc) as Hfiles.
  rewrite H in Hfiles; cbn [snd] in Hfiles.
  apply run_resolved in H as (_ & rs & Hl & Hl' & _).
  rewrite Hl2, Hled in Hl. injection Hl as <-.
  exists sl, sc, allPaths, (next_id sc).
  split; [reflexivity|]. split; [exact Hcoll|].
  split; [congruence|]. fold pending. rewrite Hp. exact Hl'.
Qed.

(* ------------------------------------------------------------------ *)
(** ** Applying twice                                                   *)
(* ------------------------------------------------------------------ *)

(** X5. An apply that has resolved, by a handler that held no rows of
    a table that is gone (a handler that had not loaded rows before, or
    whose table was still there), leaves nothing to apply: a second
    [generate] on the same directory, by any handler on the table and
    the files as the first one left them, reads the table and the
    directory and rejects with "Nothing to generate"; it loads no file
    and sends no other query, and the table is as it was. *)
Theorem generate_again_finds_nothing :
  forall (dir : string) (s s1 s1' : state) (msg : string),
    (ledger s = None -> rows s = []) ->
    GeneratorHandler.generate dir s = (Resolved msg, s1) ->
    ledger s1' = ledger s1 ->
    files s1' = files s1 ->
    faults s1' = [] ->
    exists s2 : state,
      GeneratorHandler.generate dir s1' =
        (Rejected (GeneratorHandlerError "Nothing to generate"), s2) /\
      log s2 = (log s1' ++ [EvRaw "SELECT * FROM generators;"; EvReaddir dir])%list /\
      ledger s2 = ledger s1.
Proof.
  intros dir s s1 s1' msg Hsync Hgen Hled Hfiles Hfaults.
  destruct (generate_resolved_plan _ _ _ _ Hsync Hgen)
    as (sl & sc & allPaths & n & Hload & Hcoll & Hf1 & Hl1).
  assert (Hdir : isFullStr dir = true).
  { unfold GeneratorHandler.generate in Hgen.
    destruct (isFullStr dir); [reflexivity|discriminate]. }
  destruct (load_resolved _ _ Hload) as (Hfl & _).
  set (L := (table_rows s ++
             new_rows n
               (map (fun p => (p, lastBatch (map batch (table_rows s)) + 1)%Z)
                    (filter (fun p => negb (Js.includes (map path (table_rows s)) p))
                            allPaths)))%list) in *.
  (* the second load *)
  assert (Hload' : exists sl',
             GeneratorHandler.load s1' = (Resolved tt, sl') /\
             rows sl' = L /\ ledger sl' = Some L /\ files sl' = files s1' /\
             faults sl' = [] /\
             log sl' = (log s1' ++ [EvRaw "SELECT * FROM generators;"])%list).
  { destruct s1' as [r l nx f md fl lg]. cbn [ledger faults files log] in *.
    subst fl. rewrite Hl1 in Hled. subst l.
    eexists. split; [reflexivity|]. cbn. repeat split; reflexivity. }
  destruct Hload' as (sl' & Hload' & Hrows' & Hled' & Hfiles' & Hfaults' & Hlog').
  (* the second reading of the directory *)
  pose proof (collectPaths_again dir false sl sl' sc allPaths Hcoll) as Hagain.
  assert (Hfst : fst (GeneratorHandler.collectPaths dir false sl') = Resolved allPaths).
  { apply Hagain; [congruence|now rewrite Hfaults']. }
  pose proof (collectPaths_frame dir false sl')
    as (Hr2 & Hl2 & _ & _ & _ & Hlog2 & _).
  destruct (GeneratorHandler.collectPaths dir false sl') as [r sc'] eqn:Hcoll'.
  cbn [fst snd] in *. subst r.
  (* nothing is pending *)
  assert (Hnone : filter (fun p => negb (Js.includes (map path L) p)) allPaths = []).
  { apply filter_keep_none. intros p Hp. apply negb_false_iff, includes_In.
    unfold L. rewrite map_app, new_rows_paths. apply in_or_app.
    destruct (Js.includes (map path (table_rows s)) p) eqn:Hin.
    - left. now apply includes_In.
    - right. apply filter_In. split; [exact Hp|]. now rewrite Hin. }
  exists sc'. split; [|split].
  - unfold GeneratorHandler.generate. rewrite Hdir. cbn [negb].
    unfold bind at 1.
    unfold GeneratorHandler.beReadyToGenerate, bind at 1. rewrite Hload'.
    unfold bind at 1. rewrite Hcoll'.
    unfold bind, GeneratorHandler.this_rows. rewrite Hr2, Hrows', Hnone.
    reflexivity.
  - rewrite Hlog2, Hlog', <- app_assoc. reflexivity.
  - rewrite Hl2, Hled'. now rewrite Hl1.
Qed.

(** Two files are applied; the next [generate] finds nothing. *)
Lemma generate_again_finds_nothing_witness :
  let s := Sample.world [Sample.users_js; Sample.profiles_js] Fulfils Fulfils in
  let s1 := snd (GeneratorHandler.generate Sample.dir s) in
  fst (GeneratorHandler.generate Sample.dir s1) =
    Rejected (GeneratorHandlerError "Nothing to generate").
Proof.
  intros s s1.
  destruct (generate_again_finds_nothing
              Sample.dir s s1 s1 "2/2 tables created")
    as (s2 & Hrun & _).
  - reflexivity.
  - vm_compute; reflexivity.
  - reflexivity.
  - reflexivity.
  - vm_compute; reflexivity.
  - now rewrite Hrun.
Defined.

(* ------------------------------------------------------------------ *)
(** ** What an undo deletes                                             *)
(* ------------------------------------------------------------------ *)

Lemma NoDup_map_eq {A B} (f : A -> B) (l : list A) (x y : A) :
  NoDup (map f l) -> In x l -> In y l -> f x = f y -> x = y.
Proof.
  induction l as [|a l IH]; intros Hnd Hx Hy E; [destruct Hx|].
  cbn in Hnd. inversion Hnd as [|? ? Hnot Hnd']; subst.
  destruct Hx as [->|Hx], Hy as [->|Hy].
  - reflexivity.
  - exfalso. apply Hnot. rewrite E. now apply in_map.
  - exfalso. apply Hnot. rewrite <- E. now apply in_map.
  - now apply IH.
Qed.

(** X6. An undo that resolves, by a handler that held no rows of a
    table that is gone, deletes the rows of the last batch, all
    of them and no other, on a table that records no path twice (an
    apply only adds paths that the table does not hold): the rows of
    the earlier batches are all still there, in their order. *)
Theorem rollback_deletes_exactly_last_batch :
  forall (s s' : state) (msg : string),
    (ledger s = None -> rows s = []) ->
    NoDup (map path (table_rows s)) ->
    GeneratorHandler.rollback s = (Resolved msg, s') ->
    let last := lastBatch (map batch (table_rows s)) in
    ledger s' =
      Some (filter (fun r => negb (batch r =? last)%Z) (table_rows s)) /\
    exists r, In r (table_rows s) /\ batch r = last.
Proof.
  intros s s' msg Hsync Hnd H last.
  destruct (rollback_resolved _ _ _ Hsync H) as (Hne & Hl).
  fold last in Hne, Hl. split.
  - rewrite Hl. f_equal. apply filter_ext_in. intros r Hr. f_equal.
    destruct (Z.eqb_spec (batch r) last) as [E|E].
    + apply includes_In. rewrite <- in_rev. apply in_map.
      apply filter_In. split; [exact Hr|now apply Z.eqb_eq].
    + apply includes_false. rewrite <- in_rev. intros Hin.
      apply in_map_iff in Hin as (r' & Hp & Hr').
      apply filter_In in Hr' as (Hr' & Hb). apply Z.eqb_eq in Hb.
      assert (r' = r) by (apply (NoDup_map_eq path (table_rows s)); assumption).
      subst r'. contradiction.
  - destruct (filter (fun r => (batch r =? last)%Z) (table_rows s)) as [|r0 rest] eqn:Hf.
    + now elim Hne.
    + exists r0.
      assert (Hin : In r0 (filter (fun r => (batch r =? last)%Z) (table_rows s)))
        by (rewrite Hf; now left).
      apply filter_In in Hin as (Hin & Hb). apply Z.eqb_eq in Hb. auto.
Qed.

(** Two batches: the undo deletes the two rows of the second. *)
Lemma rollback_deletes_exactly_last_batch_witness :
  let rs := [mkRow 1 1 Sample.users_js; mkRow 2 2 Sample.profiles_js;
             mkRow 3 2 Sample.products_js] in
  let s := Sample.world_with rs Sample.three Fulfils Fulfils in
  ledger (snd (GeneratorHandler.rollback s)) = Some [mkRow 1 1 Sample.users_js].
Proof.
  intros rs s.
  destruct (rollback_deletes_exactly_last_batch
              s (snd (GeneratorHandler.rollback s)) "2/2 tables dropped")
    as (Hl & _).
  - discriminate.
  - repeat constructor; cbn; intuition discriminate.
  - vm_compute; reflexivity.
  - rewrite Hl. vm_compute. reflexivity.
Defined.

(* ------------------------------------------------------------------ *)
(** ** Sources and compiled artefacts                                   *)
(* ------------------------------------------------------------------ *)

(** A TypeScript source is a source. *)
Lemma isTsFile_isFile (name : string) :
  isTsFile name = true -> isFile name = true.
Proof.
  unfold isTsFile, isFile, generator_name.
  destruct (Js.span_digits name) as [ds r].
  destruct (negb (String.eqb ds EmptyString)); [|discriminate].
  destruct (Js.drop_prefix "_generate_" r) as [t|]; [|discriminate].
  cbn [andb]. apply snake_then_weaken.
  intros x Hx. cbn in *. rewrite orb_false_r in Hx. now rewrite Hx.
Qed.

(** X7. The three patterns of file names sort the entries of a
    directory into classes that do not overlap: a name that [isFile]
    takes (a source, ".ts" or ".js") is never one that [isMappedFile]
    takes (a compiled artefact, ".d.ts" or ".js.map"), and every name
    that [isTsFile] takes is a source. *)
Theorem file_name_classes_are_disjoint :
  forall name : string,
    (isFile name && isMappedFile name = false) /\
    (isTsFile name = true -> isFile name = true /\ isMappedFile name = false).
Proof.
  intros name. split.
  - destruct (isFile name) eqn:Hf; [|reflexivity].
    cbn. now apply isFile_not_mapped.
  - intros Hts. pose proof (isTsFile_isFile _ Hts) as Hf.
    split; [exact Hf|now apply isFile_not_mapped].
Qed.

(** X8. The two readings of a directory agree. For a directory named
    by its resolved path and the entries that
    [readdir] lists: when every entry is a source or a compiled
    artefact, [collectPaths(path, true)] resolves with the paths of all
    the entries and [collectPaths(path, false)] with the paths of the
    sources among them, both in the order of the directory; otherwise
    both reject, naming the same entry: the first one that is
    neither. *)
Theorem collectPaths_without_maps_keeps_the_sources :
  forall (dir : string) (s s1 : state) (names : list string),
    resolved_path dir = true ->
    fs_readdir dir s = (Resolved names, s1) ->
    match find (fun n => negb (valid_name n)) names with
    | None =>
        GeneratorHandler.collectPaths dir true s =
          (Resolved (map (Js.resolvePath dir) names), s1) /\
        GeneratorHandler.collectPaths dir false s =
          (Resolved (map (Js.resolvePath dir) (filter isFile names)), s1)
    | Some bad =>
        let e := GeneratorHandlerError ("Invalid generator file: " ++ bad) in
        GeneratorHandler.collectPaths dir true s = (Rejected e, s1) /\
        GeneratorHandler.collectPaths dir false s = (Rejected e, s1) /\
        exists before after,
          names = (before ++ bad :: after)%list /\
          Forall (fun n => valid_name n = true) before /\
          valid_name bad = false
    end.
Proof.
  intros dir s s1 names _ H.
  rewrite (collectPaths_of_listing dir true _ _ _ H).
  rewrite (collectPaths_of_listing dir false _ _ _ H).
  destruct names as [|x xs].
  { cbn. split; reflexivity. }
  cbv zeta. rewrite find_invalid_with_maps, find_invalid_without_maps.
  destruct (find (fun n => negb (valid_name n)) (x :: xs)) as [bad|] eqn:Hfind.
  - split; [reflexivity|]. split; [reflexivity|].
    destruct (find_first_split _ _ _ Hfind) as (l1 & l2 & Hl & Hbad & Hall).
    exists l1, l2. split; [exact Hl|]. split.
    + eapply Forall_impl; [|exact Hall]. cbn. intros a Ha.
      now apply negb_false_iff in Ha.
    + now apply negb_true_iff in Hbad.
  - split; [reflexivity|].
    rewrite sources_of_valid; [reflexivity|].
    apply Forall_forall. intros n Hn.
    pose proof (find_none _ _ Hfind _ Hn) as Hv. now apply negb_false_iff in Hv.
Qed.

(** A compiled directory: three entries for one generator, one source
    among them. *)
Lemma collectPaths_without_maps_keeps_the_sources_witness :
  let s := Sample.world [Sample.users_d_ts; Sample.users_js; Sample.users_js_map]
                        Fulfils Fulfils in
  fst (GeneratorHandler.collectPaths Sample.dir true s) =
    Resolved [Sample.users_d_ts; Sample.users_js; Sample.users_js_map] /\
  fst (GeneratorHandler.collectPaths Sample.dir false s) =
    Resolved [Sample.users_js].
Proof.
  intros s.
  pose proof (collectPaths_without_maps_keeps_the_sources
                Sample.dir s (snd (fs_readdir Sample.dir s))
                ["01_generate_users_table.d.ts"; "01_generate_users_table.js";
                 "01_generate_users_table.js.map"]
                eq_refl eq_refl) as H.
  change (find (fun n => negb (valid_name n))
               ["01_generate_users_table.d.ts"; "01_generate_users_table.js";
                "01_generate_users_table.js.map"]) with (@None string) in H.
  destruct H as (H1 & H2). rewrite H1, H2. split; reflexivity.
Defined.

(* ------------------------------------------------------------------ *)
(** ** Resetting a directory                                            *)
(* ------------------------------------------------------------------ *)

Lemma length_append (a b : string) :
  String.length (a ++ b) = (String.length a + String.length b)%nat.
Proof. induction a as [|x a IH]; cbn; [reflexivity|now rewrite IH]. Qed.

Lemma append_same_tail (a b c : string) : (a ++ c)%string = (b ++ c)%string -> a = b.
Proof.
  revert b. induction a as [|x a IH]; intros b H.
  - destruct b as [|y b]; [reflexivity|exfalso].
    cbn in H. apply (f_equal String.length) in H. cbn in H.
    rewrite length_append in H. lia.
  - destruct b as [|y b].
    + exfalso. cbn in H. apply (f_equal String.length) in H. cbn in H.
      rewrite length_append in H. lia.
    + cbn in H. injection H as -> H. f_equal. now apply IH.
Qed.

(** The DROP TABLE of a table other than the generators table goes
    through whenever the schedule of failures lets it, and leaves the
    generators table alone. *)
Lemma raw_drop_other (name : string) (s : state) :
  name <> "generators" ->
  let sql := "DROP TABLE " ++ name ++ ";" in
  match faults s with
  | Some e :: rest =>
      raw sql s = (Rejected e, with_faults rest (record (EvRaw sql) s))
  | None :: rest =>
      raw sql s = (Resolved [], with_faults rest (record (EvRaw sql) s))
  | [] => raw sql s = (Resolved [], record (EvRaw sql) s)
  end.
Proof.
  intros Hne sql.
  assert (H1 : String.eqb sql "SELECT * FROM generators;" = false) by reflexivity.
  assert (H2 : String.eqb sql "DROP TABLE generators;" = false).
  { apply String.eqb_neq. intros E. apply Hne.
    unfold sql in E. cbn in E. injection E as E.
    exact (append_same_tail name "generators" ";" E). }
  unfold raw, call. destruct s as [r l n f m fl lg]. cbn [faults record].
  destruct fl as [|[e|] rest]; cbn [faults]; try reflexivity;
    fold sql; rewrite H1, H2; reflexivity.
Qed.

(** [exec] counts the statements that went through, and the generators
    table is gone once its own DROP TABLE has gone through. *)
Lemma exec_counts (gs : list MegaGenerator) :
  Forall (fun g => get_table g <> "generators") gs ->
  forall (dropped : nat) (s : state),
    fst (GeneratorHandler.exec gs dropped s) =
      Resolved (dropped + let_through (faults s) (List.length gs))%nat /\
    (nth (List.length gs) (faults s) None = None ->
     ledger (snd (GeneratorHandler.exec gs dropped s)) = None).
Proof.
  induction 1 as [|g gs Hg _ IH]; intros dropped s.
  - cbn [GeneratorHandler.exec List.length let_through nth].
    rewrite Nat.add_0_r.
    unfold catch, bind, resolve, raw, call.
    destruct s as [r l n f m fl lg]. cbn.
    destruct fl as [|[e|] rest]; cbn; destruct l as [rs|]; cbn;
      split; try reflexivity; intros; try reflexivity; discriminate.
  - cbn [GeneratorHandler.exec List.length].
    pose proof (raw_drop_other (get_table g) s Hg) as Hraw. cbv zeta in Hraw.
    destruct (faults s) as [|[e|] rest] eqn:Hfl; rewrite Hraw.
    + destruct (IH (S dropped) (record (EvRaw ("DROP TABLE " ++ get_table g ++ ";")) s))
        as (Hk & Hled).
      rewrite Hk. cbn [faults record]. rewrite Hfl.
      split.
      * f_equal. cbn [let_through].
        destruct (List.length gs); cbn [let_through]; lia.
      * intros _. apply Hled. cbn [faults record]. rewrite Hfl.
        now destruct (List.length gs).
    + destruct (IH dropped (with_faults rest
                              (record (EvRaw ("DROP TABLE " ++ get_table g ++ ";")) s)))
        as (Hk & Hled).
      rewrite Hk. cbn [faults with_faults let_through nth]. split; [reflexivity|exact Hled].
    + destruct (IH (S dropped) (with_faults rest
                              (record (EvRaw ("DROP TABLE " ++ get_table g ++ ";")) s)))
        as (Hk & Hled).
      rewrite Hk. cbn [faults with_faults let_through nth].
      split; [f_equal; lia|exact Hled].
Qed.

(** X9. [reset] goes on whatever the DROP TABLE statements answer: once
    the sources of the directory are read and loaded, it sends one
    statement per source, then the one of the generators table, and
    resolves with the count "k/n table(s) dropped", [k] being the
    number of statements for the sources that went through; the
    generators table is gone whenever its own statement went through.
    (The tables of the sources are tables other than "generators".) *)
Theorem reset_counts_the_tables_dropped :
  forall (dir : string) (s sa sb : state)
         (sources : list string) (gs : list MegaGenerator),
    isFullStr dir = true ->
    GeneratorHandler.collectPaths dir false s = (Resolved sources, sa) ->
    GeneratorHandler.collectGenerators (rev sources) sa = (Resolved gs, sb) ->
    Forall (fun g => get_table g <> "generators") gs ->
    let n := List.length sources in
    let k := let_through (tl (faults s)) n in
    exists s2 : state,
      GeneratorHandler.reset dir s =
        (Resolved (Js.toString k ++ "/" ++ Js.toString n ++ " table"
                     ++ sfx sources ++ " dropped"), s2) /\
      (k <= n)%nat /\
      (nth n (tl (faults s)) None = None -> ledger s2 = None).
Proof.
  intros dir s sa sb sources gs Hd Hc Hg Hnames n k.
  pose proof (collectPaths_frame dir false s) as (_ & _ & _ & _ & _ & _ & Hfl).
  rewrite Hc in Hfl; cbn [snd] in Hfl.
  destruct (collectGenerators_resolved _ _ _ _ Hg) as (Hne & -> & Hlen).
  rewrite length_rev in Hlen. fold n in Hlen.
  destruct (exec_counts gs Hnames 0 (records (map EvRequire (rev sources)) sa))
    as (Hk & Hled).
  cbn [faults records] in Hk, Hled. rewrite Hfl, Hlen in Hk, Hled.
  cbn [Nat.add] in Hk. fold k in Hk.
  unfold GeneratorHandler.reset. rewrite Hd. cbn [negb].
  unfold bind at 1. rewrite Hc.
  destruct (rev sources) as [|p0 rest] eqn:Hrev; [congruence|].
  unfold bind at 1. rewrite Hg. unfold bind, resolve.
  destruct (GeneratorHandler.exec gs 0 (records (map EvRequire (p0 :: rest)) sa))
    as [[k'|e|] s3]; cbn [fst snd] in *; [|discriminate|discriminate].
  injection Hk as ->.
  exists s3. split; [|split; [|exact Hled]].
  - assert (Hl : List.length (p0 :: rest) = n)
      by (rewrite <- Hrev, length_rev; reflexivity).
    rewrite Hl. unfold sfx. rewrite Hl. reflexivity.
  - unfold k. clear. generalize (tl (faults s)). induction n as [|n IH]; intros fl.
    + reflexivity.
    + cbn [let_through]. destruct fl as [|[e|] rest]; [lia| |];
        specialize (IH rest); lia.
Qed.

(** Three sources; the statement for the second table sent fails: two
    tables are counted, the generators table is dropped. *)
Lemma reset_counts_the_tables_dropped_witness :
  let s := with_faults [None; None; Some Sample.ops]
             (Sample.world_with [] Sample.three Fulfils Fulfils) in
  exists s2 : state,
    GeneratorHandler.reset Sample.dir s = (Resolved "2/3 tables dropped", s2) /\
    ledger s2 = None.
Proof.
  intros s.
  destruct (reset_counts_the_tables_dropped
              Sample.dir s
              (snd (GeneratorHandler.collectPaths Sample.dir false s))
              (snd (GeneratorHandler.collectGenerators (rev Sample.three)
                      (snd (GeneratorHandler.collectPaths Sample.dir false s))))
              Sample.three
              [Sample.generator "products" Fulfils Fulfils;
               Sample.generator "profiles" Fulfils Fulfils;
               Sample.generator "users" Fulfils Fulfils])
    as (s2 & Hrun & _ & Hl).
  - reflexivity.
  - vm_compute; reflexivity.
  - vm_compute; reflexivity.
  - repeat constructor; discriminate.
  - exists s2. split; [exact Hrun|]. apply Hl. reflexivity.
Defined.

(** X10. A directory without a source: when the entries that
    [readdir] lists are all compiled artefacts (or there is none),
    [reset] rejects with "Nothing to reset" once the directory is
    read; no file is loaded, no statement is sent, so the generators
    table is not dropped. *)
Theorem reset_without_sources_sends_nothing :
  forall (dir : string) (s s1 : state) (names : list string),
    isFullStr dir = true ->
    fs_readdir dir s = (Resolved names, s1) ->
    Forall (fun n => isMappedFile n = true) names ->
    GeneratorHandler.reset dir s =
      (Rejected (GeneratorHandlerError "Nothing to reset"), s1) /\
    log s1 = (log s ++ [EvReaddir dir])%list /\
    ledger s1 = ledger s /\ files s1 = files s.
Proof.
  intros dir s s1 names Hd Hread Hall.
  assert (Hc : GeneratorHandler.collectPaths dir false s = (Resolved [], s1)).
  { rewrite (collectPaths_of_listing dir false _ _ _ Hread).
    destruct names as [|x xs]; [reflexivity|]. cbv zeta.
    rewrite (filter_keep_none (fun name => negb (isMappedFile name)) (x :: xs)).
    - reflexivity.
    - intros n Hn. rewrite Forall_forall in Hall. now rewrite (Hall n Hn). }
  split.
  - unfold GeneratorHandler.reset. rewrite Hd. cbn [negb].
    unfold bind. rewrite Hc. reflexivity.
  - pose proof (collectPaths_frame dir false s) as (_ & Hl & _ & Hf & _ & Hlog & _).
    rewrite Hc in Hl, Hf, Hlog; cbn [snd] in Hl, Hf, Hlog. auto.
Qed.

(** A directory that holds the declaration file and the source map of
    a generator, and no source. *)
Lemma reset_without_sources_sends_nothing_witness :
  let s := Sample.world_with [] [Sample.users_d_ts; Sample.users_js_map]
                             Fulfils Fulfils in
  fst (GeneratorHandler.reset Sample.dir s) =
    Rejected (GeneratorHandlerError "Nothing to reset") /\
  ledger (snd (GeneratorHandler.reset Sample.dir s)) = Some [].
Proof.
  intros s.
  destruct (reset_without_sources_sends_nothing
              Sample.dir s (snd (fs_readdir Sample.dir s))
              ["01_generate_users_table.d.ts"; "01_generate_users_table.js.map"])
    as (Hrun & _ & Hl & _).
  - reflexivity.
  - reflexivity.
  - repeat constructor.
  - rewrite Hrun. cbn [fst snd]. split; [reflexivity|]. rewrite Hl. reflexivity.
Defined.

(* ------------------------------------------------------------------ *)
(** ** Removing the generator of a table that has none                  *)
(* ------------------------------------------------------------------ *)

(** X11. [remove] for a table that no file of the directory is named
    after rejects with "No generator found for table: name" once the
    directory is read: nothing is reset, deleted or renamed, and the
    generators table is as it was. *)
Theorem remove_of_unknown_table_changes_nothing :
  forall (name dir : string) (s s1 : state) (paths : list string),
    isSnakeCase name = true ->
    isFullStr dir = true ->
    GeneratorHandler.collectPaths dir true s = (Resolved paths, s1) ->
    filter (removal_test name) paths = [] ->
    GeneratorHandler.remove name dir s =
      (Rejected (GeneratorHandlerError ("No generator found for table: " ++ name)), s1) /\
    log s1 = (log s ++ [EvReaddir dir])%list /\
    files s1 = files s /\ ledger s1 = ledger s.
Proof.
  intros name dir s s1 paths Hn Hd Hc Hnone.
  destruct (group_total dir true s s1 paths
              (fun p => negb (removal_test name p)) Hc) as (groups & Hg).
  split.
  - unfold GeneratorHandler.remove. rewrite Hn, Hd. cbn [negb].
    unfold bind. rewrite Hc, Hg, Hnone. reflexivity.
  - pose proof (collectPaths_frame dir true s) as (_ & Hl & _ & Hf & _ & Hlog & _).
    rewrite Hc in Hl, Hf, Hlog; cbn [snd] in Hl, Hf, Hlog. auto.
Qed.

(** The directory of the samples has no generator for [orders]. *)
Lemma remove_of_unknown_table_changes_nothing_witness :
  let s := Sample.world_with [mkRow 1 1 Sample.users_js] Sample.three Fulfils Fulfils in
  fst (GeneratorHandler.remove "orders" Sample.dir s) =
    Rejected (GeneratorHandlerError "No generator found for table: orders") /\
  files (snd (GeneratorHandler.remove "orders" Sample.dir s)) = Sample.three /\
  ledger (snd (GeneratorHandler.remove "orders" Sample.dir s)) =
    Some [mkRow 1 1 Sample.users_js].
Proof.
  intros s.
  destruct (remove_of_unknown_table_changes_nothing
              "orders" Sample.dir s
              (snd (GeneratorHandler.collectPaths Sample.dir true s))
              Sample.three)
    as (Hrun & _ & Hf & Hl).
  - reflexivity.
  - reflexivity.
  - vm_compute; reflexivity.
  - vm_compute; reflexivity.
  - rewrite Hrun. cbn [fst snd]. rewrite Hf, Hl. repeat split; reflexivity.
Defined.

(* ------------------------------------------------------------------ *)
(** ** Grouping loses no path                                           *)
(* ------------------------------------------------------------------ *)

Lemma group_loop_matches (paths : list string) :
  forall st st', group_loop paths st = Some st' ->
                 Forall (fun p => stem_match p <> None) paths.
Proof.
  induction paths as [|p rest IH]; intros st st' H; [constructor|].
  cbn [group_loop] in H.
  destruct (stem_match p) as [k|] eqn:Hp; [|discriminate].
  constructor; [congruence|]. exact (IH _ _ H).
Qed.

Lemma group_loop_none (paths : list string) :
  forall st, group_loop paths st = None ->
             exists p, In p paths /\ stem_match p = None.
Proof.
  induction paths as [|p rest IH]; intros st H; [discriminate|].
  cbn [group_loop] in H.
  destruct (stem_match p) as [k|] eqn:Hp.
  - destruct (IH _ H) as (q & Hq & Hs). exists q. split; [now right|exact Hs].
  - exists p. split; [now left|exact Hp].
Qed.

Lemma concat_map_nil {A B} (l : list A) :
  List.concat (map (fun _ => @nil B) l) = [].
Proof. induction l as [|a l IH]; [reflexivity|exact IH]. Qed.

(** Lists of one key each, taken by tests that no two keys pass for
    the same element, share out a list. *)
Lemma concat_filter_perm {K A} (f : K -> A -> bool) (keys : list K) (l : list A) :
  NoDup keys ->
  (forall x, In x l -> exists k, In k keys /\ f k x = true) ->
  (forall k k' x, f k x = true -> f k' x = true -> k = k') ->
  Permutation (List.concat (map (fun k => filter (f k) l) keys)) l.
Proof.
  intros Hnd Hsome Hone.
  induction l as [|x l IH].
  - cbn. now rewrite concat_map_nil.
  - destruct (Hsome x (or_introl eq_refl)) as (k0 & Hk0 & Hf0).
    apply in_split in Hk0 as (l1 & l2 & ->).
    assert (Hout : forall k, In k (l1 ++ l2)%list -> f k x = false).
    { intros k Hk. destruct (f k x) eqn:Hfk; [exfalso|reflexivity].
      assert (k = k0) by (eapply Hone; eassumption). subst k.
      apply NoDup_remove_2 in Hnd. contradiction. }
    assert (Hmap : forall ks, (forall k, In k ks -> f k x = false) ->
                     map (fun k => filter (f k) (x :: l)) ks =
                     map (fun k => filter (f k) l) ks).
    { intros ks Hks. apply map_ext_in. intros k Hk. cbn. now rewrite (Hks k Hk). }
    rewrite map_app, List.concat_app. cbn [map List.concat].
    rewrite (Hmap l1) by (intros k Hk; apply Hout, in_or_app; now left).
    rewrite (Hmap l2) by (intros k Hk; apply Hout, in_or_app; now right).
    cbn [filter]. rewrite Hf0.
    cbn [app]. rewrite <- Permutation_middle. constructor.
    assert (IH' := IH (fun y Hy => Hsome y (or_intror Hy))).
    rewrite map_app, List.concat_app in IH'. cbn [map List.concat] in IH'. exact IH'.
Qed.

Lemma stem_is_true (k p : string) : stem_is k p = true <-> stem_match p = Some k.
Proof.
  unfold stem_is. destruct (stem_match p) as [k'|]; [|split; discriminate].
  rewrite String.eqb_eq. split; congruence.
Qed.

(** X12. [group] shares the paths out and loses none, for paths whose
    numbers are safe integers: when every path
    has a match for its expression, the groups are not empty, each
    holds the paths of one number in the order they came, the groups
    come by ascending number, and together they hold every path once.
    When some path has no match, the call throws. *)
Theorem group_shares_out_every_path :
  forall paths : list string,
    Forall (fun p => safe_key p = true) paths ->
    match group paths with
    | Some groups =>
        Permutation (List.concat groups) paths /\
        Forall (fun g => g <> []) groups /\
        exists numbers,
          groups = map (fun k => filter (stem_is k) paths) numbers /\
          NoDup numbers /\ Sorted key_le numbers
    | None => exists p, In p paths /\ stem_match p = None
    end.
Proof.
  intros paths _.
  destruct (group paths) as [groups|] eqn:Hg.
  - destruct (group_spec _ _ Hg) as (keys & -> & Hnd & Hkeys & Hsorted).
    assert (Hall : Forall (fun p => stem_match p <> None) paths).
    { unfold group in Hg.
      destruct (group_loop paths []) as [st|] eqn:Hloop; [|discriminate].
      exact (group_loop_matches _ _ _ Hloop). }
    split; [|split].
    + apply concat_filter_perm; [exact Hnd| |].
      * intros p Hp. rewrite Forall_forall in Hall.
        destruct (stem_match p) as [k|] eqn:Hs; [|now elim (Hall p Hp)].
        exists k. split; [apply Hkeys; eauto|now apply stem_is_true].
      * intros k k' p H1 H2. apply stem_is_true in H1, H2. congruence.
    + apply Forall_forall. intros g Hin.
      apply in_map_iff in Hin as (k & <- & Hk).
      apply Hkeys in Hk as (p & Hp & Hs).
      intros Hnil.
      assert (Hin : In p (filter (stem_is k) paths))
        by (apply filter_In; split; [exact Hp|now apply stem_is_true]).
      rewrite Hnil in Hin. destruct Hin.
    + exists keys. auto.
  - unfold group in Hg.
    destruct (group_loop paths []) as [st|] eqn:Hloop; [discriminate|].
    exact (group_loop_none _ _ Hloop).
Qed.

(** The third file, then the first with one of its artefacts: the
    group of the first file comes first, and no path is lost. *)
Lemma group_shares_out_every_path_witness :
  let paths := [Sample.products_js; Sample.users_js; Sample.users_js_map] in
  group paths = Some [[Sample.users_js; Sample.users_js_map]; [Sample.products_js]] /\
  Permutation [Sample.users_js; Sample.users_js_map; Sample.products_js] paths.
Proof.
  intros paths.
  assert (Hg : group paths =
               Some [[Sample.users_js; Sample.users_js_map]; [Sample.products_js]])
    by (vm_compute; reflexivity).
  pose proof (group_shares_out_every_path paths) as H.
  rewrite Hg in H. destruct H as (Hperm & _).
  - repeat constructor.
  - split; [exact Hg|exact Hperm].
Defined.

(* ------------------------------------------------------------------ *)
(** ** Deletions and renames are asked for all at once                  *)
(* ------------------------------------------------------------------ *)

Lemma fs_unlink_files (p : string) (s : state) :
  faults s = [] ->
  files (snd (fs_unlink p s)) = filter (fun f => negb (String.eqb f p)) (files s) /\
  faults (snd (fs_unlink p s)) = [] /\
  (fst (fs_unlink p s) = Resolved tt <-> In p (files s)).
Proof.
  destruct s as [r l n f m fl lg]. cbn [faults files]. intros ->.
  unfold fs_unlink, call. cbn.
  destruct (existsb (String.eqb p) f) eqn:Hin; cbn.
  - repeat split; auto. intros _. now apply includes_In.
  - repeat split; auto.
    + symmetry. apply filter_keep_all. intros x Hx. apply negb_true_iff.
      apply String.eqb_neq. intros ->.
      assert (Js.includes f p = true) by now apply includes_In.
      unfold Js.includes in *. congruence.
    + discriminate.
    + intros Hp. apply includes_In in Hp. unfold Js.includes in Hp. congruence.
Qed.

Lemma filter_filter {A} (f g : A -> bool) (l : list A) :
  filter f (filter g l) = filter (fun x => g x && f x) l.
Proof.
  induction l as [|a l IH]; [reflexivity|]. cbn.
  destruct (g a); cbn; [destruct (f a)|]; now rewrite IH.
Qed.

Lemma unlink_files (paths : list string) :
  forall s : state,
    faults s = [] ->
    files (snd (unlink paths s)) =
      filter (fun f => negb (Js.includes paths f)) (files s).
Proof.
  unfold unlink.
  induction paths as [|p rest IH]; intros s Hf.
  - cbn. symmetry. now apply filter_keep_all.
  - cbn [map]. rewrite all_state.
    destruct (fs_unlink_files p s Hf) as (Hfiles & Hfaults & _).
    assert (Hstep : files (snd (all (map fs_unlink rest) (snd (fs_unlink p s)))) =
                    filter (fun f => negb (Js.includes (p :: rest) f)) (files s)).
    { rewrite (IH _ Hfaults), Hfiles, filter_filter.
      apply filter_ext. intros x. unfold Js.includes. cbn [existsb].
      rewrite negb_orb. reflexivity. }
    exact Hstep.
Qed.

(** X13. [unlink] asks for every deletion before any of them has
    answered, so a deletion that fails stops none of the others: the
    deletions of all the paths are asked for, in their order; and on a
    file system that does not fail by itself, every path that names a
    file is deleted, also when the call rejects because another path
    names none. *)
Theorem unlink_deletes_what_it_can :
  forall (paths : list string) (s : state),
    faults s = [] ->
    log (snd (unlink paths s)) = (log s ++ map EvUnlink paths)%list /\
    files (snd (unlink paths s)) =
      filter (fun f => negb (Js.includes paths f)) (files s).
Proof.
  intros paths s Hf. split; [apply unlink_log|now apply unlink_files].
Qed.

(** The second of three paths names no file: the call rejects, the
    first and the third file are gone. *)
Lemma unlink_deletes_what_it_can_witness :
  let s := Sample.world Sample.three Fulfils Fulfils in
  let paths := [Sample.users_js; "/app/generators/04_generate_orders_table.js";
                Sample.products_js] in
  is_resolved (fst (unlink paths s)) = false /\
  files (snd (unlink paths s)) = [Sample.profiles_js].
Proof.
  intros s paths.
  destruct (unlink_deletes_what_it_can paths s eq_refl) as (_ & Hfiles).
  rewrite Hfiles. split; vm_compute; reflexivity.
Defined.

(* ------------------------------------------------------------------ *)
(** ** Renaming                                                         *)
(* ------------------------------------------------------------------ *)


(* ------------------------------------------------------------------ *)
(** ** Numbers written and read                                         *)
(* ------------------------------------------------------------------ *)

Lemma string_of_uint_digits (d : Decimal.uint) :
  digits_only (NilEmpty.string_of_uint d) = true.
Proof. induction d; cbn; auto. Qed.

Lemma toString_digits (n : nat) :
  digits_only (Js.toString n) = true /\ Js.toString n <> EmptyString.
Proof.
  unfold Js.toString, NilZero.string_of_uint.
  destruct (Nat.to_uint n) eqn:E; cbn -[NilEmpty.string_of_uint];
    (split; [try reflexivity|try discriminate]);
    try (rewrite <- E at 1; apply string_of_uint_digits);
    try (cbn; rewrite string_of_uint_digits; reflexivity).
Qed.

Lemma digits_only_app (a b : string) :
  digits_only (a ++ b) = digits_only a && digits_only b.
Proof.
  induction a as [|c a IH]; [reflexivity|]. cbn. now rewrite IH, andb_assoc.
Qed.

Lemma replicate_zero_digits (k : nat) : digits_only (Js.replicate k "0") = true.
Proof. induction k as [|k IH]; [reflexivity|exact IH]. Qed.

Lemma padStart_digits (s : string) :
  digits_only s = true -> s <> EmptyString ->
  digits_only (Js.padStart 2 "0" s) = true /\ Js.padStart 2 "0" s <> EmptyString.
Proof.
  intros Hd Hne. unfold Js.padStart. split.
  - now rewrite digits_only_app, replicate_zero_digits, Hd.
  - destruct (Js.replicate (2 - String.length s) "0"); [exact Hne|discriminate].
Qed.

(** The digits at the head of a text are read up to the first character
    that is not a digit. *)
Lemma span_digits_app (ds : string) (c : ascii) (r : string) :
  digits_only ds = true -> Js.is_digit c = false ->
  Js.span_digits (ds ++ String c r) = (ds, String c r).
Proof.
  intros Hd Hc. induction ds as [|x ds IH].
  - cbn. now rewrite Hc.
  - cbn in Hd. apply andb_true_iff in Hd as (Hx & Hd).
    cbn [append Js.span_digits]. rewrite Hx, (IH Hd). reflexivity.
Qed.

Lemma parseInt_acc_zeros (k : nat) (s : string) :
  Js.parseInt_acc 0 (Js.replicate k "0" ++ s) = Js.parseInt_acc 0 s.
Proof. induction k as [|k IH]; [reflexivity|exact IH]. Qed.

Lemma parseInt_acc_uint (d : Decimal.uint) :
  forall a : nat,
    Js.parseInt_acc (N.of_nat a) (NilEmpty.string_of_uint d) =
      N.of_nat (Nat.of_uint_acc d a).
Proof.
  induction d; intros a; cbn [NilEmpty.string_of_uint Js.parseInt_acc Nat.of_uint_acc];
    [reflexivity| | | | | | | | | |];
    change (Js.is_digit _) with true; cbv iota;
    rewrite <- IHd; f_equal; rewrite Nat.tail_mul_spec;
    match goal with
    | |- context [N.of_nat (nat_of_ascii ?c - 48)] =>
        let v := eval vm_compute in (N.of_nat (nat_of_ascii c - 48)) in
        change (N.of_nat (nat_of_ascii c - 48)) with v
    end; lia.
Qed.

(** Writing a number and reading it again gives the number. *)
Lemma parseInt_toString (n : nat) : Js.parseInt (Js.toString n) = N.of_nat n.
Proof.
  unfold Js.parseInt, Js.toString.
  rewrite <- (DecimalNat.Unsigned.of_to n) at 2.
  unfold Nat.of_uint, NilZero.string_of_uint.
  destruct (Nat.to_uint n) eqn:E; try reflexivity;
    rewrite <- (parseInt_acc_uint _ 0); reflexivity.
Qed.

Lemma Number_padStart_toString (n : nat) :
  Number (Js.padStart 2 "0" (Js.toString n)) = n.
Proof.
  unfold Number, Js.padStart, Js.parseInt.
  rewrite parseInt_acc_zeros. fold (Js.parseInt (Js.toString n)).
  rewrite parseInt_toString. apply Nnat.Nat2N.id.
Qed.

(* ------------------------------------------------------------------ *)
(** ** The name of a new generator file                                 *)
(* ------------------------------------------------------------------ *)

(** A table part followed by an underscore and an accepted tail is what
    the file-name expressions take after "_generate_". *)
Lemma snake_then_table_part (accept : string -> bool) (rest : string) :
  accept rest = true ->
  forall (name : string) (b : bool),
    snake b name = true ->
    snake_then accept b (name ++ String "_" rest) = true.
Proof.
  intros Hacc. induction name as [|c name IH]; intros b H.
  - destruct b; [|discriminate]. cbn. now rewrite Hacc.
  - cbn [snake] in H. cbn [append snake_then]. destruct b.
    + destruct (Js.is_lower c || Js.is_digit c); [now apply IH|].
      destruct (Ascii.eqb c "_"); [|discriminate].
      rewrite (IH false H). apply orb_true_r.
    + destruct (Js.is_lower c); [now apply IH|discriminate].
Qed.

Lemma after_dot_table_part (name rest : string) :
  forall b : bool,
    snake b name = true -> after_dot (name ++ rest) = after_dot rest.
Proof.
  induction name as [|c name IH]; intros b H; [reflexivity|].
  cbn [snake] in H. cbn [append after_dot]. destruct b.
  - destruct (Js.is_lower c || Js.is_digit c) eqn:Hc.
    + destruct (Ascii.eqb_spec c ".") as [->|_]; [discriminate|]. eauto.
    + destruct (Ascii.eqb_spec c "_") as [->|_]; [|discriminate]. cbn. eauto.
  - destruct (Js.is_lower c) eqn:Hc; [|discriminate].
    destruct (Ascii.eqb_spec c ".") as [->|_]; [discriminate|]. eauto.
Qed.

Lemma drop_prefix_app (p t : string) : Js.drop_prefix p (p ++ t) = Some t.
Proof.
  induction p as [|a p IH]; [reflexivity|].
  cbn. now rewrite Ascii.eqb_refl.
Qed.

Lemma removal_test_from_eq (name : string) (b : bool) (s : string) :
  removal_test_from name b s =
    (b && match Js.drop_prefix ("_generate_" ++ name ++ "_table") s with
          | Some r => removal_tail r
          | None => false
          end)
    || match s with
       | EmptyString => false
       | String c r => removal_test_from name (Js.is_digit c) r
       end.
Proof. destruct s; reflexivity. Qed.

(** The expression of [remove] finds the name made for its table, at
    the end of any text. *)
Lemma removal_test_from_digits (name tail : string) :
  removal_tail tail = true ->
  forall (ds : string) (b : bool),
    digits_only ds = true -> ds <> EmptyString ->
    removal_test_from name b (ds ++ ("_generate_" ++ name ++ "_table") ++ tail) = true.
Proof.
  intros Htail.
  set (P := "_generate_" ++ name ++ "_table").
  assert (HP : removal_test_from name true (P ++ tail) = true).
  { rewrite removal_test_from_eq. fold P. rewrite drop_prefix_app, Htail. reflexivity. }
  induction ds as [|d ds IH]; intros b Hd Hne; [congruence|].
  cbn in Hd. apply andb_true_iff in Hd as (Hdd & Hd).
  rewrite removal_test_from_eq.
  change (String d ds ++ P ++ tail) with (String d (ds ++ P ++ tail)).
  cbv iota. rewrite Hdd.
  destruct ds as [|d' ds'].
  - change (EmptyString ++ P ++ tail) with (P ++ tail). rewrite HP. apply orb_true_r.
  - rewrite (IH true Hd) by discriminate. apply orb_true_r.
Qed.

Lemma removal_test_from_prefix (name pre rest : string) :
  (forall b, removal_test_from name b rest = true) ->
  forall b, removal_test_from name b (pre ++ rest) = true.
Proof.
  intros H. induction pre as [|c pre IH]; intros b; [apply H|].
  rewrite removal_test_from_eq.
  change (String c pre ++ rest) with (String c (pre ++ rest)). cbv iota.
  rewrite IH. apply orb_true_r.
Qed.

(** The name made for a table is taken by [isFile] and starts with the
    number given plus one. *)
Lemma toFileName_like (name : string) (number : nat) (ext : string) :
  table_part name = true ->
  ext = "ts" \/ ext = "js" ->
  isFile (toFileName name number ext) = true /\
  Number (number_of (toFileName name number ext)) = (number + 1)%nat.
Proof.
  intros Hname Hext.
  set (file := toFileName name number ext).
  set (ds := Js.padStart 2 "0" (Js.toString (number + 1))).
  destruct (toString_digits (number + 1)) as (Hd0 & Hne0).
  destruct (padStart_digits _ Hd0 Hne0) as (Hd & Hne). fold ds in Hd, Hne.
  assert (Hfile : file = ds ++ "_generate_" ++ name ++ "_table." ++ ext) by reflexivity.
  assert (Hspan : Js.span_digits file = (ds, "_generate_" ++ name ++ "_table." ++ ext)).
  { rewrite Hfile. apply (span_digits_app ds "_"); [exact Hd|reflexivity]. }
  split.
  - unfold isFile, generator_name. rewrite Hspan.
    destruct ds; [congruence|]. cbn [String.eqb negb andb].
    change ("_generate_" ++ name ++ "_table." ++ ext)
      with ("_generate_" ++ (name ++ "_table." ++ ext)).
    rewrite drop_prefix_app.
    change (name ++ "_table." ++ ext) with (name ++ String "_" ("table." ++ ext)).
    apply snake_then_table_part; [|exact Hname].
    destruct Hext as [->| ->]; reflexivity.
  - unfold number_of. rewrite Hspan. cbn [fst]. apply Number_padStart_toString.
Qed.

(** X15. The name [toFileName] makes for a table, a number below
    [Number.MAX_SAFE_INTEGER] and one of
    the extensions "ts" and "js" is the name of a generator file:
    [isFile] takes it, [isMappedFile] does not, [isTsFile] takes it
    exactly for "ts"; the number read in it, as [lastNumber] reads it,
    is the number given plus one; and the expression of [remove] for
    that table finds it in any directory named by its resolved path.
    (The table name has the shape the file-name expressions ask
    for.) *)
Theorem toFileName_names_a_generator_file :
  forall (name : string) (number : nat) (ext dir : string),
    table_part name = true ->
    ext = "ts" \/ ext = "js" ->
    (N.of_nat number < MAX_SAFE_INTEGER)%N ->
    resolved_path dir = true ->
    let file := toFileName name number ext in
    isFile file = true /\
    isMappedFile file = false /\
    isTsFile file = String.eqb ext "ts" /\
    Number (number_of file) = (number + 1)%nat /\
    removal_test name (Js.resolvePath dir file) = true.
Proof.
  intros name number ext dir Hname Hext _ _ file.
  set (ds := Js.padStart 2 "0" (Js.toString (number + 1))).
  destruct (toString_digits (number + 1)) as (Hd0 & Hne0).
  destruct (padStart_digits _ Hd0 Hne0) as (Hd & Hne). fold ds in Hd, Hne.
  assert (Hfile : file = ds ++ "_generate_" ++ name ++ "_table." ++ ext) by reflexivity.
  assert (Hspan : Js.span_digits file = (ds, "_generate_" ++ name ++ "_table." ++ ext)).
  { rewrite Hfile. apply (span_digits_app ds "_"); [exact Hd|reflexivity]. }
  assert (Hgen : forall tails,
             generator_name tails file =
               snake_then (fun x => existsb (String.eqb x) tails) false
                          (name ++ "_table." ++ ext)).
  { intros tails. unfold generator_name. rewrite Hspan.
    destruct ds; [congruence|]. cbn [String.eqb negb andb].
    change ("_generate_" ++ name ++ "_table." ++ ext)
      with ("_generate_" ++ (name ++ "_table." ++ ext)).
    now rewrite drop_prefix_app. }
  assert (Hdot : after_dot (name ++ "_table." ++ ext) = Some ext)
    by (rewrite (after_dot_table_part _ _ false Hname); reflexivity).
  assert (Hfile_ok : isFile file = true).
  { unfold isFile. rewrite Hgen.
    change (name ++ "_table." ++ ext) with (name ++ String "_" ("table." ++ ext)).
    apply snake_then_table_part; [|exact Hname].
    destruct Hext as [->| ->]; reflexivity. }
  split; [exact Hfile_ok|]. split; [now apply isFile_not_mapped|]. split; [|split].
  - unfold isTsFile. rewrite Hgen.
    destruct Hext as [->| ->]; cbn [String.eqb Ascii.eqb Bool.eqb andb].
    + change (name ++ "_table." ++ "ts") with (name ++ String "_" "table.ts").
      apply snake_then_table_part; [reflexivity|exact Hname].
    + destruct (snake_then _ false (name ++ "_table." ++ "js")) eqn:Hs; [exfalso|reflexivity].
      apply snake_then_after_dot in Hs as (rest & Hacc & E).
      rewrite Hdot in E. cbn in Hacc. rewrite orb_false_r in Hacc.
      apply String.eqb_eq in Hacc. subst rest. discriminate.
  - unfold number_of. rewrite Hspan. cbn [fst]. apply Number_padStart_toString.
  - unfold removal_test, Js.resolvePath.
    rewrite <- (append_assoc dir "/" file).
    apply removal_test_from_prefix. intros b. rewrite Hfile.
    replace (ds ++ "_generate_" ++ name ++ "_table." ++ ext)
      with (ds ++ ("_generate_" ++ name ++ "_table") ++ ("." ++ ext))
      by (f_equal; cbn; now rewrite append_assoc).
    apply removal_test_from_digits; [|exact Hd|exact Hne].
    destruct Hext as [->| ->]; reflexivity.
Qed.

(** The tenth file of a directory, for the table [order_items]. *)
Lemma toFileName_names_a_generator_file_witness :
  toFileName "order_items" 9 "ts" = "10_generate_order_items_table.ts" /\
  isFile (toFileName "order_items" 9 "ts") = true /\
  Number (number_of (toFileName "order_items" 9 "ts")) = 10%nat.
Proof.
  destruct (toFileName_names_a_generator_file
              "order_items" 9 "ts" Sample.dir eq_refl (or_introl eq_refl)
              eq_refl eq_refl)
    as (Hf & _ & _ & Hn & _).
  split; [reflexivity|]. split; [exact Hf|exact Hn].
Defined.

(* ------------------------------------------------------------------ *)
(** ** The number of the last file                                      *)
(* ------------------------------------------------------------------ *)

Lemma find_invalid_source (names : list string) :
  find (fun file => negb (isFile file))
       (filter (fun name => negb (isMappedFile name)) names) =
  find (fun n => negb (valid_name n)) names.
Proof.
  rewrite <- find_invalid_without_maps. apply find_same.
  intros n. cbn [andb negb]. now rewrite andb_true_r.
Qed.

(** X16. [lastNumber] reads the number of the last source that
    [readdir] lists, whatever the numbers of the others (the numbers
    of the entries being safe integers): for a
    directory whose entries are all sources or compiled artefacts it
    resolves with the number the last source starts with, and with 0
    for a directory without entries; a directory that holds compiled
    artefacts and no source makes it reject (reading [match] of
    [undefined] throws); an entry that is neither a source nor an
    artefact makes it reject and name the first such entry. *)
Theorem lastNumber_reads_the_last_source :
  forall (dir : string) (s s1 : state) (names : list string),
    fs_readdir dir s = (Resolved names, s1) ->
    Forall (fun n => safe (number_of n) = true) names ->
    lastNumber dir s =
      (match find (fun n => negb (valid_name n)) names with
       | Some bad =>
           Rejected (GeneratorHandlerError ("Invalid generator file: " ++ bad))
       | None =>
           match rev (filter isFile names) with
           | last :: _ => Resolved (Number (number_of last))
           | [] =>
               match names with
               | [] => Resolved 0%nat
               | _ => Rejected (GeneratorHandlerError
                                  "Cannot read properties of undefined (reading 'match')")
               end
           end
       end, s1).
Proof.
  intros dir s s1 names H _.
  unfold lastNumber, rewrap, catch, bind at 1. rewrite H.
  destruct names as [|x xs]; [reflexivity|].
  cbv zeta. rewrite find_invalid_source.
  destruct (find (fun n => negb (valid_name n)) (x :: xs)) as [bad|] eqn:Hfind;
    [reflexivity|].
  assert (Hv : Forall (fun n => valid_name n = true) (x :: xs)).
  { apply Forall_forall. intros n Hn.
    pose proof (find_none _ _ Hfind _ Hn) as Hv. now apply negb_false_iff in Hv. }
  rewrite (sources_of_valid _ Hv).
  destruct (rev (filter isFile (x :: xs))) as [|last rest] eqn:Hrev; [reflexivity|].
  assert (Hin : In last (filter isFile (x :: xs)))
    by (apply in_rev; rewrite Hrev; now left).
  apply filter_In in Hin as (_ & Hlast). rewrite Hlast. reflexivity.
Qed.

(** The directory of the samples with the artefacts of the compiler:
    the last source is the third file. With the artefacts alone, the
    call rejects. *)
Lemma lastNumber_reads_the_last_source_witness :
  (let s := Sample.world (Sample.three ++ [Sample.users_d_ts; Sample.users_js_map])
                         Fulfils Fulfils in
   fst (lastNumber Sample.dir s) = Resolved 3%nat) /\
  (let s := Sample.world [Sample.users_d_ts; Sample.users_js_map] Fulfils Fulfils in
   fst (lastNumber Sample.dir s) =
     Rejected (GeneratorHandlerError
                 "Cannot read properties of undefined (reading 'match')")).
Proof.
  split; intros s.
  - rewrite (lastNumber_reads_the_last_source
               Sample.dir s (snd (fs_readdir Sample.dir s))
               ["01_generate_users_table.js"; "02_generate_profiles_table.js";
                "03_generate_products_table.js"; "01_generate_users_table.d.ts";
                "01_generate_users_table.js.map"] eq_refl)
      by (repeat constructor).
    vm_compute. reflexivity.
  - rewrite (lastNumber_reads_the_last_source
               Sample.dir s (snd (fs_readdir Sample.dir s))
               ["01_generate_users_table.d.ts"; "01_generate_users_table.js.map"]
               eq_refl)
      by (repeat constructor).
    vm_compute. reflexivity.
Defined.

(* ------------------------------------------------------------------ *)
(** ** Adding a generator file                                          *)
(* ------------------------------------------------------------------ *)

Section AddingProperties.

Variable readFile : string -> M string.
Variable writeFile : string -> string -> M unit.
Variable assets : string.

Lemma add_unfold (name dir : string) (ts : option bool) :
  isSnakeCase name = true -> isFullStr dir = true ->
  let ext := if match ts with Some b => b | None => false end then "ts" else "js" in
  GeneratorHandler_add readFile writeFile assets name dir ts =
    (template <- rewrap (readFile (Js.resolvePath assets (ext ++ "/generator.txt"))) ;;
     number <- rewrap (lastNumber dir) ;;
     rewrap (writeFile
               (Js.resolvePath dir (toFileName name number ext))
               (Str.replaceAll "[fileName]" (toFileName name number ext)
                  (Str.replaceAll "[tableName]" name
                     (Str.replaceAll "[className]" (toClassName name) template)))) ;;;
     resolve ("Generator added in: "
                ++ Js.resolvePath dir (toFileName name number ext))).
Proof.
  intros Hn Hd. unfold GeneratorHandler_add. rewrite Hn, Hd. cbn [negb].
  destruct ts as [[|]|]; reflexivity.
Qed.

End AddingProperties.

(** X17. [add] writes the file of the next number, in a directory
    named by its resolved path whose last number is below
    [Number.MAX_SAFE_INTEGER]. Once the template
    and the directory are read, it asks for one file to be written: in
    the directory, under the name made of the number of the last
    source plus one (two digits at least), the table and the extension
    ("ts" when the flag is [true], "js" otherwise), with the text of
    the template in which the class, the table and the file are filled
    in; that name is the name of a generator file, so the directory
    stays one that the handler reads. The call resolves with
    "Generator added in: path" when the write resolves, and rejects
    with the message of its failure when it rejects. (The table name
    has the shape the file-name expressions ask for.) *)
Theorem add_writes_the_file_of_the_next_number :
  forall (readFile : string -> M string) (writeFile : string -> string -> M unit)
         (assets name dir : string) (ts : option bool)
         (s s1 s2 : state) (template : string) (number : nat),
    isSnakeCase name = true ->
    table_part name = true ->
    isFullStr dir = true ->
    resolved_path dir = true ->
    resolved_path assets = true ->
    let ext := if match ts with Some b => b | None => false end then "ts" else "js" in
    readFile (Js.resolvePath assets (ext ++ "/generator.txt")) s
      = (Resolved template, s1) ->
    lastNumber dir s1 = (Resolved number, s2) ->
    (N.of_nat number < MAX_SAFE_INTEGER)%N ->
    let file := toFileName name number ext in
    let text :=
      Str.replaceAll "[fileName]" file
        (Str.replaceAll "[tableName]" name
           (Str.replaceAll "[className]" (toClassName name) template)) in
    isFile file = true /\
    Number (number_of file) = (number + 1)%nat /\
    GeneratorHandler_add readFile writeFile assets name dir ts s =
      match writeFile (Js.resolvePath dir file) text s2 with
      | (Resolved _, s3) =>
          (Resolved ("Generator added in: " ++ Js.resolvePath dir file), s3)
      | (Rejected e, s3) => (Rejected (GeneratorHandlerError (message e)), s3)
      | (Pending, s3) => (Pending, s3)
      end.
Proof.
  intros readFile writeFile assets name dir ts s s1 s2 template number
         Hn Ht Hd _ _ ext Hread Hlast _ file text.
  assert (Hext : ext = "ts" \/ ext = "js")
    by (unfold ext; destruct ts as [[|]|]; auto).
  destruct (toFileName_like name number ext Ht Hext) as (Hf & Hnum).
  split; [exact Hf|]. split; [exact Hnum|].
  rewrite (add_unfold readFile writeFile assets name dir ts Hn Hd).
  fold ext. unfold bind at 1, rewrap at 1, catch. rewrite Hread.
  unfold bind at 1, rewrap at 1, catch. rewrite Hlast.
  fold file. fold text.
  unfold bind, rewrap, catch, resolve, reject.
  destruct (writeFile (Js.resolvePath dir file) text s2) as [[[]|e|] s3]; reflexivity.
Qed.

(** A fourth generator is added to the directory of the samples. *)
Lemma add_writes_the_file_of_the_next_number_witness :
  let s := Sample.world Sample.three Fulfils Fulfils in
  let added := "/app/generators/04_generate_order_items_table.js" in
  exists s3 : state,
    GeneratorHandler_add Assets.readFile Assets.writeFile Assets.dir
                         "order_items" Sample.dir None s =
      (Resolved ("Generator added in: " ++ added), s3) /\
    files s3 = (Sample.three ++ [added])%list /\
    isFile "04_generate_order_items_table.js" = true.
Proof.
  intros s added.
  destruct (add_writes_the_file_of_the_next_number
              Assets.readFile Assets.writeFile Assets.dir
              "order_items" Sample.dir None
              s s (snd (lastNumber Sample.dir s)) Assets.template 3)
    as (Hfile & _ & Hrun).
  - reflexivity.
  - reflexivity.
  - reflexivity.
  - reflexivity.
  - reflexivity.
  - reflexivity.
  - vm_compute; reflexivity.
  - reflexivity.
  - rewrite Hrun. eexists. split; [vm_compute; reflexivity|].
    split; [reflexivity|exact Hfile].
Defined.

(** X18. [add] writes nothing into a directory it cannot number: when
    [lastNumber] rejects (an entry is neither a source nor a compiled
    artefact, or the directory holds compiled artefacts and no source,
    or it cannot be read), [add] rejects with a
    [GeneratorHandlerError] that carries the same message, after the
    template and the directory have been read and no other call. *)
Theorem add_writes_nothing_when_the_number_fails :
  forall (readFile : string -> M string) (writeFile : string -> string -> M unit)
         (assets name dir : string) (ts : option bool)
         (s s1 s2 : state) (template : string) (e : error),
    isSnakeCase name = true ->
    isFullStr dir = true ->
    let ext := if match ts with Some b => b | None => false end then "ts" else "js" in
    readFile (Js.resolvePath assets (ext ++ "/generator.txt")) s
      = (Resolved template, s1) ->
    lastNumber dir s1 = (Rejected e, s2) ->
    GeneratorHandler_add readFile writeFile assets name dir ts s =
      (Rejected (GeneratorHandlerError (message e)), s2).
Proof.
  intros readFile writeFile assets name dir ts s s1 s2 template e
         Hn Hd ext Hread Hlast.
  rewrite (add_unfold readFile writeFile assets name dir ts Hn Hd).
  fold ext. unfold bind at 1, rewrap at 1, catch. rewrite Hread.
  unfold bind at 1, rewrap at 1, catch. rewrite Hlast. reflexivity.
Qed.

(** A directory that holds the artefacts of the compiler and no
    source: no generator can be added to it. *)
Lemma add_writes_nothing_when_the_number_fails_witness :
  let fs := [Sample.users_d_ts; Sample.users_js_map] in
  let s := Sample.world fs Fulfils Fulfils in
  fst (GeneratorHandler_add Assets.readFile Assets.writeFile Assets.dir
                            "profiles" Sample.dir None s) =
    Rejected (GeneratorHandlerError
                "Cannot read properties of undefined (reading 'match')") /\
  files (snd (GeneratorHandler_add Assets.readFile Assets.writeFile Assets.dir
                                   "profiles" Sample.dir None s)) = fs.
Proof.
  intros fs s.
  rewrite (add_writes_nothing_when_the_number_fails
             Assets.readFile Assets.writeFile Assets.dir
             "profiles" Sample.dir None
             s s (snd (lastNumber Sample.dir s)) Assets.template
             (GeneratorHandlerError
                "Cannot read properties of undefined (reading 'match')")
             eq_refl eq_refl eq_refl).
  - split; reflexivity.
  - vm_compute; reflexivity.
Defined.


(* ------------------------------------------------------------------ *)
(** ** An apply from its start to its end                               *)
(* ------------------------------------------------------------------ *)

(** When every module gives a generator, [collectGenerators] gives
    them all, one for each path. *)
Lemma collectGenerators_loop_all (paths : list string) :
  forall s : state,
    (forall p, In p paths -> exported (modules s p) <> None) ->
    exists gs,
      GeneratorHandler.collectGenerators_loop paths s =
        (Resolved gs, records (map EvRequire paths) s) /\
      Forall2 (fun p g => exported (modules s p) = Some g) paths gs.
Proof.
  induction paths as [|p rest IH]; intros s Hall.
  - exists []. cbn. rewrite records_nil. split; [reflexivity|constructor].
  - destruct (IH (record (EvRequire p) s)) as (gs & Hrest & HF).
    { intros q Hq. apply Hall. now right. }
    assert (Hp : exported (modules s p) <> None) by (apply Hall; now left).
    cbn [GeneratorHandler.collectGenerators_loop].
    unfold bind at 1, GeneratorHandler.collectGenerator.
    change (modules (record (EvRequire p) s) p) with (modules s p).
    destruct (modules s p) as [g|g| |e] eqn:Hm; try (now elim Hp);
      exists (g :: gs); unfold bind; rewrite Hrest; unfold resolve;
      rewrite record_records, records_records;
      (split; [reflexivity|constructor; [now rewrite Hm|exact HF]]).
Qed.

(** [load()] on a database that does not fail: the rows of the table
    are read, or the table is made. *)
Lemma load_without_failure (s : state) :
  faults s = [] ->
  exists sl,
    GeneratorHandler.load s = (Resolved tt, sl) /\
    faults sl = [] /\ files sl = files s /\ modules sl = modules s /\
    ledger sl = Some (table_rows s) /\
    rows sl = match ledger s with Some rs => rs | None => rows s end /\
    next_id sl = match ledger s with Some _ => next_id s | None => 1%Z end.
Proof.
  destruct s as [r l n f m fl lg]. cbn [faults]. intros ->.
  destruct l as [rs|]; eexists; (split; [reflexivity|]); cbn; auto 10.
Qed.

(** X24. An apply from its start to its end, by a handler that holds
    no rows of a table that is gone, on a database and a file
    system that do not fail: when every pending file of the directory
    (the files that the table does not record) exports a generator
    whose [create()] resolves, [generate] resolves with the count
    "n/n table(s) created" and the table has gained one row for each
    pending file, in the order of the directory, under the batch number
    one above the last; when the table did not exist it has been
    made, and the rows are numbered from 1. *)
Theorem generate_applies_every_pending_file :
  forall (dir : string) (s : state) (allPaths : list string),
    isFullStr dir = true ->
    faults s = [] ->
    (ledger s = None -> rows s = []) ->
    fst (GeneratorHandler.collectPaths dir false s) = Resolved allPaths ->
    let old := table_rows s in
    let pending :=
      filter (fun p => negb (Js.includes (map path old) p)) allPaths in
    let b := (lastBatch (map batch old) + 1)%Z in
    let n := match ledger s with Some _ => next_id s | None => 1%Z end in
    pending <> [] ->
    (forall p, In p pending ->
               exists g, exported (modules s p) = Some g /\ create g = Fulfils) ->
    exists s' : state,
      GeneratorHandler.generate dir s =
        (Resolved (GeneratorHandler.count_of pending pending "created"), s') /\
      ledger s' = Some (old ++ new_rows n (map (fun p => (p, b)) pending))%list.
Proof.
  intros dir s allPaths Hd Hfl Hsync Hpaths old pending b n Hne Hgen.
  destruct (load_without_failure s Hfl)
    as (sl & Hload & Hfl1 & Hf1 & Hm1 & Hl1 & Hr1 & Hn1).
  assert (Hrows : rows sl = old).
  { rewrite Hr1. unfold old, table_rows.
    destruct (ledger s); [reflexivity|now apply Hsync]. }
  destruct (GeneratorHandler.collectPaths dir false s) as [r0 s0] eqn:Hc0.
  cbn [fst] in Hpaths. subst r0.
  pose proof (collectPaths_again dir false s sl s0 allPaths Hc0 Hf1) as Hagain.
  rewrite Hfl1 in Hagain. specialize (Hagain eq_refl).
  pose proof (collectPaths_frame dir false sl)
    as (Hr2 & Hl2 & Hn2 & _ & Hm2 & _ & Hfl2).
  destruct (GeneratorHandler.collectPaths dir false sl) as [r sc] eqn:Hc.
  cbn [fst snd] in *. subst r.
  destruct (collectGenerators_loop_all pending sc) as (gs & Hgs & HF).
  { intros p Hp. rewrite Hm2, Hm1. destruct (Hgen p Hp) as (g & -> & _). discriminate. }
  assert (Hgs' : GeneratorHandler.collectGenerators pending sc =
                 (Resolved gs, records (map EvRequire pending) sc)).
  { destruct pending; [congruence|exact Hgs]. }
  assert (Hall : Forall (fun g => method_of (Apply b) g = Fulfils) gs).
  { clear - HF Hgen Hm1 Hm2. revert Hgen.
    induction HF as [|p g ps gs' Hp HF IH]; intros Hgen; constructor.
    - destruct (Hgen p (or_introl eq_refl)) as (g' & Hg' & Hc).
      rewrite Hm2, Hm1, Hg' in Hp. injection Hp as <-. exact Hc.
    - apply IH. intros q Hq. apply Hgen. now right. }
  destruct (run_resolves (Apply b) pending sc _ gs old Hgs' Hall)
    as (s' & Hrun & Hled & _).
  { rewrite Hl2. exact Hl1. }
  { now rewrite Hfl2, Hfl1. }
  exists s'. split.
  - unfold GeneratorHandler.generate. rewrite Hd. cbn [negb].
    unfold bind at 1.
    unfold GeneratorHandler.beReadyToGenerate, bind at 1. rewrite Hload.
    unfold bind at 1. rewrite Hc.
    unfold bind at 1, GeneratorHandler.this_rows. rewrite Hr2, Hrows.
    fold old. fold pending. fold b.
    destruct pending as [|p0 rest] eqn:Hp; [congruence|].
    unfold resolve. cbn [gen_paths gen_batch]. exact Hrun.
  - rewrite Hled. cbn [committed]. rewrite Hn2, Hn1. reflexivity.
Qed.

(** The first apply of the directory of the samples, on a database
    without the generators table. *)
Lemma generate_applies_every_pending_file_witness :
  let s := Sample.world Sample.three Fulfils Fulfils in
  exists s' : state,
    GeneratorHandler.generate Sample.dir s = (Resolved "3/3 tables created", s') /\
    ledger s' = Some [mkRow 1 1 Sample.users_js; mkRow 2 1 Sample.profiles_js;
                      mkRow 3 1 Sample.products_js].
Proof.
  intros s.
  destruct (generate_applies_every_pending_file Sample.dir s Sample.three)
    as (s' & Hrun & Hl).
  - reflexivity.
  - reflexivity.
  - reflexivity.
  - vm_compute; reflexivity.
  - discriminate.
  - intros p [<-|[<-|[<-|[]]]]; eexists; split; reflexivity.
  - exists s'. split; [exact Hrun|exact Hl].
Defined.

(* ------------------------------------------------------------------ *)
(** ** What an apply can do to the table                                *)
(* ------------------------------------------------------------------ *)

Lemma in_firstn {A} (k : nat) (l : list A) (x : A) : In x (firstn k l) -> In x l.
Proof.
  intros H. rewrite <- (firstn_skipn k l). apply in_or_app. now left.
Qed.

(** The paths done by the loop are the paths it started with and a
    prefix of the paths it was given. *)
Lemma each_done_prefix (method : MegaGenerator -> returned) (ev : string -> event)
      (what : string) (todo : list (string * MegaGenerator)) :
  forall (done : list string) (s : state),
    exists k,
      snd (fst (GeneratorHandler.each method ev what todo done s)) =
        (done ++ map fst (firstn k todo))%list.
Proof.
  induction todo as [|[p g] rest IH]; intros done s.
  - exists 0%nat. cbn. now rewrite app_nil_r.
  - cbn [GeneratorHandler.each].
    destruct (method g); try (exists 0%nat; cbn; now rewrite app_nil_r).
    destruct (IH (done ++ [p])%list (record (ev p) s)) as (k & Hk).
    exists (S k). rewrite Hk. cbn. now rewrite <- app_assoc.
Qed.

(** Whatever a batch answers, it has committed a prefix of its paths,
    or nothing. *)
Lemma run_ledger (d : direction) (paths : list string) (s : state) :
  ledger (snd (run d paths s)) = ledger s \/
  exists k rs,
    ledger s = Some rs /\
    ledger (snd (run d paths s)) = Some (committed d (firstn k paths) (next_id s) rs).
Proof.
  destruct (GeneratorHandler.collectGenerators paths s) as [[gs|e|] s0] eqn:Hgs.
  - destruct (collectGenerators_resolved _ _ _ _ Hgs) as (_ & -> & Hlen).
    rewrite (run_unfold d _ _ _ _ Hgs).
    set (s0 := records (map EvRequire paths) s).
    destruct (each_state (method_of d) (call_of d) (method_name d)
                (combine paths gs) [] s0) as (evs & Hs).
    destruct (each_done_prefix (method_of d) (call_of d) (method_name d)
                (combine paths gs) [] s0) as (k & Hk).
    destruct (GeneratorHandler.each (method_of d) (call_of d) (method_name d)
                (combine paths gs) [] s0) as [[outcome done] s1].
    cbn [fst snd app] in Hs, Hk. subst s1.
    rewrite map_fst_firstn_combine in Hk by (symmetry; exact Hlen). subst done.
    pose proof (commit_effect d (firstn k paths) (records evs s0))
      as (_ & _ & _ & _ & Hcases & _).
    assert (Hcommit :
              ledger (snd (commit d (firstn k paths) (records evs s0))) = ledger s \/
              exists k' rs,
                ledger s = Some rs /\
                ledger (snd (commit d (firstn k paths) (records evs s0))) =
                  Some (committed d (firstn k' paths) (next_id s) rs)).
    { destruct Hcases as [(_ & rs & Hl & Hl')|(_ & Hl & _)].
      - right. exists k, rs. split; [exact Hl|exact Hl'].
      - left. exact Hl. }
    destruct outcome as [|e|].
    + unfold bind, resolve.
      destruct (commit d (firstn k paths) (records evs s0)) as [[[]|e|] s2];
        cbn [snd] in *; exact Hcommit.
    + destruct (0 <? List.length (firstn k paths))%nat; [|now left].
      unfold bind, reject.
      destruct (commit d (firstn k paths) (records evs s0)) as [[[]|e'|] s2];
        cbn [snd] in *; exact Hcommit.
    + now left.
  - left.
    assert (Hl : ledger s0 = ledger s).
    { destruct paths as [|p rest]; [cbn in Hgs; now injection Hgs as _ <-|].
      cbn [GeneratorHandler.collectGenerators] in Hgs.
      destruct (collectGenerators_loop_frame (p :: rest) s) as (_ & n & Hn).
      clear Hn.
      assert (H : forall ps s, ledger (snd (GeneratorHandler.collectGenerators_loop ps s))
                               = ledger s).
      { clear. induction ps as [|q qs IH]; intros s; [reflexivity|].
        cbn [GeneratorHandler.collectGenerators_loop].
        unfold bind, GeneratorHandler.collectGenerator.
        destruct (modules (record (EvRequire q) s) q); try reflexivity;
          specialize (IH (record (EvRequire q) s));
          destruct (GeneratorHandler.collectGenerators_loop qs (record (EvRequire q) s))
            as [[gs|e|] s']; cbn [snd resolve] in *; exact IH. }
      specialize (H (p :: rest) s). now rewrite Hgs in H. }
    destruct d; cbn [run];
      unfold GeneratorHandler.createTables, GeneratorHandler.dropTables, bind;
      rewrite Hgs; exact Hl.
  - left.
    assert (Hl : ledger s0 = ledger s).
    { destruct paths as [|p rest]; [cbn in Hgs; now injection Hgs as _ <-|].
      cbn [GeneratorHandler.collectGenerators] in Hgs.
      destruct (collectGenerators_loop_frame (p :: rest) s) as (_ & n & Hn).
      clear Hn.
      assert (H : forall ps s, ledger (snd (GeneratorHandler.collectGenerators_loop ps s))
                               = ledger s).
      { clear. induction ps as [|q qs IH]; intros s; [reflexivity|].
        cbn [GeneratorHandler.collectGenerators_loop].
        unfold bind, GeneratorHandler.collectGenerator.
        destruct (modules (record (EvRequire q) s) q); try reflexivity;
          specialize (IH (record (EvRequire q) s));
          destruct (GeneratorHandler.collectGenerators_loop qs (record (EvRequire q) s))
            as [[gs|e|] s']; cbn [snd resolve] in *; exact IH. }
      specialize (H (p :: rest) s). now rewrite Hgs in H. }
    destruct d; cbn [run];
      unfold GeneratorHandler.createTables, GeneratorHandler.dropTables, bind;
      rewrite Hgs; exact Hl.
Qed.

(** A [load()] that rejects has left the table as it was. *)
Lemma load_rejected (s s1 : state) (e : error) :
  GeneratorHandler.load s = (Rejected e, s1) -> ledger s1 = ledger s.
Proof.
  destruct s as [r l n f m fl lg].
  unfold GeneratorHandler.load, catch, bind, raw, call,
    GeneratorHandler.set_rows, Generator_create, schema, call, reject.
  cbn.
  destruct fl as [|[e0|] fl]; cbn.
  - destruct l as [rs|]; cbn; discriminate.
  - destruct e0 as [q|q|q]; cbn; try (intros H; injection H as _ <-; reflexivity).
    destruct fl as [|[e2|] fl]; cbn; destruct l as [rs|]; cbn;
      try discriminate; intros H; injection H as _ <-; reflexivity.
  - destruct l as [rs|]; cbn; [discriminate|].
    destruct fl as [|[e2|] fl]; cbn; try discriminate;
      intros H; injection H as _ <-; reflexivity.
Qed.

(** [load()] settles. *)
Lemma load_settles (s : state) : fst (GeneratorHandler.load s) <> Pending.
Proof.
  destruct s as [r l n f m fl lg].
  unfold GeneratorHandler.load, catch, bind, raw, call,
    GeneratorHandler.set_rows, Generator_create, schema, call, reject.
  cbn.
  destruct fl as [|[e0|] fl]; cbn.
  - destruct l as [rs|]; cbn; discriminate.
  - destruct e0 as [q|q|q]; cbn; try discriminate.
    destruct fl as [|[e2|] fl]; cbn; destruct l as [rs|]; cbn; discriminate.
  - destruct l as [rs|]; cbn; [discriminate|].
    destruct fl as [|[e2|] fl]; cbn; discriminate.
Qed.

(** X25. Whatever [generate] answers, on a handler that holds no rows
    of a table that is gone, it has only added rows to the
    table, and only rows of one batch: the table is as it was, or it
    holds the rows it held, in their order, followed by rows of paths
    that it did not record, all under the batch number one above the
    last (a table made by the call holds these rows only). No row is
    deleted or changed, also when the call rejects or never
    settles. *)
Theorem generate_only_adds_rows_of_one_batch :
  forall (dir : string) (s s1 : state) (r : promise string),
    (ledger s = None -> rows s = []) ->
    GeneratorHandler.generate dir s = (r, s1) ->
    ledger s1 = ledger s \/
    exists (done : list string) (n : Z),
      ledger s1 =
        Some (table_rows s ++
              new_rows n
                (map (fun p => (p, lastBatch (map batch (table_rows s)) + 1)%Z)
                     done))%list /\
      (forall p, In p done -> ~ In p (map path (table_rows s))).
Proof.
  intros dir s s1 r Hsync H.
  unfold GeneratorHandler.generate in H.
  destruct (negb (isFullStr dir)); [injection H as _ <-; now left|].
  unfold bind at 1 in H.
  unfold GeneratorHandler.beReadyToGenerate, bind at 1 in H.
  pose proof (load_settles s) as Hsettles.
  destruct (GeneratorHandler.load s) as [[[]|e|] sl] eqn:Hload.
  2:{ injection H as _ <-. left. exact (load_rejected _ _ _ Hload). }
  2:{ now elim Hsettles. }
  destruct (load_in_sync _ _ Hsync Hload) as (Hrows & Hled & _).
  assert (Hnone : forall s', ledger s' = ledger sl ->
                    ledger s' = ledger s \/
                    exists (done : list string) (n : Z),
                      ledger s' =
                        Some (table_rows s ++
                              new_rows n
                                (map (fun p => (p, lastBatch (map batch (table_rows s)) + 1)%Z)
                                     done))%list /\
                      (forall p, In p done -> ~ In p (map path (table_rows s)))).
  { intros s' Hs'. right. exists [], 0%Z. cbn. rewrite app_nil_r.
    split; [congruence|intros p []]. }
  unfold bind at 1 in H.
  pose proof (collectPaths_frame dir false sl) as (Hr2 & Hl2 & Hn2 & _).
  destruct (GeneratorHandler.collectPaths dir false sl) as [[allPaths|e|] sc] eqn:Hcoll;
    cbn [snd] in Hr2, Hl2, Hn2.
  2,3: (injection H as _ <-; now apply Hnone).
  unfold bind at 1, GeneratorHandler.this_rows in H.
  rewrite Hr2, Hrows in H.
  set (pending := filter (fun p => negb (Js.includes (map path (table_rows s)) p))
                         allPaths) in *.
  assert (Hpend : forall p, In p pending -> ~ In p (map path (table_rows s))).
  { intros p Hp. apply filter_In in Hp as (_ & Hp).
    now apply negb_true_iff, includes_false in Hp. }
  destruct pending as [|p0 rest] eqn:Hp.
  { injection H as _ <-. now apply Hnone. }
  unfold resolve in H. cbn [gen_paths gen_batch] in H.
  change (GeneratorHandler.createTables (p0 :: rest)
            (lastBatch (map batch (table_rows s)) + 1) sc)
    with (run (Apply (lastBatch (map batch (table_rows s)) + 1)) (p0 :: rest) sc) in H.
  destruct (run_ledger (Apply (lastBatch (map batch (table_rows s)) + 1))
              (p0 :: rest) sc) as [Hsame|(k & rs & Hl & Hl')];
    rewrite H in *; cbn [snd] in *.
  - apply Hnone. congruence.
  - right. rewrite Hl2, Hled in Hl. injection Hl as <-.
    exists (firstn k (p0 :: rest)), (next_id sc).
    split; [exact Hl'|].
    intros p Hin. apply Hpend. exact (in_firstn _ _ _ Hin).
Qed.

(** The [create()] of the second of three pending files rejects: the
    table holds the row it held and the row of the first pending
    file. *)
Lemma generate_only_adds_rows_of_one_batch_witness :
  let orders := "/app/generators/00_generate_orders_table.js" in
  let s := Sample.world_with [mkRow 1 1 orders] Sample.three
                             (RejectsWith Sample.ops) Fulfils in
  let s1 := snd (GeneratorHandler.generate Sample.dir s) in
  (ledger s1 = ledger s \/
   exists (done : list string) (n : Z),
     ledger s1 =
       Some (table_rows s ++
             new_rows n
               (map (fun p => (p, lastBatch (map batch (table_rows s)) + 1)%Z)
                    done))%list /\
     (forall p, In p done -> ~ In p (map path (table_rows s)))) /\
  ledger s1 = Some [mkRow 1 1 orders; mkRow 2 2 Sample.users_js].
Proof.
  intros orders s s1. split; [|vm_compute; reflexivity].
  apply (generate_only_adds_rows_of_one_batch
           Sample.dir s s1 (fst (GeneratorHandler.generate Sample.dir s))).
  - discriminate.
  - unfold s1. now destruct (GeneratorHandler.generate Sample.dir s).
Defined.

(* ------------------------------------------------------------------ *)
(** ** Applying again after a failure                                   *)
(* ------------------------------------------------------------------ *)

Lemma filter_not_in_prefix (l : list string) :
  NoDup l ->
  forall k, filter (fun x => negb (Js.includes (firstn k l) x)) l = skipn k l.
Proof.
  induction 1 as [|a l Ha Hnd IH]; intros k.
  - now destruct k.
  - destruct k as [|k].
    + cbn [firstn skipn]. now apply filter_keep_all.
    + cbn [firstn skipn filter]. unfold Js.includes at 1. cbn [existsb].
      rewrite String.eqb_refl. cbn [orb negb].
      rewrite <- (IH k). apply filter_ext_in. intros x Hx.
      unfold Js.includes. cbn [existsb].
      destruct (String.eqb_spec x a) as [->|_]; [contradiction|reflexivity].
Qed.

Lemma filter_not_in_app (A B l : list string) :
  filter (fun p => negb (Js.includes (A ++ B) p)) l =
  filter (fun p => negb (Js.includes B p))
         (filter (fun p => negb (Js.includes A p)) l).
Proof.
  rewrite filter_filter. apply filter_ext. intros x.
  unfold Js.includes. now rewrite existsb_app, negb_orb.
Qed.

(** X26. An apply can be taken up where it stopped. Whatever the
    first [generate] answered, on a handler that held no rows of a
    table that is gone, the table then records the paths it
    recorded and a prefix of the pending paths of the directory; the
    next [generate], by a handler of its own on a database and a file
    system that do not fail, plans the pending paths that follow that
    prefix, in the order of the directory, under the batch number one
    above the last of the table, and finds nothing to generate when
    the prefix is all of them. (The directory lists no file twice.) *)
Theorem generate_resumes_where_it_stopped :
  forall (dir : string) (s sl sc s1 s1' : state) (allPaths : list string)
         (r : promise string),
    isFullStr dir = true ->
    (ledger s = None -> rows s = []) ->
    GeneratorHandler.load s = (Resolved tt, sl) ->
    GeneratorHandler.collectPaths dir false sl = (Resolved allPaths, sc) ->
    NoDup allPaths ->
    GeneratorHandler.generate dir s = (r, s1) ->
    ledger s1' = ledger s1 ->
    files s1' = files s ->
    faults s1' = [] ->
    let old := table_rows s in
    let pending :=
      filter (fun p => negb (Js.includes (map path old) p)) allPaths in
    exists k : nat,
      map path (table_rows s1) = (map path old ++ firstn k pending)%list /\
      fst (GeneratorHandler.beReadyToGenerate dir s1') =
        match skipn k pending with
        | [] => Rejected (GeneratorHandlerError "Nothing to generate")
        | rest =>
            Resolved (mkGen rest (lastBatch (map batch (table_rows s1)) + 1))
        end.
Proof.
  intros dir s sl sc s1 s1' allPaths r Hdir Hsync Hload Hcoll Hnd Hgen Hled Hfiles
         Hfaults old pending.
  destruct (load_in_sync _ _ Hsync Hload) as (Hrows & Hledl & Hfl & _).
  pose proof (collectPaths_frame dir false sl) as (Hr2 & Hl2 & _).
  rewrite Hcoll in Hr2, Hl2; cbn [snd] in Hr2, Hl2.
  (* what the first call left *)
  assert (Hfirst : exists k n,
             ledger s1 =
               Some (old ++ new_rows n
                              (map (fun p => (p, lastBatch (map batch old) + 1)%Z)
                                   (firstn k pending)))%list).
  { assert (Hnone : ledger sc = Some old -> exists k n,
               ledger sc =
                 Some (old ++ new_rows n
                                (map (fun p => (p, lastBatch (map batch old) + 1)%Z)
                                     (firstn k pending)))%list).
    { intros E. exists 0%nat, 0%Z. cbn. now rewrite app_nil_r. }
    unfold GeneratorHandler.generate in Hgen. rewrite Hdir in Hgen. cbn [negb] in Hgen.
    unfold bind at 1 in Hgen.
    unfold GeneratorHandler.beReadyToGenerate, bind at 1 in Hgen. rewrite Hload in Hgen.
    unfold bind at 1 in Hgen. rewrite Hcoll in Hgen.
    unfold bind at 1, GeneratorHandler.this_rows in Hgen.
    rewrite Hr2, Hrows in Hgen. fold old in Hgen. fold pending in Hgen.
    destruct pending as [|p0 rest] eqn:Hp.
    { injection Hgen as _ <-. apply Hnone. rewrite Hl2. exact Hledl. }
    unfold resolve in Hgen. cbn [gen_paths gen_batch] in Hgen.
    change (GeneratorHandler.createTables (p0 :: rest) (lastBatch (map batch old) + 1) sc)
      with (run (Apply (lastBatch (map batch old) + 1)) (p0 :: rest) sc) in Hgen.
    destruct (run_ledger (Apply (lastBatch (map batch old) + 1)) (p0 :: rest) sc)
      as [Hsame|(k & rs & Hl & Hl')]; rewrite Hgen in *; cbn [snd] in *.
    - exists 0%nat, 0%Z. cbn. rewrite app_nil_r, Hsame, Hl2. exact Hledl.
    - rewrite Hl2, Hledl in Hl. injection Hl as <-.
      exists k, (next_id sc). exact Hl'. }
  destruct Hfirst as (k & n & Hl1).
  assert (Ht1 : map path (table_rows s1) = (map path old ++ firstn k pending)%list).
  { unfold table_rows at 1. rewrite Hl1, map_app, new_rows_paths. reflexivity. }
  exists k. split; [exact Ht1|].
  (* the second plan *)
  destruct (load_without_failure s1' Hfaults)
    as (sl' & Hload' & Hfl' & Hf' & _ & Hll' & Hr' & _).
  assert (Hrows' : rows sl' = table_rows s1).
  { rewrite Hr', Hled. unfold table_rows. now rewrite Hl1. }
  pose proof (collectPaths_again dir false sl sl' sc allPaths Hcoll) as Hagain.
  assert (Hfst : fst (GeneratorHandler.collectPaths dir false sl') = Resolved allPaths).
  { apply Hagain; [congruence|now rewrite Hfl']. }
  pose proof (collectPaths_frame dir false sl') as (Hr2' & _).
  destruct (GeneratorHandler.collectPaths dir false sl') as [r' sc'] eqn:Hcoll'.
  cbn [fst snd] in *. subst r'.
  unfold GeneratorHandler.beReadyToGenerate, bind at 1. rewrite Hload'.
  unfold bind at 1. rewrite Hcoll'.
  unfold bind, GeneratorHandler.this_rows. rewrite Hr2', Hrows', Ht1.
  rewrite filter_not_in_app. fold pending.
  rewrite filter_not_in_prefix by (apply NoDup_filter; exact Hnd).
  destruct (skipn k pending); reflexivity.
Qed.

(** The [create()] of the second of three files rejects, so the first
    apply records the first file under batch 1; the next one plans the
    second and the third under batch 2. *)
Lemma generate_resumes_where_it_stopped_witness :
  let s := Sample.world_with [] Sample.three (RejectsWith Sample.ops) Fulfils in
  let s1 := snd (GeneratorHandler.generate Sample.dir s) in
  is_resolved (fst (GeneratorHandler.generate Sample.dir s)) = false /\
  fst (GeneratorHandler.beReadyToGenerate Sample.dir s1) =
    Resolved (mkGen [Sample.profiles_js; Sample.products_js] 2).
Proof.
  intros s s1. split; [vm_compute; reflexivity|].
  destruct (generate_resumes_where_it_stopped
              Sample.dir s
              (snd (GeneratorHandler.load s))
              (snd (GeneratorHandler.collectPaths Sample.dir false
                      (snd (GeneratorHandler.load s))))
              s1 s1 Sample.three
              (fst (GeneratorHandler.generate Sample.dir s)))
    as (k & Hpaths & Hplan).
  - reflexivity.
  - discriminate.
  - reflexivity.
  - vm_compute; reflexivity.
  - repeat constructor; cbn; intuition discriminate.
  - unfold s1. now destruct (GeneratorHandler.generate Sample.dir s).
  - reflexivity.
  - vm_compute; reflexivity.
  - vm_compute; reflexivity.
  - assert (Hk : k = 1%nat).
    { assert (E : map path (table_rows s1) = [Sample.users_js])
        by (vm_compute; reflexivity).
      rewrite E in Hpaths.
      change (filter _ Sample.three) with Sample.three in Hpaths.
      cbn [table_rows map app] in Hpaths.
      destruct k as [|[|k]]; [discriminate|reflexivity|discriminate]. }
    subst k. rewrite Hplan. vm_compute. reflexivity.
Defined.

(* ------------------------------------------------------------------ *)
(** ** The name of the class of a generator                             *)
(* ------------------------------------------------------------------ *)

Lemma toUpperCase_lower (c : ascii) :
  Js.is_lower c = true -> is_upper (Str.toUpperCase c) = true.
Proof.
  destruct c as [[] [] [] [] [] [] [] []]; vm_compute; congruence.
Qed.

(** The parts of a table name are segments. *)
Lemma split_table_part (name : string) :
  forall b : bool,
    snake b name = true ->
    match Str.split "_" name with
    | [] => False
    | part :: parts =>
        (if b then lowdig part else seg part) = true /\
        Forall (fun p => seg p = true) parts
    end.
Proof.
  induction name as [|c r IH]; intros b H.
  - cbn in H. subst b. cbn. split; [reflexivity|constructor].
  - cbn [snake] in H. cbn [Str.split]. destruct b.
    + destruct (Js.is_lower c || Js.is_digit c) eqn:Hc.
      * assert (Hu : Ascii.eqb c "_" = false).
        { revert Hc. clear. destruct c as [[] [] [] [] [] [] [] []]; vm_compute; congruence. }
        rewrite Hu. specialize (IH true H).
        destruct (Str.split "_" r) as [|part parts]; [destruct IH|].
        destruct IH as (Hp & Hps). split; [|exact Hps]. cbn. now rewrite Hc, Hp.
      * destruct (Ascii.eqb c "_"); [|discriminate].
        specialize (IH false H).
        destruct (Str.split "_" r) as [|part parts]; [destruct IH|].
        destruct IH as (Hp & Hps). split; [reflexivity|]. now constructor.
    + destruct (Js.is_lower c) eqn:Hc; [|discriminate].
      assert (Hu : Ascii.eqb c "_" = false).
      { revert Hc. clear. destruct c as [[] [] [] [] [] [] [] []]; vm_compute; congruence. }
      rewrite Hu. specialize (IH true H).
      destruct (Str.split "_" r) as [|part parts]; [destruct IH|].
      destruct IH as (Hp & Hps). split; [|exact Hps]. cbn. now rewrite Hc, Hp.
Qed.

Lemma lowdig_alnum (s : string) : lowdig s = true -> alnum s = true.
Proof.
  induction s as [|c s IH]; [reflexivity|]. cbn.
  intros H. apply andb_true_iff in H as (Hc & Hs).
  rewrite (IH Hs), andb_true_r.
  apply orb_true_iff in Hc as [Hc|Hc]; rewrite Hc; [reflexivity|apply orb_true_r].
Qed.

Lemma capitalize_seg (p : string) :
  seg p = true -> class_name (Str.capitalize p) = true.
Proof.
  destruct p as [|c r]; [discriminate|]. cbn.
  intros H. apply andb_true_iff in H as (Hc & Hr).
  now rewrite (toUpperCase_lower _ Hc), (lowdig_alnum _ Hr).
Qed.

Lemma alnum_app (a b : string) : alnum (a ++ b) = alnum a && alnum b.
Proof.
  induction a as [|c a IH]; [reflexivity|]. cbn. now rewrite IH, andb_assoc.
Qed.

Lemma class_name_alnum (s : string) : class_name s = true -> alnum s = true.
Proof.
  destruct s as [|c r]; [discriminate|]. cbn.
  intros H. apply andb_true_iff in H as (Hc & Hr).
  rewrite Hc, Hr. cbn. now rewrite orb_true_r.
Qed.

Lemma join_class_names (parts : list string) :
  Forall (fun p => class_name p = true) parts ->
  alnum (Js.join EmptyString parts) = true.
Proof.
  induction 1 as [|p ps Hp _ IH]; [reflexivity|].
  cbn [Js.join]. destruct ps as [|q qs].
  - now apply class_name_alnum.
  - cbn [append]. rewrite alnum_app, (class_name_alnum _ Hp). exact IH.
Qed.

Lemma class_name_app (a b : string) :
  class_name a = true -> alnum b = true -> class_name (a ++ b) = true.
Proof.
  destruct a as [|c a]; [discriminate|]. cbn.
  intros H Hb. apply andb_true_iff in H as (Hc & Ha).
  now rewrite Hc, alnum_app, Ha, Hb.
Qed.

(** X27. The name [toClassName] makes for a table is the name of a
    class: it starts with a capital letter, holds letters and digits
    only (the underscores of the table name are gone, each segment
    starts with its capital), and ends with "TableGenerator"; so the
    text "class [className] extends MegaGenerator" of the template is
    filled in with a name. (The table name has the shape the file-name
    expressions ask for.) *)
Theorem toClassName_names_a_class :
  forall name : string,
    table_part name = true ->
    class_name (toClassName name) = true /\
    exists stem, toClassName name = stem ++ "TableGenerator" /\ class_name stem = true.
Proof.
  intros name H. unfold table_part in H.
  pose proof (split_table_part name false H) as Hs.
  assert (Hstem : class_name (Js.join EmptyString
                                (map Str.capitalize (Str.split "_" name))) = true).
  { destruct (Str.split "_" name) as [|part parts]; [destruct Hs|].
    destruct Hs as (Hp & Hps). cbn [map Js.join].
    assert (Hcs : Forall (fun p => class_name p = true) (map Str.capitalize parts)).
    { apply Forall_map. eapply Forall_impl; [|exact Hps]. exact capitalize_seg. }
    destruct (map Str.capitalize parts) as [|q qs] eqn:Hm.
    - now apply capitalize_seg.
    - cbn [append]. apply class_name_app; [now apply capitalize_seg|].
      now apply join_class_names. }
  split.
  - unfold toClassName. apply class_name_app; [exact Hstem|reflexivity].
  - eexists. split; [reflexivity|exact Hstem].
Qed.

(** The class of the generator of the table [order_items]. *)
Lemma toClassName_names_a_class_witness :
  toClassName "order_items" = "OrderItemsTableGenerator" /\
  class_name (toClassName "order_items") = true.
Proof.
  split; [reflexivity|].
  exact (proj1 (toClassName_names_a_class "order_items" eq_refl)).
Defined.
(* ================================================================== *)
(** * The arguments of a command                                        *)
(* ================================================================== *)

Import MegaCommand.

(* ------------------------------------------------------------------ *)
(** ** What [validate] returns                                          *)
(* ------------------------------------------------------------------ *)

(** What the loop of [validate] adds to the two arrays when it comes to
    its end. *)
Lemma validate_loop_spec (params : list Param) :
  forall (i : nat) (args : list string)
         (A : list (string * option string)) (O : list (string * bool))
         (r : Result),
    validate_loop params i args A O = Returns r ->
    Forall (fun p => is_type_char (type p) = true) params /\
    (exists A',
        arguments r = (A ++ A')%list /\
        Forall2 (fun p a => fst a = key p /\
                            (type p = "!"%char -> snd a <> None) /\
                            (forall v, snd a = Some v -> String.prefix "-" v = false))
                (filter (fun p => negb (Ascii.eqb (type p) "-")) params) A') /\
    (exists O',
        options r = (O ++ O')%list /\
        map fst O' = map key (filter (fun p => Ascii.eqb (type p) "-") params)).
Proof.
  induction params as [|p rest IH]; intros i args A O r H.
  - cbn in H. injection H as <-. cbn.
    split; [constructor|]. split; exists []; rewrite app_nil_r; split; auto; constructor.
  - cbn [validate_loop] in H. cbn [filter].
    destruct (Ascii.eqb_spec (type p) "-") as [Ht|Ht].
    + (* an option *)
      assert (Hnext : exists O1, validate_loop rest (S i) args A (O ++ [(key p, O1)])%list
                                 = Returns r).
      { destruct (nth_error args i) as [a|]; [|eauto].
        destruct (negb (String.eqb a ("-" ++ key p))); [discriminate|eauto]. }
      destruct Hnext as (O1 & Hnext).
      destruct (IH _ _ _ _ _ Hnext) as (Hty & (A' & HA & HF) & (O' & HO & HK)).
      split; [constructor; [unfold is_type_char; rewrite Ht; reflexivity|exact Hty]|].
      split; [exists A'; cbn [negb]; auto|].
      exists ((key p, O1) :: O'). rewrite HO, <- app_assoc. cbn. now rewrite HK.
    + destruct (Ascii.eqb_spec (type p) "?") as [Hq|Hq].
      * (* an optional argument *)
        assert (Hnext : exists args' v,
                   validate_loop rest (S i) args' (A ++ [(key p, v)])%list O = Returns r /\
                   (forall a, v = Some a -> String.prefix "-" a = false)).
        { destruct (nth_error args i) as [a|].
          - destruct (String.prefix "-" a) eqn:Hd.
            + exists (firstn i args ++ a :: skipn i args)%list, None.
              split; [exact H|discriminate].
            + exists args, (Some a). split; [exact H|]. intros a' E. now injection E as <-.
          - exists args, None. split; [exact H|discriminate]. }
        destruct Hnext as (args' & v & Hnext & Hv).
        destruct (IH _ _ _ _ _ Hnext) as (Hty & (A' & HA & HF) & HOpt).
        split; [constructor; [unfold is_type_char; rewrite Hq; reflexivity|exact Hty]|].
        split; [|exact HOpt].
        exists ((key p, v) :: A'). rewrite HA, <- app_assoc. split; [reflexivity|].
        cbn [negb]. constructor; [|exact HF]. cbn. repeat split; auto.
        intros E. rewrite E in Hq. discriminate.
      * (* a required argument *)
        destruct (nth_error args i) as [a|]; [|discriminate].
        destruct (Ascii.eqb_spec (type p) "!") as [Hr|Hr]; [|discriminate].
        destruct (String.prefix "-" a) eqn:Hd; [discriminate|]. cbn [negb andb] in H.
        destruct (IH _ _ _ _ _ H) as (Hty & (A' & HA & HF) & HOpt).
        split; [constructor; [unfold is_type_char; rewrite Hr; reflexivity|exact Hty]|].
        split; [|exact HOpt].
        exists ((key p, Some a) :: A'). rewrite HA, <- app_assoc. split; [reflexivity|].
        cbn [negb]. constructor; [|exact HF]. cbn. repeat split; auto.
        -- discriminate.
        -- intros v E. now injection E as <-.
Qed.

(** X19. When [validate] returns, its result has one argument for each
    parameter that is not an option and one option for each parameter
    that is, under the keys of the parameters and in their order; a
    required argument has a value, and no value of an argument starts
    with a dash. (All the types are among "!", "?" and "-".) So
    [argument(name)] and [option(name)] find every name that the syntax
    declares. *)
Theorem validate_reads_every_parameter :
  forall (params : list Param) (args : list string) (r : Result),
    validate params args = Returns r ->
    Forall (fun p => is_type_char (type p) = true) params /\
    Forall2 (fun p a => fst a = key p /\
                        (type p = "!"%char -> snd a <> None) /\
                        (forall v, snd a = Some v -> String.prefix "-" v = false))
            (filter (fun p => negb (Ascii.eqb (type p) "-")) params)
            (arguments r) /\
    map fst (options r) =
      map key (filter (fun p => Ascii.eqb (type p) "-") params).
Proof.
  intros params args r H. unfold validate in H.
  destruct (List.length params <? List.length args)%nat; [discriminate|].
  destruct (validate_loop_spec _ _ _ _ _ _ H)
    as (Hty & (A' & HA & HF) & (O' & HO & HK)).
  cbn [app] in HA, HO. subst A' O'. auto.
Qed.

(** A table, an optional name left out, and a flag. *)
Lemma validate_reads_every_parameter_witness :
  let params := [mkParam "table" "!"; mkParam "name" "?"; mkParam "force" "-"] in
  validate params ["users"; "-force"] =
    Returns (mkResult [("table", Some "users"); ("name", None)] [("force", true)]) /\
  Forall (fun p => is_type_char (type p) = true) params.
Proof.
  intros params.
  assert (H : validate params ["users"; "-force"] =
              Returns (mkResult [("table", Some "users"); ("name", None)]
                                [("force", true)])) by reflexivity.
  destruct (validate_reads_every_parameter params ["users"; "-force"] _ H)
    as (Hty & _).
  split; [exact H|exact Hty].
Defined.

(* ------------------------------------------------------------------ *)
(** ** A syntax of required arguments                                   *)
(* ------------------------------------------------------------------ *)

Lemma nth_error_skipn {A} (l : list A) (i : nat) :
  nth_error l i = hd_error (skipn i l).
Proof.
  revert l; induction i as [|i IH]; intros l; destruct l; try reflexivity.
  cbn. apply IH.
Qed.

Lemma skipn_S_tl {A} (l : list A) (i : nat) : skipn (S i) l = tl (skipn i l).
Proof.
  revert l; induction i as [|i IH]; intros l.
  - now destruct l.
  - destruct l as [|a l]; [reflexivity|]. exact (IH l).
Qed.

Lemma validate_loop_required (keys : list string) :
  forall (i : nat) (args : list string) (A : list (string * option string)),
    validate_loop (map (fun k => mkParam k "!") keys) i args A [] =
      match first_unmet keys (skipn i args) with
      | Some k => MegaCommandError ("Missing required argument: " ++ k)
      | None =>
          Returns (mkResult (A ++ combine keys (map Some (skipn i args)))%list [])
      end.
Proof.
  induction keys as [|k ks IH]; intros i args A.
  - cbn. now rewrite app_nil_r.
  - cbn [map validate_loop key type first_unmet].
    change (Ascii.eqb "!" "-") with false. change (Ascii.eqb "!" "?") with false.
    change (Ascii.eqb "!" "!") with true. cbv iota. cbn [andb].
    rewrite nth_error_skipn.
    destruct (skipn i args) as [|a rest] eqn:Hs; cbn [hd_error]; [reflexivity|].
    destruct (String.prefix "-" a); cbn [negb]; [reflexivity|].
    rewrite IH, skipn_S_tl, Hs. cbn [tl map combine].
    destruct (first_unmet ks rest); [reflexivity|].
    now rewrite <- app_assoc.
Qed.

Lemma validate_required (keys args : list string) :
  validate (map (fun k => mkParam k "!"%char) keys) args =
    if (List.length keys <? List.length args)%nat
    then MegaCommandError "Too many arguments provided"
    else
      match first_unmet keys args with
      | Some k => MegaCommandError ("Missing required argument: " ++ k)
      | None => Returns (mkResult (combine keys (map Some args)) [])
      end.
Proof.
  unfold validate. rewrite length_map.
  destruct (List.length keys <? List.length args)%nat; [reflexivity|].
  now rewrite validate_loop_required.
Qed.

(** X20. A syntax of required arguments only: [validate] returns
    exactly when there are as many arguments as parameters and none of
    them starts with a dash, and what it returns is then the arguments
    in their order, each under the key of its parameter, and no
    option. *)
Theorem validate_of_required_arguments :
  forall (keys args : list string) (r : Result),
    validate (map (fun k => mkParam k "!"%char) keys) args = Returns r <->
    List.length args = List.length keys /\
    Forall (fun a => String.prefix "-" a = false) args /\
    r = mkResult (combine keys (map Some args)) [].
Proof.
  intros keys args r. rewrite validate_required.
  destruct (Nat.ltb_spec (List.length keys) (List.length args)) as [Hlt|Hge].
  - split; [discriminate|]. intros (Hlen & _). lia.
  - revert args r Hge. induction keys as [|k ks IH]; intros args r Hge.
    + destruct args as [|a rest]; [|cbn in Hge; lia]. cbn. split.
      * intros H; injection H as <-. auto.
      * intros (_ & _ & ->). reflexivity.
    + destruct args as [|a rest]; cbn [first_unmet].
      * split; [discriminate|]. intros (Hlen & _). discriminate.
      * destruct (String.prefix "-" a) eqn:Hd.
        -- split; [discriminate|]. intros (_ & Hall & _).
           inversion Hall; subst. congruence.
        -- cbn in Hge.
           assert (IH' := fun r => IH rest r ltac:(lia)). clear IH.
           destruct (first_unmet ks rest) as [k'|] eqn:Hf.
           ++ split; [discriminate|]. intros (Hlen & Hall & _).
              inversion Hall; subst. cbn in Hlen.
              assert (Habs : @MegaCommandError Result
                               ("Missing required argument: " ++ k') =
                             Returns (mkResult (combine ks (map Some rest)) []))
                by (apply IH'; auto).
              discriminate Habs.
           ++ destruct (proj1 (IH' _) eq_refl) as (Hlen & Hall & _).
              split.
              ** intros H; injection H as <-. cbn. auto.
              ** intros (_ & _ & ->). reflexivity.
Qed.

(** X21. [argument('table')] of a command whose syntax is "<! table>":
    the one argument, when there is exactly one and it does not start
    with a dash. *)
Theorem argument_of_the_table_syntax :
  forall (argv : list string),
    argument "<! table>" argv "table" =
      match argv with
      | [] => MegaCommandError "Missing required argument: table"
      | [a] =>
          if String.prefix "-" a
          then MegaCommandError "Missing required argument: table"
          else Returns (Some a)
      | _ => MegaCommandError "Too many arguments provided"
      end.
Proof.
  intros argv. unfold argument.
  change (parse "<! table>") with (map (fun k => mkParam k "!"%char) ["table"]).
  rewrite validate_required.
  destruct argv as [|a [|b rest]]; try reflexivity.
  cbn. destruct (String.prefix "-" a); reflexivity.
Qed.

(* ------------------------------------------------------------------ *)
(** ** What [parse] reads in a syntax                                   *)
(* ------------------------------------------------------------------ *)

Lemma span_app (f : ascii -> bool) (s : string) :
  s = fst (span f s) ++ snd (span f s).
Proof.
  induction s as [|c s IH]; [reflexivity|].
  cbn [span]. destruct (f c); [|reflexivity].
  destruct (span f s) as [run rest]. cbn [fst snd append] in *. now rewrite <- IH.
Qed.

(** A run read by [span] is read whole when it is read again. *)
Lemma span_run (f : ascii -> bool) (s : string) :
  snd (span f (fst (span f s))) = EmptyString.
Proof.
  induction s as [|c s IH]; [reflexivity|].
  cbn [span]. destruct (f c) eqn:Hc; [|reflexivity].
  destruct (span f s) as [run rest]. cbn [fst snd] in *.
  cbn [span]. rewrite Hc.
  destruct (span f run) as [run' rest']. cbn [fst snd] in *. exact IH.
Qed.

Lemma match_here_readable (s : string) (p : Param) (len : nat) :
  match_here s = Some (p, len) -> readable p = true.
Proof.
  unfold match_here.
  destruct s as [|c s]; [discriminate|].
  destruct (Ascii.eqb_spec c "<") as [->|Hc].
  2:{ destruct c as [[] [] [] [] [] [] [] []];
      try (intros H; cbn in H; discriminate H); now elim Hc. }
  destruct s as [|t r]; [discriminate|].
  destruct (is_type_char t) eqn:Ht; [|discriminate].
  destruct (span is_space r) as [sp1 r1].
  pose proof (span_run is_key_char r1) as Hrun.
  destruct (span is_key_char r1) as [k r2]. cbn [fst] in Hrun.
  destruct (String.eqb k EmptyString) eqn:Hk; [discriminate|].
  destruct (span is_space r2) as [sp2 r3].
  destruct r3 as [|c3 r3]; [discriminate|].
  destruct (Ascii.eqb_spec c3 ">") as [->|Hc3].
  2:{ destruct c3 as [[] [] [] [] [] [] [] []];
      try (intros H; cbn in H; discriminate H); now elim Hc3. }
  intros H. injection H as <- _.
  unfold readable. cbn [key type]. now rewrite Ht, Hk, Hrun.
Qed.

(** X22. Whatever the syntax, each parameter that [parse] reads has one
    of the types "!", "?" and "-" and a key that is not empty and made
    of small letters, digits and underscores. *)
Theorem parse_reads_only_readable_parameters :
  forall syntax : string, forallb readable (parse syntax) = true.
Proof.
  intros syntax. unfold parse. generalize 0%nat.
  induction syntax as [|c s IH]; intros skip; [reflexivity|].
  cbn [parse_from]. destruct skip as [|k]; [|apply IH].
  destruct (match_here (String c s)) as [[p len]|] eqn:Hm; [|apply IH].
  cbn [forallb]. now rewrite (match_here_readable _ _ _ Hm), IH.
Qed.

Lemma span_all (f : ascii -> bool) (k : string) (c : ascii) (rest : string) :
  snd (span f k) = EmptyString -> f c = false ->
  span f (k ++ String c rest) = (k, String c rest).
Proof.
  intros Hk Hc. induction k as [|x k IH].
  - cbn. now rewrite Hc.
  - cbn [span] in Hk. cbn [append span].
    destruct (f x); [|discriminate].
    destruct (span f k) as [run r]. cbn [snd] in *.
    rewrite (IH Hk). reflexivity.
Qed.

(** [parse] reads a declaration at the head of a text. *)
Lemma match_here_declaration (p : Param) (rest : string) :
  readable p = true ->
  match_here (declaration p ++ rest) =
    Some (p, String.length (declaration p)).
Proof.
  unfold readable. intros H.
  apply andb_true_iff in H as (H & Hrun). apply andb_true_iff in H as (Ht & Hne).
  apply String.eqb_eq in Hrun. apply negb_true_iff in Hne.
  destruct p as [k t]. cbn [key type] in *.
  unfold declaration. cbn [key type append match_here]. rewrite Ht.
  destruct k as [|c k]; [discriminate|].
  assert (Hc : is_key_char c = true).
  { cbn [span] in Hrun. destruct (is_key_char c); [reflexivity|discriminate]. }
  assert (Hsp : is_space c = false).
  { revert Hc. clear.
    destruct c as [[] [] [] [] [] [] [] []]; vm_compute; congruence. }
  cbn [span]. change (is_space " ") with true. cbv iota.
  assert (Hs1 : span is_space ((String c k ++ ">") ++ rest) =
                (EmptyString, (String c k ++ ">") ++ rest)).
  { cbn [append span]. now rewrite Hsp. }
  rewrite Hs1.
  assert (Hs2 : span is_key_char ((String c k ++ ">") ++ rest) =
                (String c k, String ">" rest)).
  { rewrite append_assoc. apply span_all; [exact Hrun|reflexivity]. }
  rewrite Hs2, Hne.
  cbn [span]. change (is_space ">") with false. cbv iota.
  f_equal. f_equal. cbn [String.length]. rewrite length_append. cbn. lia.
Qed.

Lemma parse_from_skip (x : string) :
  forall rest : string,
    parse_from (String.length x) (x ++ rest) =
      match rest with
      | EmptyString => []
      | _ => parse_from 0 rest
      end.
Proof.
  induction x as [|c x IH]; intros rest.
  - cbn. destruct rest; reflexivity.
  - cbn [String.length append parse_from]. apply IH.
Qed.

Lemma parse_from_0 (c : ascii) (r : string) :
  parse_from 0 (String c r) =
    match match_here (String c r) with
    | Some (p, len) => p :: parse_from (len - 1) r
    | None => parse_from 0 r
    end.
Proof. reflexivity. Qed.

Lemma parse_from_declaration (p : Param) (rest : string) :
  readable p = true ->
  parse_from 0 (declaration p ++ rest) = p :: parse_from 0 rest.
Proof.
  intros Hp.
  pose proof (match_here_declaration p rest Hp) as Hm.
  set (x := String (type p) (String " " (key p ++ ">"))).
  change (declaration p) with (String "<" x) in *.
  change (String "<" x ++ rest) with (String "<" (x ++ rest)) in *.
  rewrite parse_from_0, Hm. f_equal.
  change (String.length (String "<" x)) with (S (String.length x)).
  rewrite Nat.sub_succ, Nat.sub_0_r, parse_from_skip.
  destruct rest; reflexivity.
Qed.

(** X23. [parse] reads back the parameters that a syntax declares: for
    parameters that are readable (a type among "!", "?" and "-", a key
    of small letters, digits and underscores), written "<! key>" one
    after the other with a space between them, it returns these
    parameters, in their order. *)
Theorem parse_reads_the_declarations :
  forall params : list Param,
    forallb readable params = true ->
    parse (Js.join " " (map declaration params)) = params.
Proof.
  unfold parse. induction params as [|p rest IH]; intros H; [reflexivity|].
  cbn [forallb] in H. apply andb_true_iff in H as (Hp & Hrest).
  cbn [map Js.join].
  destruct (map declaration rest) as [|d ds] eqn:Hmap.
  - destruct rest; [|discriminate].
    assert (E : declaration p = declaration p ++ EmptyString)
      by (clear; induction (declaration p) as [|c s IHs]; cbn; congruence).
    rewrite E. exact (parse_from_declaration p EmptyString Hp).
  - rewrite (parse_from_declaration p _ Hp). f_equal.
    change (" " ++ Js.join " " (d :: ds)) with (String " " (Js.join " " (d :: ds))).
    rewrite parse_from_0.
    change (match_here (String " " (Js.join " " (d :: ds)))) with (@None (Param * nat)).
    cbv iota. now apply IH.
Qed.

(** The syntax of a command with a required argument, an optional one
    and a flag. *)
Lemma parse_reads_the_declarations_witness :
  parse "<! table> <? name> <- force>" =
    [mkParam "table" "!"; mkParam "name" "?"; mkParam "force" "-"].
Proof.
  exact (parse_reads_the_declarations
           [mkParam "table" "!"; mkParam "name" "?"; mkParam "force" "-"]
           eq_refl).
Defined.

